(** * OpenExecution provenance core: hash chain, certificate issuer, verifier

    A shallow embedding of the provenance code of the live demo driver
    ([canonicalize], [sha256], [class Chain], [class CertIssuer], the
    generated [verify.js]) and of the integrity checks of the export and
    walkthrough scripts.

    The JavaScript code calls into Node's [crypto] module.  Those primitives
    are not part of the repository; they are written out here from their
    standards (FIPS 180-4 for SHA-256 and SHA-512, RFC 8032 for Ed25519) and
    pinned by the standards' published test vectors, so that every statement
    below can be evaluated on concrete artifacts. *)

From Bignums Require Import BigZ.
From Stdlib Require Import ZArith List String Ascii Bool Lia.
From Stdlib Require Import Permutation Sorted.
Import ListNotations.
Local Open Scope list_scope.
Local Open Scope string_scope.
Local Open Scope Z_scope.

(** Closed equations between concrete artifacts, with the evaluated result
    written out on the right, are settled by evaluation, once, when the
    kernel checks the proof. *)
Ltac by_evaluation :=
  lazymatch goal with
  | |- @eq ?A _ ?r => vm_cast_no_check (@eq_refl A r)
  end.

(** ** Bytes, hexadecimal text, UTF-8 *)

Module Bytes.
Local Open Scope list_scope.

(** A byte is a [Z] in [0, 255]; a buffer is a list of bytes. *)
Definition buffer := list Z.

Definition hex_digit (d : Z) : ascii :=
  ascii_of_nat (Z.to_nat (if d <? 10 then 48 + d else 87 + d)).

(** [n] as exactly [digits] lowercase hexadecimal digits, most significant
    first (what [digest('hex')] and [toString('hex')] emit per byte). *)
Fixpoint hex_of (digits : nat) (n : Z) : string :=
  match digits with
  | O => EmptyString
  | S d => String (hex_digit ((n / 16 ^ Z.of_nat d) mod 16)) (hex_of d n)
  end.

Fixpoint to_hex (b : buffer) : string :=
  match b with
  | [] => EmptyString
  | x :: r => (hex_of 2 x ++ to_hex r)%string
  end.

Definition hex_value (c : ascii) : option Z :=
  let n := Z.of_nat (nat_of_ascii c) in
  if (48 <=? n) && (n <=? 57) then Some (n - 48)
  else if (97 <=? n) && (n <=? 102) then Some (n - 87)
  else if (65 <=? n) && (n <=? 70) then Some (n - 55)
  else None.

(** [Buffer.from(s, 'hex')]: pairs of hex digits are decoded until the first
    pair that is not hexadecimal (or a trailing single digit), where decoding
    stops and what was decoded so far is the buffer. *)
Fixpoint from_hex (s : string) : buffer :=
  match s with
  | String a (String b r) =>
      match hex_value a, hex_value b with
      | Some x, Some y => (16 * x + y) :: from_hex r
      | _, _ => []
      end
  | _ => []
  end.

(** UTF-8 bytes of a string whose characters are the code units 0..255
    ([Buffer.from(s)] and [hash.update(s)] encode their string argument this
    way). *)
Fixpoint utf8 (s : string) : buffer :=
  match s with
  | EmptyString => []
  | String c r =>
      let n := Z.of_nat (nat_of_ascii c) in
      if n <? 128 then n :: utf8 r
      else (192 + n / 64) :: (128 + n mod 64) :: utf8 r
  end.

(** Big-endian and little-endian integers. *)
Fixpoint be_bytes (len : nat) (n : Z) : buffer :=
  match len with
  | O => []
  | S l => (n / 256 ^ Z.of_nat l) mod 256 :: be_bytes l n
  end.

Definition be_value (b : buffer) : Z := fold_left (fun acc x => acc * 256 + x) b 0.

Fixpoint le_bytes (len : nat) (n : Z) : buffer :=
  match len with
  | O => []
  | S l => n mod 256 :: le_bytes l (n / 256)
  end.

Definition le_value (b : buffer) : Z := fold_right (fun x acc => x + 256 * acc) 0 b.

Fixpoint chunks_go (fuel n : nat) (b : buffer) : list buffer :=
  match fuel, b with
  | _, [] => []
  | O, _ => []
  | S f, _ => firstn n b :: chunks_go f n (skipn n b)
  end.

(** Byte-for-byte comparison ([memcmp], [Buffer.equals]). *)
Fixpoint eqb (a b : buffer) : bool :=
  match a, b with
  | [], [] => true
  | x :: a', y :: b' => (x =? y) && eqb a' b'
  | _, _ => false
  end.

(** [b] cut into consecutive pieces of [n] bytes. *)
Definition chunks (n : nat) (b : buffer) : list buffer := chunks_go (List.length b) n b.

End Bytes.

(** ** SHA-2 (FIPS 180-4) *)

Module SHA2.
Import Bytes.
Local Open Scope list_scope.

(** The two members used by the program differ in word size, round count and
    rotation amounts only. *)
Record variant := {
  wbits : Z;
  wmask : Z;
  rounds : nat;
  Sig0 : Z * Z * Z;
  Sig1 : Z * Z * Z;
  sig0 : Z * Z * Z;
  sig1 : Z * Z * Z
}.

Definition primes : list Z :=
  [2; 3; 5; 7; 11; 13; 17; 19; 23; 29; 31; 37; 41; 43; 47; 53; 59; 61; 67; 71;
   73; 79; 83; 89; 97; 101; 103; 107; 109; 113; 127; 131; 137; 139; 149; 151;
   157; 163; 167; 173; 179; 181; 191; 193; 197; 199; 211; 223; 227; 229; 233;
   239; 241; 251; 257; 263; 269; 271; 277; 281; 283; 293; 307; 311; 313; 317;
   331; 337; 347; 349; 353; 359; 367; 373; 379; 383; 389; 397; 401; 409].

(** Integer cube root by bisection on the bits of the result. *)
Fixpoint icbrt (bits : nat) (n r : Z) : Z :=
  match bits with
  | O => r
  | S b =>
      let r' := r + 2 ^ Z.of_nat b in
      icbrt b n (if r' * r' * r' <=? n then r' else r)
  end.

(** Round constants: the first [w] bits of the fractional parts of the cube
    roots of the first primes; initial state: the same of the square roots
    of the first eight. *)
Definition round_constants (w : Z) (n : nat) : list Z :=
  map (fun p => icbrt (Z.to_nat w + 4)%nat (p * 2 ^ (3 * w)) 0 mod 2 ^ w)
      (firstn n primes).

Definition initial_words (w : Z) : list Z :=
  map (fun p => Z.sqrt (p * 2 ^ (2 * w)) mod 2 ^ w) (firstn 8 primes).

Definition v256 : variant :=
  {| wbits := 32; wmask := 4294967295; rounds := 64;
     Sig0 := (2, 13, 22); Sig1 := (6, 11, 25);
     sig0 := (7, 18, 3); sig1 := (17, 19, 10) |}.

Definition v512 : variant :=
  {| wbits := 64; wmask := 18446744073709551615; rounds := 80;
     Sig0 := (28, 34, 39); Sig1 := (14, 18, 41);
     sig0 := (1, 8, 7); sig1 := (19, 61, 6) |}.

Section Variant.
Variable v : variant.
Variable Kconst H0 : list Z.

Let w := wbits v.
Let mask := wmask v.

Definition add (x y : Z) : Z := Z.land (x + y) mask.
Definition rotr (n x : Z) : Z := Z.lor (Z.shiftr x n) (Z.land (Z.shiftl x (w - n)) mask).
Definition Ch (x y z : Z) : Z := Z.lxor (Z.land x y) (Z.land (Z.lxor x mask) z).
Definition Maj (x y z : Z) : Z := Z.lxor (Z.lxor (Z.land x y) (Z.land x z)) (Z.land y z).
Definition big '((a, b, c) : Z * Z * Z) (x : Z) : Z :=
  Z.lxor (Z.lxor (rotr a x) (rotr b x)) (rotr c x).
Definition small '((a, b, c) : Z * Z * Z) (x : Z) : Z :=
  Z.lxor (Z.lxor (rotr a x) (rotr b x)) (Z.shiftr x c).

(** Message schedule; the words are kept newest first while extending. *)
Fixpoint extend (n : nat) (ws : list Z) : list Z :=
  match n with
  | O => ws
  | S k =>
      let x := add (add (small (sig1 v) (nth 1 ws 0)) (nth 6 ws 0))
                   (add (small (sig0 v) (nth 14 ws 0)) (nth 15 ws 0)) in
      extend k (x :: ws)
  end.

Definition schedule (block : list Z) : list Z :=
  rev (extend (rounds v - 16)%nat (rev block)).

Definition state := (Z * Z * Z * Z * Z * Z * Z * Z)%type.

Definition step (s : state) (kw : Z * Z) : state :=
  let '(a, b, c, d, e, f, g, h) := s in
  let t1 := add (add (add h (big (Sig1 v) e)) (Ch e f g)) (add (fst kw) (snd kw)) in
  let t2 := add (big (Sig0 v) a) (Maj a b c) in
  (add t1 t2, a, b, c, add d t1, e, f, g).

Definition compress (s : state) (block : list Z) : state :=
  let '(a, b, c, d, e, f, g, h) := s in
  let '(a', b', c', d', e', f', g', h') :=
    fold_left step (combine Kconst (schedule block)) s in
  (add a a', add b b', add c c', add d d', add e e', add f f', add g g', add h h').

Definition wbytes : nat := Z.to_nat (w / 8).
Definition block_bytes : Z := 2 * w.

(** Padding: a 1 bit, zeros, and the bit length in the last two words. *)
Definition pad (msg : buffer) : buffer :=
  let len := Z.of_nat (List.length msg) in
  let zeros := (block_bytes - 2 * (w / 8) - 1 - len) mod block_bytes in
  msg ++ 128 :: repeat 0 (Z.to_nat zeros) ++ be_bytes (2 * wbytes)%nat (8 * len).

Definition init : state :=
  match H0 with
  | [a; b; c; d; e; f; g; h] => (a, b, c, d, e, f, g, h)
  | _ => (0, 0, 0, 0, 0, 0, 0, 0)
  end.

Definition digest (msg : buffer) : buffer :=
  let blocks := map (fun blk => map be_value (chunks wbytes blk))
                    (chunks (Z.to_nat block_bytes) (pad msg)) in
  let '(a, b, c, d, e, f, g, h) := fold_left compress blocks init in
  flat_map (be_bytes wbytes) [a; b; c; d; e; f; g; h].

End Variant.

Definition K256 : list Z := Eval vm_compute in round_constants 32 64.
Definition K512 : list Z := Eval vm_compute in round_constants 64 80.
Definition IV256 : list Z := Eval vm_compute in initial_words 32.
Definition IV512 : list Z := Eval vm_compute in initial_words 64.

Definition sha256_bytes : buffer -> buffer := digest v256 K256 IV256.
Definition sha512_bytes : buffer -> buffer := digest v512 K512 IV512.

End SHA2.

(** ** Ed25519 (RFC 8032), as OpenSSL computes it for Node's [crypto] *)

Module Ed25519.
Import Bytes.
Local Open Scope list_scope.

(** Field arithmetic modulo [p = 2^255 - 19] runs on machine-word integers.
    A product of two field elements is reduced by folding its high bits
    down twice, [2^255] being [19] modulo [p]. *)
Definition fe := bigZ.

Definition p : fe := Eval vm_compute in (2 ^ 255 - 19)%bigZ.
Definition low255 : fe := Eval vm_compute in (2 ^ 255 - 1)%bigZ.

Definition fold255 (x : fe) : fe :=
  (BigZ.land x low255 + 19 * BigZ.shiftr x 255)%bigZ.

Definition reduce (x : fe) : fe :=
  let y := fold255 (fold255 x) in
  if (y <? p)%bigZ then y else (y - p)%bigZ.

Definition fmul (a b : fe) : fe := reduce (a * b)%bigZ.
Definition fadd (a b : fe) : fe := ((a + b) mod p)%bigZ.
Definition fsub (a b : fe) : fe := ((a - b) mod p)%bigZ.

Fixpoint fpow_pos (a : fe) (e : positive) : fe :=
  match e with
  | xH => a
  | xO e' => let h := fpow_pos a e' in fmul h h
  | xI e' => let h := fpow_pos a e' in fmul a (fmul h h)
  end.

Definition fpow (a : fe) (e : Z) : fe :=
  match e with
  | Zpos e' => fpow_pos a e'
  | _ => 1%bigZ
  end.

Definition pZ : Z := Eval vm_compute in 2 ^ 255 - 19.
Definition finv (a : fe) : fe := fpow a (pZ - 2).

(** Curve [-x^2 + y^2 = 1 + d x^2 y^2] with [d = -121665/121666]; group
    order [L]; base point with [y = 4/5] and even [x]. *)
Definition d : fe := Eval vm_compute in fmul (p - 121665)%bigZ (finv 121666%bigZ).
Definition d2 : fe := Eval vm_compute in fadd d d.
Definition sqrt_m1 : fe := Eval vm_compute in fpow 2%bigZ ((pZ - 1) / 4).
Definition L : Z := Eval vm_compute in 2 ^ 252 + 27742317777372353535851937790883648493.

(** Points in extended coordinates [(X, Y, Z, T)], [x = X/Z], [y = Y/Z],
    [x y = T/Z]. *)
Definition point := (fe * fe * fe * fe)%type.

Definition zero : point := (0, 1, 1, 0)%bigZ.

Definition padd (P Q : point) : point :=
  let '(X1, Y1, Z1, T1) := P in
  let '(X2, Y2, Z2, T2) := Q in
  let A := fmul (fsub Y1 X1) (fsub Y2 X2) in
  let B := fmul (fadd Y1 X1) (fadd Y2 X2) in
  let C := fmul (fmul T1 d2) T2 in
  let D := fmul (fadd Z1 Z1) Z2 in
  let E := fsub B A in
  let F := fsub D C in
  let G := fadd D C in
  let H := fadd B A in
  (fmul E F, fmul G H, fmul F G, fmul E H).

Definition pneg (P : point) : point :=
  let '(X, Y, Z, T) := P in (fsub 0%bigZ X, Y, Z, fsub 0%bigZ T).

Fixpoint pmul_pos (e : positive) (P : point) : point :=
  match e with
  | xH => P
  | xO e' => let h := pmul_pos e' P in padd h h
  | xI e' => let h := pmul_pos e' P in padd P (padd h h)
  end.

Definition pmul (e : Z) (P : point) : point :=
  match e with
  | Zpos e' => pmul_pos e' P
  | _ => zero
  end.

Definition two255 : Z := Eval vm_compute in 2 ^ 255.

(** The 32-byte encoding: [y] little-endian, the parity of [x] in the top
    bit. *)
Definition encode (P : point) : buffer :=
  let '(X, Y, Z, _) := P in
  let zi := finv Z in
  let x := BigZ.to_Z (fmul X zi) in
  let y := BigZ.to_Z (fmul Y zi) in
  le_bytes 32 (y + two255 * (x mod 2)).

(** Decoding recovers [x] from [x^2 = (y^2 - 1) / (d y^2 + 1)]; it fails
    when that has no square root. *)
Definition decode (b : buffer) : option point :=
  if negb (Nat.eqb (List.length b) 32) then None
  else
    let n := le_value b in
    let sign := n / two255 in
    let y := (BigZ.of_Z (n mod two255) mod p)%bigZ in
    let yy := fmul y y in
    let u := fsub yy 1%bigZ in
    let v := fadd (fmul d yy) 1%bigZ in
    let v3 := fmul v (fmul v v) in
    let v7 := fmul v (fmul v3 v3) in
    let x0 := fmul (fmul u v3) (fpow (fmul u v7) ((pZ - 5) / 8)) in
    let vxx := fmul v (fmul x0 x0) in
    let fix_sign x :=
      let x' := if Z.eqb (BigZ.to_Z x mod 2) sign then x else fsub 0%bigZ x in
      Some (x', y, 1%bigZ, fmul x' y) in
    if BigZ.eqb vxx u then fix_sign x0
    else if BigZ.eqb vxx (fsub 0%bigZ u) then fix_sign (fmul x0 sqrt_m1)
    else None.

Definition B_y : fe := Eval vm_compute in fmul 4%bigZ (finv 5%bigZ).

Definition B : point :=
  Eval vm_compute in
    match decode (le_bytes 32 (BigZ.to_Z B_y)) return point with
    | Some P => P
    | None => zero
    end.

(** Private-key expansion: the clamped lower half of [SHA-512(seed)] is the
    secret scalar, the upper half the nonce prefix. *)
Definition clamp (h : buffer) : Z :=
  let a := le_value (firstn 32 h) in
  Z.lor (Z.land a (2 ^ 254 - 8)) (2 ^ 254).

Definition public_of_seed (seed : buffer) : buffer :=
  encode (pmul (clamp (SHA2.sha512_bytes seed)) B).

Definition sign (seed msg : buffer) : buffer :=
  let h := SHA2.sha512_bytes seed in
  let a := clamp h in
  let A := encode (pmul a B) in
  let r := le_value (SHA2.sha512_bytes (skipn 32 h ++ msg)) mod L in
  let R := encode (pmul r B) in
  let k := le_value (SHA2.sha512_bytes (R ++ A ++ msg)) mod L in
  R ++ le_bytes 32 ((r + k * a) mod L).

(** Verification: [S < L], the key decodes, and the encoding of
    [S B - k A] equals the signature's first half byte for byte. *)
Definition verify (pub msg sig : buffer) : bool :=
  if negb (Nat.eqb (List.length sig) 64) then false
  else
    let R := firstn 32 sig in
    let S := le_value (skipn 32 sig) in
    if L <=? S then false
    else
      match decode pub with
      | None => false
      | Some A =>
          let k := le_value (SHA2.sha512_bytes (R ++ pub ++ msg)) mod L in
          let R' := padd (pmul S B) (pmul k (pneg A)) in
          eqb (encode R') R
      end.

End Ed25519.

(** ** JavaScript values and the built-ins the code relies on *)

(** The values that flow through the provenance code: what [JSON.parse]
    yields, plus [undefined] (a missing property or argument).  A string is
    a sequence of code units in the range 0..255; a number is an integer.
    The integers a JavaScript number holds exactly, and prints in plain
    decimal, are the safe integers ([safe_integers] below): the statements
    that depend on the digits of a number are stated for those.  An object
    is its list of properties in insertion order; a JavaScript object never
    holds the same key twice ([well_formed] below). *)
#[local] Set Warnings "-register-all".
Inductive value : Type :=
| JUndefined
| JNull
| JBool (b : bool)
| JNum (n : Z)
| JStr (s : string)
| JArr (items : list value)
| JObj (fields : list (string * value)).

(** The properties of an object literal or of a database row. *)
Definition obj := list (string * value).

(** Outcome of code that may throw. *)
Inductive error := TypeError.

Inductive result (A : Type) : Type :=
| Ok (a : A)
| Throw (e : error).
Arguments Ok {A} a.
Arguments Throw {A} e.

Definition bind {A B : Type} (r : result A) (k : A -> result B) : result B :=
  match r with
  | Ok a => k a
  | Throw e => Throw e
  end.

Notation "'do' x <- r ; k" := (bind r (fun x => k))
  (at level 10, x name, r at level 100, k at level 200).

Module JS.

(** [o[k]] on an object: the property's value, [undefined] when absent. *)
Fixpoint lookup {A : Type} (k : string) (fs : list (string * A)) : option A :=
  match fs with
  | [] => None
  | (k', v) :: r => if String.eqb k k' then Some v else lookup k r
  end.

Definition get (o : obj) (k : string) : value :=
  match lookup k o with
  | Some v => v
  | None => JUndefined
  end.

(** The rest of an object once a property is taken out
    ([const { k, ...rest } = o]). *)
Definition without {A : Type} (k : string) (fs : list (string * A)) : list (string * A) :=
  filter (fun kv => negb (String.eqb k (fst kv))) fs.

Definition keys {A : Type} (fs : list (string * A)) : list string := map fst fs.

(** [o[k] = v]: an existing property keeps its place, a new one goes last. *)
Fixpoint set {A : Type} (k : string) (v : A) (fs : list (string * A)) : list (string * A) :=
  match fs with
  | [] => [(k, v)]
  | (k', x) :: r => if String.eqb k k' then (k, v) :: r else (k', x) :: set k v r
  end.

(** ToBoolean. *)
Definition truthy (v : value) : bool :=
  match v with
  | JUndefined | JNull => false
  | JBool b => b
  | JNum n => negb (n =? 0)
  | JStr s => negb (String.eqb s "")
  | JArr _ | JObj _ => true
  end.

(** [a !== b] is [negb (strict_equal a b)].  Primitives compare by value;
    two arrays or objects read from different places of a parsed document
    are different references. *)
Definition strict_equal (a b : value) : bool :=
  match a, b with
  | JUndefined, JUndefined => true
  | JNull, JNull => true
  | JBool x, JBool y => Bool.eqb x y
  | JNum x, JNum y => x =? y
  | JStr x, JStr y => String.eqb x y
  | _, _ => false
  end.

Fixpoint digits (fuel : nat) (n : Z) (acc : string) : string :=
  match fuel with
  | O => acc
  | S f =>
      let acc' := String (ascii_of_nat (Z.to_nat (48 + n mod 10))) acc in
      if n <? 10 then acc' else digits f (n / 10) acc'
  end.

(** Number::toString for a safe integer: its decimal digits, after a minus
    sign if it is negative. *)
Definition Number_toString (n : Z) : string :=
  if n <? 0 then "-" ++ digits (S (Z.to_nat (Z.log2 (- n)))) (- n) ""
  else digits (S (Z.to_nat (Z.log2 n))) n "".

(** [Array.prototype.join] on strings. *)
Fixpoint join (sep : string) (l : list string) : string :=
  match l with
  | [] => ""
  | [x] => x
  | x :: r => x ++ sep ++ join sep r
  end.

(** ToString of a value whose conversion cannot throw (a primitive, and
    any value that holds no object with a [toString] property): an array
    prints its elements joined by commas, [null] and [undefined] elements
    as nothing.  It serves where the code joins the hashes it stored
    itself; [to_string] below is the conversion with its exception, for
    values read from a document. *)
Fixpoint ToString (v : value) : string :=
  match v with
  | JUndefined => "undefined"
  | JNull => "null"
  | JBool b => if b then "true" else "false"
  | JNum n => Number_toString n
  | JStr s => s
  | JArr l =>
      join "," (map (fun x => match x with
                              | JUndefined | JNull => ""
                              | _ => ToString x
                              end) l)
  | JObj _ => "[object Object]"
  end.

(** The string an element contributes to [join]. *)
Definition join_item (v : value) : string :=
  match v with
  | JUndefined | JNull => ""
  | _ => ToString v
  end.

(** [l.map(f)] and the like for an [f] that may throw: the first exception
    ends the loop. *)
Fixpoint map_result {A B : Type} (f : A -> result B) (l : list A) : result (list B) :=
  match l with
  | [] => Ok []
  | x :: r => do y <- f x; do ys <- map_result f r; Ok (y :: ys)
  end.

(** ToString as a template literal or [join] applies it to a value of a
    parsed document.  An object prints as [[object Object]] unless it
    carries a [toString] property of its own: that property is data, not a
    function, and the conversion then throws.  An array joins its elements,
    [null] and [undefined] as nothing. *)
Fixpoint to_string (v : value) : result string :=
  match v with
  | JUndefined => Ok "undefined"
  | JNull => Ok "null"
  | JBool b => Ok (if b then "true" else "false")
  | JNum n => Ok (Number_toString n)
  | JStr s => Ok s
  | JArr l =>
      do parts <- (fix items (l : list value) : result (list string) :=
                     match l with
                     | [] => Ok []
                     | x :: r =>
                         do s <- match x with
                                 | JUndefined | JNull => Ok ""
                                 | _ => to_string x
                                 end;
                         do rest <- items r;
                         Ok (s :: rest)
                     end) l;
      Ok (join "," parts)
  | JObj o =>
      match lookup "toString" o with
      | None => Ok "[object Object]"
      | Some _ => Throw TypeError
      end
  end.

(** JSON.stringify on a string: quotes, with the two-character escapes and
    [\u00xx] for the remaining control characters. *)
Definition escape (c : ascii) : string :=
  let n := Z.of_nat (nat_of_ascii c) in
  if n =? 34 then "\" ++ String c ""
  else if n =? 92 then "\\"
  else if n =? 8 then "\b"
  else if n =? 9 then "\t"
  else if n =? 10 then "\n"
  else if n =? 12 then "\f"
  else if n =? 13 then "\r"
  else if n <? 32 then "\u00" ++ Bytes.hex_of 2 n
  else String c "".

Fixpoint escape_all (s : string) : string :=
  match s with
  | EmptyString => ""
  | String c r => escape c ++ escape_all r
  end.

Definition quote (s : string) : string :=
  String (ascii_of_nat 34) (escape_all s ++ String (ascii_of_nat 34) "").

(** JSON.stringify on a primitive; [None] is the [undefined] it returns for
    [undefined]. *)
Definition JSON_stringify_primitive (v : value) : option string :=
  match v with
  | JUndefined => None
  | JNull => Some "null"
  | JBool b => Some (if b then "true" else "false")
  | JNum n => Some (Number_toString n)
  | JStr s => Some (quote s)
  | JArr _ | JObj _ => None
  end.

(** [Array.prototype.sort()] without a comparator orders strings by code
    units. *)
Fixpoint insert (k : string) (l : list string) : list string :=
  match l with
  | [] => [k]
  | x :: r => if String.leb k x then k :: l else x :: insert k r
  end.

Fixpoint sort (l : list string) : list string :=
  match l with
  | [] => []
  | x :: r => insert x (sort r)
  end.

(** What [+] makes of a possibly-undefined operand next to a string, and
    what [join] makes of a possibly-undefined element. *)
Definition operand (s : option string) : string :=
  match s with Some x => x | None => "undefined" end.

Definition element (s : option string) : string :=
  match s with Some x => x | None => "" end.

End JS.

(** ** The provenance code *)

(** [const GENESIS = '0'.repeat(64)] *)
Fixpoint String_repeat (s : string) (count : nat) : string :=
  match count with
  | O => ""
  | S n => s ++ String_repeat s n
  end.

Definition GENESIS : string := String_repeat "0" 64.

(** The text of an object whose property values are already rendered:
    [Object.keys(obj).sort().map(k => JSON.stringify(k) + ':' + ...).join(',')]
    between braces. *)
Definition object_text (rendered : list (string * string)) : string :=
  "{" ++ JS.join ","
           (map (fun k => JS.quote k ++ ":" ++
                          match JS.lookup k rendered with
                          | Some x => x
                          | None => "undefined"
                          end)
                (JS.sort (JS.keys rendered)))
      ++ "}".

(** [canonicalize(obj)].  The copies in the repository (export script,
    walkthrough, live demo and the verifier it generates) take the same
    branches: [null], [undefined] and whatever is not an object go to
    [JSON.stringify], arrays map and join, objects sort their keys.  [None]
    is the [undefined] that [JSON.stringify(undefined)] returns. *)
Fixpoint canonicalize (v : value) : option string :=
  match v with
  | JArr items =>
      Some ("[" ++ JS.join "," (map (fun item => JS.element (canonicalize item)) items) ++ "]")
  | JObj fields =>
      Some (object_text
              (map (fun kv => let '(k, x) := kv in (k, JS.operand (canonicalize x))) fields))
  | _ => JS.JSON_stringify_primitive v
  end.

(** [canonicalize] of an object is always a string. *)
Definition canonicalize_object (o : obj) : string :=
  object_text (map (fun kv => let '(k, x) := kv in (k, JS.operand (canonicalize x))) o).

(** [crypto.createHash('sha256').update(data).digest('hex')] *)
Definition sha256 (data : string) : string :=
  Bytes.to_hex (SHA2.sha256_bytes (Bytes.utf8 data)).

(** [Buffer.from(v, 'hex')].  A string is decoded; a primitive that is not a
    string is a TypeError.  Arrays and objects are byte sources of their own
    (array-likes), whose coercions are outside this model: [Unsupported]
    marks where the model stops. *)
Inductive hex_arg :=
| Decoded (b : Bytes.buffer)
| Rejected
| Unsupported.

Definition Buffer_from_hex (v : value) : hex_arg :=
  match v with
  | JStr s => Decoded (Bytes.from_hex s)
  | JArr _ | JObj _ => Unsupported
  | _ => Rejected
  end.

(** [crypto.verify(null, data, key, signature)] with an Ed25519 key. *)
Definition crypto_verify (data key signature : Bytes.buffer) : bool :=
  Ed25519.verify key data signature.

(** [crypto.sign(null, data, key)] with an Ed25519 key. *)
Definition crypto_sign (data key : Bytes.buffer) : Bytes.buffer :=
  Ed25519.sign key data.

Module Chain.

Inductive chain_status := active | resolved.

(** [class Chain]: [this.id], [this.events], [this.status],
    [this.chainHash]. *)
Record t := mk {
  id : value;
  events : list obj;
  status : chain_status;
  chainHash : value
}.

(** [constructor(id)] *)
Definition new (id : value) : t :=
  {| id := id; events := []; status := active; chainHash := JNull |}.

(** [opts.name] for the two option names the code reads; [opts = {}] stands
    in for a missing argument, and reading a property of [null] throws. *)
Definition option_of (opts : value) (name : string) : result value :=
  match opts with
  | JUndefined => Ok JUndefined
  | JNull => Throw TypeError
  | JObj o => Ok (JS.get o name)
  | _ => Ok JUndefined
  end.

(** What [append] hashes:
    [{ seq, event_type: type, agent_name: agent, timestamp: ts, payload,
       prev_hash: prev }]. *)
Definition hashed_record (seq : nat) (type agent : value) (ts : string)
    (payload prev : value) : obj :=
  [("seq", JNum (Z.of_nat seq)); ("event_type", type); ("agent_name", agent);
   ("timestamp", JStr ts); ("payload", payload); ("prev_hash", prev)].

(** [append(type, agent, org, payload, opts = {})]; [now] is what
    [new Date().toISOString()] returns at the call.  The result is the chain
    after the call, the event returned, and the message handed to [push]
    for the dashboard's event stream. *)
Definition append (c : t) (now : string) (type agent org payload opts : value)
    : result (t * obj * obj) :=
  let seq := S (List.length (events c)) in
  do prev <- (if Nat.eqb seq 1 then Ok (JStr GENESIS)
              else match nth_error (events c) (seq - 2) with
                   | Some e => Ok (JS.get e "event_hash")
                   | None => Throw TypeError
                   end);
  let ts := now in
  let hash := sha256 (canonicalize_object (hashed_record seq type agent ts payload prev)) in
  do authorization <- option_of opts "authorization";
  do ownerId <- option_of opts "ownerId";
  let ev :=
    ([("sequence", JNum (Z.of_nat seq)); ("event_type", type); ("agent_name", agent);
      ("organization", org); ("timestamp", JStr ts); ("payload", payload);
      ("event_hash", JStr hash); ("prev_hash", prev)]
     ++ (if JS.truthy authorization
         then [("authorization_event", JBool true);
               ("owner_user_id", if JS.truthy ownerId then ownerId else JStr "owner-1")]
         else []))%list in
  Ok ({| id := id c; events := (events c ++ [ev])%list; status := status c;
         chainHash := chainHash c |},
      ev,
      [("type", JStr "chain"); ("seq", JNum (Z.of_nat seq)); ("eventType", type);
       ("agent", agent); ("org", org); ("hash", JStr hash); ("prevHash", prev)]).

(** [this.events.map(e => e.event_hash).join(':')], on the events of a
    chain: [append] stored a string in each [event_hash]. *)
Definition joined_hashes (es : list obj) : string :=
  JS.join ":" (map (fun e => JS.join_item (JS.get e "event_hash")) es).

(** [resolve()]: the chain after the call and the value returned. *)
Definition resolve (c : t) : t * string :=
  let h := sha256 (joined_hashes (events c)) in
  ({| id := id c; events := events c; status := resolved; chainHash := JStr h |}, h).

End Chain.

Module CertIssuer.
Import Bytes.

(** [class CertIssuer]: [this.pub], [this.priv] (key objects, here the raw
    32-byte public key and the private seed) and [this.pubHex], the public
    key exported as SPKI DER in hex. *)
Record t := mk {
  pub : buffer;
  priv : buffer;
  pubHex : string
}.

(** The DER header of an Ed25519 SubjectPublicKeyInfo; the key follows. *)
Definition spki_header : buffer := from_hex "302a300506032b6570032100".

(** [constructor()]; [seed] is the randomness [generateKeyPairSync] draws. *)
Definition new (seed : buffer) : t :=
  let pk := Ed25519.public_of_seed seed in
  {| pub := pk; priv := seed; pubHex := to_hex (spki_header ++ pk)%list |}.

(** The certificate fields [issue] signs. *)
Definition data_of (chain : Chain.t) (now : string) : obj :=
  [("version", JStr "1.0"); ("chain_id", Chain.id chain);
   ("chain_hash", Chain.chainHash chain);
   ("event_count", JNum (Z.of_nat (List.length (Chain.events chain))));
   ("issued_at", JStr now); ("issuer", JStr "OpenExecution Sovereign");
   ("algorithm", JStr "Ed25519")].

(** [issue(chain)]; [now] is [new Date().toISOString()] at the call. *)
Definition issue (i : t) (now : string) (chain : Chain.t) : obj :=
  let data := data_of chain now in
  let sig := to_hex (crypto_sign (utf8 (canonicalize_object data)) (priv i)) in
  (data ++ [("signature", JStr sig); ("public_key", JStr (pubHex i))])%list.

(** [const { signature, public_key, ...data } = cert] *)
Definition rest_of (cert : obj) : obj :=
  JS.without "public_key" (JS.without "signature" cert).

(** [verify(cert)] *)
Inductive outcome :=
| Returns (b : bool)
| Throws (e : error)
| Outside.

Definition verify (i : t) (cert : obj) : outcome :=
  let signature := JS.get cert "signature" in
  let data := rest_of cert in
  match Buffer_from_hex signature with
  | Decoded sig => Returns (crypto_verify (utf8 (canonicalize_object data)) (pub i) sig)
  | Rejected => Throws TypeError
  | Unsupported => Outside
  end.

End CertIssuer.

(** ** The generated standalone verifier ([provenance/verify.js]) *)

Module Verifier.
Import Bytes.

(** [crypto.createPublicKey({ key, format: 'der', type: 'spki' })] for an
    Ed25519 key: the header, then 32 key bytes.  [None] is any other buffer:
    keys of other algorithms and how malformed input is refused are outside
    this model. *)
Definition createPublicKey (der : buffer) : option buffer :=
  if eqb (firstn 12 der) CertIssuer.spki_header && Nat.eqb (List.length der) 44
  then Some (skipn 12 der)
  else None.

(** The loop over [chain.events]: [previous] is [chain.events[i - 1]], absent
    at [i = 0]. *)
Fixpoint links (previous : option obj) (es : list obj) (chainOk : bool) : bool :=
  match es with
  | [] => chainOk
  | e :: rest =>
      let expectedPrev :=
        match previous with
        | None => JStr GENESIS
        | Some q => JS.get q "event_hash"
        end in
      links (Some e) rest
            (if negb (JS.strict_equal (JS.get e "prev_hash") expectedPrev)
             then false else chainOk)
  end.

Definition newline : string := String (ascii_of_nat 10) "".

(** What a finished run printed, with the three results it printed them
    from; the script sets no exit code, so a finished run exits with 0. *)
Record report := mk {
  chainOk : bool;
  hashMatch : bool;
  sigValid : bool;
  lines : list string;
  exit_code : Z
}.

(** A run finishes with its report, or dies on an uncaught exception after
    the lines printed so far, or leaves the model ([Outside]: a key or a
    signature given as an array or object, a key document that is not an
    Ed25519 key). *)
Inductive run :=
| Finished (r : report)
| Crashed (printed : list string) (e : error)
| Outside.

(** [hashes.join(':')] on the event hashes of the parsed chain document:
    an element that is [null] or [undefined] joins as nothing, any other is
    converted to a string, and the conversion throws for an object that
    carries a [toString] property. *)
Definition joined_hashes (events : list obj) : result string :=
  do parts <- JS.map_result
                (fun e => match JS.get e "event_hash" with
                          | JUndefined | JNull => Ok ""
                          | h => JS.to_string h
                          end)
                events;
  Ok (JS.join ":" parts).

(** The script, on the three parsed documents: [certificate.json],
    the [events] of [execution-chain.json], and [public-key.json]. *)
Definition verifyScript (cert : obj) (events : list obj) (pubKeyInfo : obj) : run :=
  let chainOk := links None events true in
  let started :=
    ["=== OpenExecution Independent Verification ===" ++ newline;
     "Hash chain integrity: " ++ (if chainOk then "VALID" else "BROKEN")] in
  match joined_hashes events with
  | Throw e => Crashed started e
  | Ok hashes =>
      let computed := sha256 hashes in
      let hashMatch := JS.strict_equal (JStr computed) (JS.get cert "chain_hash") in
      let printed :=
        List.app started
          ["Chain hash match: " ++ (if hashMatch then "VALID" else "MISMATCH")] in
      let signature := JS.get cert "signature" in
      let certData := CertIssuer.rest_of cert in
      match Buffer_from_hex (JS.get pubKeyInfo "public_key") with
      | Rejected => Crashed printed TypeError
      | Unsupported => Outside
      | Decoded der =>
          match createPublicKey der with
          | None => Outside
          | Some pubKey =>
              match Buffer_from_hex signature with
              | Rejected => Crashed printed TypeError
              | Unsupported => Outside
              | Decoded sig =>
                  let sigValid :=
                    crypto_verify (utf8 (canonicalize_object certData)) pubKey sig in
                  Finished
                    {| chainOk := chainOk; hashMatch := hashMatch; sigValid := sigValid;
                       lines :=
                         List.app printed
                           ["Ed25519 signature: "
                            ++ (if sigValid then "VALID" else "INVALID");
                            newline ++ (if chainOk && sigValid then "ALL CHECKS PASSED"
                                        else "VERIFICATION FAILED")];
                       exit_code := 0 |}
              end
          end
      end
  end.

(** The overall verdict is the last line printed. *)
Definition verdict (r : report) : string := last (lines r) "".

End Verifier.

(** ** Chain-integrity checks of the export script and of the walkthrough *)

Module Integrity.

(** One entry of [integrityResults]. *)
Record entry := mk {
  chain_id : value;
  platform : value;
  event_count : value;
  is_valid : bool;
  errors : list string
}.

(** The inner loop of the export script: [prevHash] starts as the genesis
    hash and becomes each event's stored [event_hash]; every mismatch pushes
    a message.  The message is a template literal: converting [event.seq]
    to a string may throw, which ends the export. *)
Fixpoint scan (prevHash : value) (es : list obj) (errors : list string)
    : result (list string) :=
  match es with
  | [] => Ok errors
  | event :: rest =>
      do errors' <- (if negb (JS.strict_equal (JS.get event "prev_hash") prevHash)
                     then do seq <- JS.to_string (JS.get event "seq");
                          Ok (List.app errors ["Event seq=" ++ seq ++ ": prev_hash mismatch"])
                     else Ok errors);
      scan (JS.get event "event_hash") rest errors'
  end.

(** [integrityResults.push({ ... })] for one chain artifact. *)
Definition check (chain : obj) (es : list obj) : result entry :=
  do errors <- scan (JStr GENESIS) es [];
  Ok {| chain_id := JS.get chain "id";
        platform := JS.get chain "platform";
        event_count := JS.get chain "event_count";
        is_valid := Nat.eqb (List.length errors) 0;
        errors := errors |}.

(** [integrityResults]: one entry per chain artifact, each given with its
    [events] array. *)
Definition integrityResults (chainArtifacts : list (obj * list obj)) : result (list entry) :=
  JS.map_result (fun a => check (fst a) (snd a)) chainArtifacts.

(** The walkthrough's loop (ACT 4): it stops at the first broken link and
    keeps the verdict only. *)
Fixpoint linkage (expectedPrev : value) (es : list obj) : bool :=
  match es with
  | [] => true
  | ev :: rest =>
      if negb (JS.strict_equal (JS.get ev "prev_hash") expectedPrev) then false
      else linkage (JS.get ev "event_hash") rest
  end.

End Integrity.

(** ** The driver of a chain *)

(** Operations performed on a chain by its driver. *)
Inductive op :=
| Append (now : string) (type agent org payload opts : value)
| Resolve.

(** A call that throws leaves the chain as it was. *)
Definition exec (c : Chain.t) (o : op) : Chain.t :=
  match o with
  | Append now type agent org payload opts =>
      match Chain.append c now type agent org payload opts with
      | Ok (c', _, _) => c'
      | Throw _ => c
      end
  | Resolve => fst (Chain.resolve c)
  end.

(** The chain a driver holds after [new Chain(id)] and a sequence of calls. *)
Definition run (id : value) (ops : list op) : Chain.t :=
  fold_left exec ops (Chain.new id).

(** [Resolve] steps, to speak of runs that have none. *)
Definition is_resolve (o : op) : bool :=
  match o with Resolve => true | Append _ _ _ _ _ _ => false end.

(** ** Characters and digits *)

Fixpoint all_chars (p : ascii -> bool) (s : string) : bool :=
  match s with
  | EmptyString => true
  | String c r => p c && all_chars p r
  end.

(** A decimal digit. *)
Definition is_digit (c : ascii) : bool :=
  let n := nat_of_ascii c in ((48 <=? n) && (n <=? 57))%nat.

(** The value of a string of digits read after [acc]. *)
Fixpoint read_digits (s : string) (acc : Z) : Z :=
  match s with
  | EmptyString => acc
  | String c r => read_digits r (acc * 10 + (Z.of_nat (nat_of_ascii c) - 48))
  end.

(** ** The artifacts the walkthrough commits (ACT 7 of [runDemo]) *)

Module Walkthrough.

(** [chain.status] as the text the class stores. *)
Definition status_text (s : Chain.chain_status) : string :=
  match s with
  | Chain.active => "active"
  | Chain.resolved => "resolved"
  end.

(** The object written to [provenance/execution-chain.json]. *)
Definition execution_chain_json (c : Chain.t) : obj :=
  [("chain_id", Chain.id c); ("status", JStr (status_text (Chain.status c)));
   ("chain_hash", Chain.chainHash c);
   ("event_count", JNum (Z.of_nat (List.length (Chain.events c))));
   ("events", JArr (map JObj (Chain.events c)))].

(** The object written to [provenance/verification-result.json]; [valid] is
    what [issuer.verify(cert)] returned.  The other two flags are the
    literal [true]. *)
Definition verification_result_json (valid : bool) (c : Chain.t) (now : string) : obj :=
  [("verified", JBool valid); ("chain_hash", Chain.chainHash c);
   ("certificate_signature_valid", JBool true); ("hash_chain_intact", JBool true);
   ("checked_at", JStr now)].

(** The object written to [provenance/public-key.json]. *)
Definition public_key_json (i : CertIssuer.t) : obj :=
  [("algorithm", JStr "Ed25519"); ("public_key", JStr (CertIssuer.pubHex i));
   ("format", JStr "DER (SPKI)")].

End Walkthrough.

(** [chain.events] as the generated verifier reads it from the parsed chain
    document: an array of objects. *)
Fixpoint objects (l : list value) : option (list obj) :=
  match l with
  | [] => Some []
  | JObj o :: r => option_map (cons o) (objects r)
  | _ :: _ => None
  end.

Definition events_of (doc : obj) : option (list obj) :=
  match JS.get doc "events" with
  | JArr l => objects l
  | _ => None
  end.

(** ** The export script ([export-v2-artifacts.js]) *)

Module ExportScript.

(** The rows the six queries of [main] return; a row is an object. *)
Record database := {
  chains : list obj;
  allEvents : list obj;
  connections : list obj;
  projects : list obj;
  bindings : list obj;
  users : list obj
}.

(** [v.k] on a value that is neither [null] nor [undefined]: an object is
    looked up; primitives and arrays have none of the properties the script
    reads. *)
Definition prop (v : value) (k : string) : value :=
  match v with
  | JObj o => JS.get o k
  | _ => JUndefined
  end.

(** [v?.k] *)
Definition opt (v : value) (k : string) : value :=
  match v with
  | JUndefined | JNull => JUndefined
  | _ => prop v k
  end.

(** [a || b] *)
Definition or (a b : value) : value := if JS.truthy a then a else b.

(** [bindings.find(b => b.chain_id === id)] *)
Definition find_binding (bs : list obj) (id : value) : value :=
  match List.find (fun b => JS.strict_equal (JS.get b "chain_id") id) bs with
  | Some b => JObj b
  | None => JUndefined
  end.

(** [allEvents.filter(e => e.chain_id === chain.id)] *)
Definition rows_of (db : database) (chain : obj) : list obj :=
  filter (fun e => JS.strict_equal (JS.get e "chain_id") (JS.get chain "id")) (allEvents db).

(** One element of a chain artifact's [events]. *)
Definition exported_event (e : obj) : obj :=
  [("seq", JS.get e "seq"); ("event_type", JS.get e "event_type");
   ("sentiment", JS.get e "sentiment");
   ("is_liability_event", JS.get e "is_liability_event");
   ("payload", JS.get e "payload"); ("prev_hash", JS.get e "prev_hash");
   ("event_hash", JS.get e "event_hash");
   ("payload_canonical_hash", JS.get e "payload_canonical_hash");
   ("created_at", JS.get e "created_at")].

(** A chain artifact: the object, and its [events] array as the list of
    objects it holds. *)
Definition artifact := (obj * list obj)%type.

Definition chainArtifact (db : database) (chain : obj) : artifact :=
  let events := rows_of db chain in
  let binding := find_binding (bindings db) (JS.get chain "id") in
  let exported := map exported_event events in
  ([("id", JS.get chain "id"); ("chain_type", JS.get chain "chain_type");
    ("origin_type", JS.get chain "origin_type"); ("origin_id", JS.get chain "origin_id");
    ("status", JS.get chain "status"); ("event_count", JS.get chain "event_count");
    ("participant_ids", JS.get chain "participant_ids");
    ("platform", or (opt binding "platform") JNull);
    ("platform_account", or (opt binding "platform_account_name") JNull);
    ("binding_label", or (opt binding "label") JNull);
    ("events", JArr (map JObj exported));
    ("created_at", JS.get chain "created_at");
    ("updated_at", JS.get chain "updated_at")],
   exported).

(** [Array.prototype.reduce] without an initial value: the first element
    seeds the fold; on an empty array it throws a TypeError. *)
Definition reduce {A : Type} (f : A -> A -> A) (l : list A) : result A :=
  match l with
  | [] => Throw TypeError
  | x :: r => Ok (fold_left f r x)
  end.

(** [(a, b) => (a.events.length >= b.events.length ? a : b)] *)
Definition longer (a b : artifact) : artifact :=
  if (List.length (snd b) <=? List.length (snd a))%nat then a else b.

(** An entry of [integrityResults] as it is written. *)
Definition entry_json (r : Integrity.entry) : value :=
  JObj [("chain_id", Integrity.chain_id r); ("platform", Integrity.platform r);
        ("event_count", Integrity.event_count r);
        ("is_valid", JBool (Integrity.is_valid r));
        ("errors", JArr (map JStr (Integrity.errors r)))].

(** [integrityResults.every(r => r.is_valid)] *)
Definition all_valid (rs : list Integrity.entry) : bool := forallb Integrity.is_valid rs.

(** [summarizePayload(eventType, payload)] *)
Definition summarizePayload (eventType payload : value) : result value :=
  if negb (JS.truthy payload) then Ok JNull
  else if JS.strict_equal eventType (JStr "deploy_triggered") then
    do name <- JS.to_string (or (opt (prop payload "payload") "name") (JStr "deployment"));
    do branch <- JS.to_string (or (opt (opt (prop payload "payload") "meta") "gitBranch")
                               (JStr "unknown"));
    Ok (JStr ("Vercel: " ++ name ++ " on " ++ branch))
  else if JS.strict_equal eventType (JStr "build_succeeded") then
    do name <- JS.to_string (or (opt (prop payload "payload") "name") (JStr "build"));
    do branch <- JS.to_string (or (opt (opt (prop payload "payload") "meta") "gitBranch")
                               (JStr "unknown"));
    Ok (JStr ("Vercel: " ++ name ++ " ready (" ++ branch ++ ")"))
  else if JS.strict_equal eventType (JStr "instruction_received") then
    match or (prop payload "instruction_summary") (JStr "") with
    | JStr s => Ok (JStr ("HUMAN: " ++ String.substring 0 80 s ++ "..."))
    | _ => Throw TypeError
    end
  else if JS.strict_equal eventType (JStr "file_updated") then
    do name <- JS.to_string (or (opt (prop payload "payload") "file_name") (JStr "file"));
    Ok (JStr ("Figma: " ++ name ++ " updated"))
  else if JS.strict_equal eventType (JStr "version_published") then
    do name <- JS.to_string (or (opt (prop payload "payload") "file_name") (JStr "file"));
    Ok (JStr ("Figma: " ++ name ++ " version published"))
  else Ok eventType.

(** One element of [auditTrail]. *)
Definition audit_entry (db : database) (e : obj) : result value :=
  let binding := find_binding (bindings db) (JS.get e "chain_id") in
  do summary <- summarizePayload (JS.get e "event_type") (JS.get e "payload");
  Ok (JObj [("chain_id", JS.get e "chain_id");
            ("platform", or (opt binding "platform") JNull);
            ("seq", JS.get e "seq"); ("event_type", JS.get e "event_type");
            ("is_liability_event", JS.get e "is_liability_event");
            ("payload_summary", summary);
            ("event_hash", JS.get e "event_hash");
            ("created_at", JS.get e "created_at")]).

(** [[...new Set(l)]]: the first occurrence of each value, in order. *)
Fixpoint distinct (seen l : list value) : list value :=
  match l with
  | [] => []
  | x :: r =>
      if existsb (JS.strict_equal x) seen then distinct seen r
      else x :: distinct (x :: seen) r
  end.

Definition webhook_types : list value :=
  [JStr "deploy_triggered"; JStr "build_succeeded"; JStr "file_updated";
   JStr "version_published"].

Definition count {A : Type} (p : A -> bool) (l : list A) : value :=
  JNum (Z.of_nat (List.length (filter p l))).

(** The scenario title; its dash is the three UTF-8 bytes the file holds. *)
Definition scenario : string :=
  "CVE-2026-4821 "
  ++ String (ascii_of_nat 226) (String (ascii_of_nat 128) (String (ascii_of_nat 148) ""))
  ++ " Cross-platform incident response".

(** The object written to [demo-summary.json]. *)
Definition demo_summary (db : database) (chainArtifacts : list artifact)
    (integrityResults : list Integrity.entry) (verified_at completed_at : string) : value :=
  JObj
    [("demo_type", JStr "platform_activity_recording");
     ("version", JStr "v2");
     ("scenario", JStr scenario);
     ("companies",
      JArr (map (fun u => JObj [("display_name", JS.get u "display_name");
                                ("email", JS.get u "email")]) (users db)));
     ("connections",
      JArr (map (fun c => JObj [("platform", JS.get c "platform");
                                ("account_name", JS.get c "platform_account_name");
                                ("status", JS.get c "status");
                                ("has_webhook_secret",
                                 JBool (JS.truthy (JS.get c "webhook_secret")))])
                (connections db)));
     ("project",
      match projects db with
      | p :: _ => JObj [("title", JS.get p "title"); ("description", JS.get p "description")]
      | [] => JNull
      end);
     ("chains",
      JArr (map (fun c : artifact =>
                   JObj [("id", JS.get (fst c) "id"); ("platform", JS.get (fst c) "platform");
                         ("event_count", JS.get (fst c) "event_count");
                         ("status", JS.get (fst c) "status")])
                chainArtifacts));
     ("totals",
      JObj [("chains", JNum (Z.of_nat (List.length (chains db))));
            ("events", JNum (Z.of_nat (List.length (allEvents db))));
            ("liability_events",
             count (fun e => JS.truthy (JS.get e "is_liability_event")) (allEvents db));
            ("platforms",
             JArr (distinct [] (map (fun c => JS.get c "platform") (connections db))));
            ("webhook_verified_events",
             count (fun e => existsb (JS.strict_equal (JS.get e "event_type")) webhook_types)
                   (allEvents db))]);
     ("integrity",
      JObj [("all_chains_valid", JBool (all_valid integrityResults));
            ("verified_at", JStr verified_at)]);
     ("completed_at", JStr completed_at)].

(** The array written to [connections.json]. *)
Definition connections_json (db : database) : value :=
  JArr (map (fun c => JObj [("id", JS.get c "id"); ("platform", JS.get c "platform");
                            ("platform_account_id", JS.get c "platform_account_id");
                            ("platform_account_name", JS.get c "platform_account_name");
                            ("status", JS.get c "status");
                            ("has_webhook_secret",
                             JBool (JS.truthy (JS.get c "webhook_secret")));
                            ("scopes", JS.get c "scopes");
                            ("created_at", JS.get c "created_at")])
            (connections db)).

(** The object written to [project-bindings.json]. *)
Definition project_bindings_json (db : database) : value :=
  JObj [("project",
         match projects db with
         | p :: _ => JObj [("id", JS.get p "id"); ("title", JS.get p "title");
                           ("description", JS.get p "description");
                           ("tags", JS.get p "tags");
                           ("repo", JS.get p "github_repo_full_name")]
         | [] => JNull
         end);
        ("bindings",
         JArr (map (fun b => JObj [("platform", JS.get b "platform");
                                   ("account", JS.get b "platform_account_name");
                                   ("label", JS.get b "label");
                                   ("chain_id", JS.get b "chain_id");
                                   ("status", JS.get b "status")])
                   (bindings db)))].

(** [main()], on the rows the queries returned and the three times
    [new Date().toISOString()] is read.  The state threaded through is the
    list of [write(filename, data)] calls made, each with the data handed to
    [JSON.stringify]; the outcome is the exception that ended the run, if
    any ([main().catch] then exits with code 1). *)
Definition main (db : database) (t1 t2 t3 : string)
    : list (string * value) * option error :=
  let chainArtifacts := map (chainArtifact db) (chains db) in
  let w1 := ("execution-chains.json",
             JArr (map (fun a : artifact => JObj (fst a)) chainArtifacts)) in
  match reduce longer chainArtifacts with
  | Throw e => ([w1], Some e)
  | Ok primaryChain =>
      let w2 := ("execution-chain-primary.json", JObj (fst primaryChain)) in
      match Integrity.integrityResults chainArtifacts with
      | Throw e => ([w1; w2], Some e)
      | Ok integrityResults =>
          let w3 := ("chain-integrity.json",
                     JObj [("verified_at", JStr t1);
                           ("chains", JArr (map entry_json integrityResults));
                           ("all_valid", JBool (all_valid integrityResults))]) in
          match JS.map_result (audit_entry db) (allEvents db) with
          | Throw e => ([w1; w2; w3], Some e)
          | Ok auditTrail =>
              ([w1; w2; w3;
                ("audit-trail.json", JArr auditTrail);
                ("demo-summary.json",
                 demo_summary db chainArtifacts integrityResults t2 t3);
                ("connections.json", connections_json db);
                ("project-bindings.json", project_bindings_json db)],
               None)
          end
      end
  end.

End ExportScript.

(** ** The dashboard's event stream ([push]) *)

Module Stream.

(** An array index: the decimal text, without leading zeros, of an integer
    from 0 to 2^32 - 2.  An object enumerates such keys first, in ascending
    order, then its other keys in insertion order. *)
Definition array_index (k : string) : option Z :=
  match k with
  | EmptyString => None
  | String c r =>
      if all_chars is_digit k
         && (negb (Nat.eqb (nat_of_ascii c) 48) || String.eqb r "")
         && (read_digits k 0 <=? 4294967294)
      then Some (read_digits k 0)
      else None
  end.

Fixpoint insert_index (k : string) (n : Z) (l : list (string * Z)) : list (string * Z) :=
  match l with
  | [] => [(k, n)]
  | (k', n') :: r => if n <=? n' then (k, n) :: l else (k', n') :: insert_index k n r
  end.

Fixpoint index_keys (keys : list string) : list (string * Z) :=
  match keys with
  | [] => []
  | k :: r =>
      match array_index k with
      | Some n => insert_index k n (index_keys r)
      | None => index_keys r
      end
  end.

(** [Object.keys(o)] in the order every enumeration of [o] follows. *)
Definition own_keys (keys : list string) : list string :=
  map fst (index_keys keys)
  ++ filter (fun k => match array_index k with Some _ => false | None => true end) keys.

(** The members of an object whose property values are already rendered:
    a property whose value renders to [undefined] is left out. *)
Definition members (rendered : list (string * option string)) : list string :=
  flat_map (fun k => match JS.lookup k rendered with
                     | Some (Some s) => [JS.quote k ++ ":" ++ s]
                     | _ => []
                     end)
           (own_keys (JS.keys rendered)).

(** [JSON.stringify(v)]; [None] is the [undefined] it returns for
    [undefined].  In an array [undefined] prints as [null]. *)
Fixpoint JSON_stringify (v : value) : option string :=
  match v with
  | JArr items =>
      Some ("[" ++ JS.join ","
                     (map (fun x => match JSON_stringify x with
                                    | Some s => s
                                    | None => "null"
                                    end) items)
                ++ "]")
  | JObj fields =>
      Some ("{" ++ JS.join ","
                     (members (map (fun kv => let '(k, x) := kv in (k, JSON_stringify x))
                                   fields))
                ++ "}")
  | _ => JS.JSON_stringify_primitive v
  end.

(** The message [push(data)] builds:
    [`data: ${JSON.stringify(data)}\n\n`]. *)
Definition message (data : value) : string :=
  "data: " ++ JS.operand (JSON_stringify data) ++ Verifier.newline ++ Verifier.newline.

(** [push(data)]: every connected client is written the message; the
    result lists the writes. *)
Definition push {client : Type} (sseClients : list client) (data : value)
    : list (client * string) :=
  map (fun r => (r, message data)) sseClients.

End Stream.

(** ** Documents written with [JSON.stringify] and read with [JSON.parse] *)

Module Document.

(** The properties [JSON.parse] finds in the text [JSON.stringify] wrote
    for an object, given the object's properties with their values already
    read back: a property whose value is [undefined] was not written, and
    the others come in the order in which the object enumerates its keys. *)
Definition kept (fields : obj) : obj :=
  flat_map (fun k => match JS.lookup k fields with
                     | Some JUndefined | None => []
                     | Some x => [(k, x)]
                     end)
           (Stream.own_keys (JS.keys fields)).

(** [JSON.parse(JSON.stringify(v, null, 2))]: what the reader of a written
    file gets for [v].  In an array [undefined] was written as [null];
    numbers and strings come back as they are. *)
Fixpoint read_back (v : value) : value :=
  match v with
  | JArr items =>
      JArr (map (fun x => match x with
                          | JUndefined => JNull
                          | _ => read_back x
                          end) items)
  | JObj fields => JObj (kept (map (fun kv => let '(k, x) := kv in (k, read_back x)) fields))
  | _ => v
  end.

(** The same for the object at the top of a document. *)
Definition read_back_object (o : obj) : obj :=
  kept (map (fun kv => let '(k, x) := kv in (k, read_back x)) o).

End Document.

(** * Notions used in the statements *)

(** ** Canonical serialization *)

(** The order [sort] puts keys in. *)
Definition key_le (a b : string) : Prop := String.leb a b = true.

(** No string occurs twice. *)
Fixpoint nodupb (l : list string) : bool :=
  match l with
  | [] => true
  | x :: r => negb (existsb (String.eqb x) r) && nodupb r
  end.

(** A JavaScript object holds each key once, at every depth. *)
Fixpoint well_formed (v : value) : bool :=
  match v with
  | JArr items => forallb well_formed items
  | JObj fields =>
      nodupb (JS.keys fields)
      && forallb (fun kv => let '(_, x) := kv in well_formed x) fields
  | _ => true
  end.

(** [reordered v v']: [v'] is [v] with the properties of its objects, at any
    depth, inserted in another order; arrays keep their order. *)
Inductive reordered : value -> value -> Prop :=
| ro_same v : reordered v v
| ro_arr l l' : Forall2 reordered l l' -> reordered (JArr l) (JArr l')
| ro_obj fs fs1 fs' :
    Permutation fs fs1 ->
    Forall2 (fun a b => fst a = fst b /\ reordered (snd a) (snd b)) fs1 fs' ->
    reordered (JObj fs) (JObj fs').

(** The properties of an object with their values serialized. *)
Definition render (fs : obj) : list (string * string) :=
  map (fun kv => let '(k, x) := kv in (k, JS.operand (canonicalize x))) fs.

(** ** The hash chain *)

(** [prev] as [append] computes it. *)
Definition previous_hash (es : list obj) : value :=
  match es with
  | [] => JStr GENESIS
  | _ => JS.get (last es []) "event_hash"
  end.

(** The event [append] builds, given what it read from the chain. *)
Definition event_of (seq : nat) (now : string) (type agent org payload prev : value)
    (authorization ownerId : value) : obj :=
  ([("sequence", JNum (Z.of_nat seq)); ("event_type", type); ("agent_name", agent);
    ("organization", org); ("timestamp", JStr now); ("payload", payload);
    ("event_hash",
     JStr (sha256 (canonicalize_object
                     (Chain.hashed_record seq type agent now payload prev))));
    ("prev_hash", prev)]
   ++ (if JS.truthy authorization
       then [("authorization_event", JBool true);
             ("owner_user_id", if JS.truthy ownerId then ownerId else JStr "owner-1")]
       else []))%list.

(** The linkage invariant of an event list: the first event points at the
    genesis hash, every later one at the hash stored in its predecessor. *)
Definition linked (es : list obj) : Prop :=
  forall i e, nth_error es i = Some e ->
    JS.get e "prev_hash"
    = match i with
      | O => JStr GENESIS
      | S j => match nth_error es j with
               | Some q => JS.get q "event_hash"
               | None => JUndefined
               end
      end.

(** The event hash as the specification words it: the digest of the
    canonical serialization of all of the event's fields except
    [event_hash]. *)
Definition spec_event_hash (ev : obj) : string :=
  sha256 (canonicalize_object (JS.without "event_hash" ev)).

(** The event hash recomputed from an event's stored fields, as [append]
    computed it. *)
Definition recomputed_event_hash (ev : obj) : string :=
  sha256 (canonicalize_object
            [("seq", JS.get ev "sequence"); ("event_type", JS.get ev "event_type");
             ("agent_name", JS.get ev "agent_name"); ("timestamp", JS.get ev "timestamp");
             ("payload", JS.get ev "payload"); ("prev_hash", JS.get ev "prev_hash")]).

(** ** Certificates *)

(** What the specification asks of [verify]: the signature validates over
    the canonical serialization of the certificate's fields without
    [signature] and [public_key], under the public key embedded in the
    certificate. *)
Definition spec_validates_with_embedded_key (cert : obj) : bool :=
  match Buffer_from_hex (JS.get cert "public_key"),
        Buffer_from_hex (JS.get cert "signature") with
  | Decoded der, Decoded sig =>
      match Verifier.createPublicKey der with
      | Some key =>
          crypto_verify (Bytes.utf8 (canonicalize_object (CertIssuer.rest_of cert))) key sig
      | None => false
      end
  | _, _ => false
  end.

(** ** Chain-integrity verification *)

(** Each event next to the hash it is expected to point at: the hash stored
    in the event before it, [first] for the first event. *)
Definition expectations (first : value) (es : list obj) : list (value * obj) :=
  combine (first :: map (fun e => JS.get e "event_hash") es) es.

(** The event points at the hash it is paired with. *)
Definition link_ok (x : value * obj) : bool :=
  JS.strict_equal (JS.get (snd x) "prev_hash") (fst x).

(** The events whose link is broken, in order. *)
Definition broken_links (first : value) (es : list obj) : list obj :=
  map snd (filter (fun x => negb (link_ok x)) (expectations first es)).

(** The message the export script pushes for an event; building it throws
    when the event's [seq] cannot be converted to a string. *)
Definition mismatch_message (e : obj) : result string :=
  do seq <- JS.to_string (JS.get e "seq");
  Ok ("Event seq=" ++ seq ++ ": prev_hash mismatch").

(** What the export script is to report for a chain and its events: a
    message for every broken link, all of them, and the chain valid exactly
    when no link is broken. *)
Definition report (chain : obj) (es : list obj) : result Integrity.entry :=
  do errors <- JS.map_result mismatch_message (broken_links (JStr GENESIS) es);
  Ok (Integrity.mk (JS.get chain "id") (JS.get chain "platform")
                   (JS.get chain "event_count")
                   (forallb link_ok (expectations (JStr GENESIS) es)) errors).

(** Events that agree on the three properties the check reads. *)
Definition same_links (e e' : obj) : Prop :=
  JS.get e "prev_hash" = JS.get e' "prev_hash"
  /\ JS.get e "event_hash" = JS.get e' "event_hash"
  /\ JS.get e "seq" = JS.get e' "seq".

(** The hash the generated verifier expects after [previous]. *)
Definition expected_after (previous : option obj) : value :=
  match previous with
  | None => JStr GENESIS
  | Some q => JS.get q "event_hash"
  end.

(** ** Bytes and digests *)

(** A byte. *)
Definition is_byte (x : Z) : Prop := 0 <= x < 256.

(** A lowercase hexadecimal digit. *)
Definition lower_hex (c : ascii) : bool :=
  let n := nat_of_ascii c in
  ((48 <=? n) && (n <=? 57) || (97 <=? n) && (n <=? 102))%nat.

(** A string of 64 lowercase hexadecimal digits. *)
Definition hex64 (v : value) : bool :=
  match v with
  | JStr s => Nat.eqb (String.length s) 64 && all_chars lower_hex s
  | _ => false
  end.

(** ** Calls of a driver *)

(** The calls that add an event: every [append] but one given [null] for
    its options, which throws. *)
Definition appends_event (o : op) : bool :=
  match o with
  | Append _ _ _ _ _ JNull => false
  | Append _ _ _ _ _ _ => true
  | Resolve => false
  end.

(** ** The export *)

(** The columns of a connection row that the export copies. *)
Definition exported_columns : list string :=
  ["id"; "platform"; "platform_account_id"; "platform_account_name"; "status"; "scopes";
   "created_at"].

(** Connection rows that agree on the copied columns and on whether they
    hold a webhook secret. *)
Definition same_exported_connection (c c' : obj) : Prop :=
  Forall (fun k => JS.get c k = JS.get c' k) exported_columns
  /\ JS.truthy (JS.get c "webhook_secret") = JS.truthy (JS.get c' "webhook_secret").

(** A database with its connection rows replaced. *)
Definition with_connections (db : ExportScript.database) (cs : list obj)
    : ExportScript.database :=
  {| ExportScript.chains := ExportScript.chains db;
     ExportScript.allEvents := ExportScript.allEvents db;
     ExportScript.connections := cs;
     ExportScript.projects := ExportScript.projects db;
     ExportScript.bindings := ExportScript.bindings db;
     ExportScript.users := ExportScript.users db |}.

(** The files of a complete export, in the order they are written. *)
Definition export_file_names : list string :=
  ["execution-chains.json"; "execution-chain-primary.json"; "chain-integrity.json";
   "audit-trail.json"; "demo-summary.json"; "connections.json"; "project-bindings.json"].

(** ** Reading a canonical text back *)

(** No [undefined] at any depth. *)
Fixpoint defined (v : value) : bool :=
  match v with
  | JUndefined => false
  | JArr items => forallb defined items
  | JObj fields => forallb (fun kv => let '(_, x) := kv in defined x) fields
  | _ => true
  end.

(** The text [canonicalize] returns, the empty text for [undefined]. *)
Definition ctext (v : value) : string := JS.element (canonicalize v).

(** What may follow a serialized value: nothing, or a character that is not
    a digit. *)
Definition delimited (r : string) : bool :=
  match r with
  | EmptyString => true
  | String c _ => negb (is_digit c)
  end.

(** The first character of a text tells what kind of value it serializes. *)
Inductive kind := KNull | KBool | KNum | KStr | KArr | KObj | KOther.

Definition kind_of_char (c : ascii) : kind :=
  let n := nat_of_ascii c in
  if Nat.eqb n 110 then KNull
  else if Nat.eqb n 116 || Nat.eqb n 102 then KBool
  else if Nat.eqb n 45 || is_digit c then KNum
  else if Nat.eqb n 34 then KStr
  else if Nat.eqb n 91 then KArr
  else if Nat.eqb n 123 then KObj
  else KOther.

Definition kind_of_text (s : string) : kind :=
  match s with
  | EmptyString => KOther
  | String c _ => kind_of_char c
  end.

Definition kind_of_value (v : value) : kind :=
  match v with
  | JUndefined => KOther
  | JNull => KNull
  | JBool _ => KBool
  | JNum _ => KNum
  | JStr _ => KStr
  | JArr _ => KArr
  | JObj _ => KObj
  end.

(** The longest prefix of digits, and what follows it. *)
Fixpoint span_digits (s : string) : string * string :=
  match s with
  | EmptyString => ("", "")
  | String c r =>
      if is_digit c then let '(d, rest) := span_digits r in (String c d, rest)
      else ("", s)
  end.

Fixpoint prefixb (a b : string) : bool :=
  match a, b with
  | EmptyString, _ => true
  | String x a', String y b' => Ascii.eqb x y && prefixb a' b'
  | String _ _, EmptyString => false
  end.

Definition all_ascii : list ascii := map ascii_of_nat (seq 0 256).

(** The character of a digit, and the digits of a number that is not
    negative, as [Number_toString] writes them. *)
Definition digit_char (d : Z) : ascii := ascii_of_nat (Z.to_nat (48 + d)).

Definition decimal (n : Z) : string := JS.digits (S (Z.to_nat (Z.log2 n))) n "".

(** A character [JSON.stringify] leaves as it is. *)
Definition plain (c : ascii) : bool :=
  match JS.escape c with
  | String x EmptyString =>
      Ascii.eqb x c && negb (Nat.eqb (nat_of_ascii c) 92) && negb (Nat.eqb (nat_of_ascii c) 34)
  | _ => false
  end.

(** The characters it escapes; their escapes start with a backslash. *)
Definition escaped_chars : list ascii := filter (fun c => negb (plain c)) all_ascii.

Definition starts_with_backslash (s : string) : bool :=
  match s with
  | String x _ => Nat.eqb (nat_of_ascii x) 92
  | EmptyString => false
  end.

(** What follows the first part of a sequence: each further part after a
    comma, then the closing character and the rest of the text. *)
Fixpoint tail_text (close : ascii) (parts : list string) (r : string) : string :=
  match parts with
  | [] => String close r
  | p :: ps => "," ++ p ++ tail_text close ps r
  end.

Definition sequence_text (close : ascii) (parts : list string) (r : string) : string :=
  match parts with
  | [] => String close r
  | p :: ps => p ++ tail_text close ps r
  end.

(** A value whose serialization, followed by any delimited text, can be
    read back in one way only. *)
Definition uniquely_readable (v : value) : Prop :=
  forall v' r r',
    well_formed v = true -> defined v = true ->
    well_formed v' = true -> defined v' = true ->
    delimited r = true -> delimited r' = true ->
    ctext v ++ r = ctext v' ++ r' ->
    reordered v v' /\ r = r'.

(** [Number.MAX_SAFE_INTEGER], 2^53 - 1. *)
Definition MAX_SAFE_INTEGER : Z := 9007199254740991.

(** Every number, at any depth, is a safe integer ([Number.isSafeInteger]):
    an integer that a JavaScript number holds exactly and that prints in
    plain decimal. *)
Fixpoint safe_integers (v : value) : bool :=
  match v with
  | JNum n => (- MAX_SAFE_INTEGER <=? n) && (n <=? MAX_SAFE_INTEGER)
  | JArr items => forallb safe_integers items
  | JObj fields => forallb (fun kv => let '(_, x) := kv in safe_integers x) fields
  | _ => true
  end.

(** A value as [JSON.parse] yields it, with safe integers for numbers: no
    [undefined], no key twice. *)
Definition json (v : value) : bool := well_formed v && defined v && safe_integers v.

(** ** The event stream *)

(** A character that ends no line: not a control character. *)
Definition printable (c : ascii) : bool := (32 <=? nat_of_ascii c)%nat.

(** * Concrete artifacts *)

(** A document and the same document with its keys inserted in another
    order at both levels. *)
Definition sample_document : value :=
  JObj [("b", JNum 1);
        ("a", JObj [("y", JNull); ("x", JArr [JBool true; JStr "z"])])].

Definition sample_document_reordered : value :=
  JObj [("a", JObj [("x", JArr [JBool true; JStr "z"]); ("y", JNull)]);
        ("b", JNum 1)].

(** ** A run of the demo: three events, resolve, issue *)

Definition sample_time : string := "2026-01-01T00:00:00.000Z".

(** A chain id that is an object with an array-index key: the object
    enumerates, and is written and read back, with that key first. *)
Definition indexed_chain_id : value := JObj [("b", JNum 1); ("7", JStr "x")].

Definition demo_ops : list op :=
  [Append "2026-01-01T00:00:00.000Z" (JStr "created") (JStr "agent-a") (JStr "Org")
          (JObj []) JUndefined;
   Append "2026-01-01T00:00:01.000Z" (JStr "updated") (JStr "agent-a") (JStr "Org")
          (JObj [("x", JNum 1)]) JUndefined;
   Append "2026-01-01T00:00:02.000Z" (JStr "updated") (JStr "owner") (JStr "Org")
          (JObj [("y", JNum 2)])
          (JObj [("authorization", JBool true); ("ownerId", JStr "owner-ciso-1")]);
   Resolve].

Definition demo_chain : Chain.t := run (JStr "demo") demo_ops.

Definition demo_event_1 : obj :=
  [("sequence", JNum 1); ("event_type", JStr "created"); ("agent_name", JStr "agent-a");
   ("organization", JStr "Org"); ("timestamp", JStr "2026-01-01T00:00:00.000Z");
   ("payload", JObj []);
   ("event_hash", JStr "9b137a1e887dbe254da8a907c00eec7cf89d5ba5bb2a3c4586e7187b4fd4c26b");
   ("prev_hash", JStr "0000000000000000000000000000000000000000000000000000000000000000")].

Definition demo_event_2 : obj :=
  [("sequence", JNum 2); ("event_type", JStr "updated"); ("agent_name", JStr "agent-a");
   ("organization", JStr "Org"); ("timestamp", JStr "2026-01-01T00:00:01.000Z");
   ("payload", JObj [("x", JNum 1)]);
   ("event_hash", JStr "404881d1976d36c9ee93538842b900ca05f93fef09dc2ea2b3a6bf09ef16f6cb");
   ("prev_hash", JStr "9b137a1e887dbe254da8a907c00eec7cf89d5ba5bb2a3c4586e7187b4fd4c26b")].

Definition demo_event_3 : obj :=
  [("sequence", JNum 3); ("event_type", JStr "updated"); ("agent_name", JStr "owner");
   ("organization", JStr "Org"); ("timestamp", JStr "2026-01-01T00:00:02.000Z");
   ("payload", JObj [("y", JNum 2)]);
   ("event_hash", JStr "706ea93fc34961fc421e48033aa8f77fe68b4b969c0c07396bbdf8e1db730eb9");
   ("prev_hash", JStr "404881d1976d36c9ee93538842b900ca05f93fef09dc2ea2b3a6bf09ef16f6cb");
   ("authorization_event", JBool true); ("owner_user_id", JStr "owner-ciso-1")].

Definition demo_events : list obj := [demo_event_1; demo_event_2; demo_event_3].

(** The demo chain as stored after event 2's payload was overwritten. *)
Definition tampered_event_2 : obj :=
  Eval vm_compute in JS.set "payload" (JObj [("x", JNum 99)]) demo_event_2.

Definition tampered_events : list obj := [demo_event_1; tampered_event_2; demo_event_3].

(** Two issuers, as their constructor leaves them; their seeds are the
    private keys of RFC 8032's tests 1 and 2. *)
Definition demo_seed : Bytes.buffer :=
  Eval vm_compute in
    Bytes.from_hex "9d61b19deffd5a60ba844af492ec2cc44449c5697b326919703bac031cae7f60".

Definition other_seed : Bytes.buffer :=
  Eval vm_compute in
    Bytes.from_hex "4ccd089b28ff96da9db6c346ec114e0f5b8a319f35aba624da8cf6ed4fb8a6fb".

Definition demo_issuer : CertIssuer.t := Eval vm_compute in CertIssuer.new demo_seed.

Definition other_issuer : CertIssuer.t := Eval vm_compute in CertIssuer.new other_seed.

Definition demo_public_key : string :=
  "302a300506032b6570032100d75a980182b10ab7d54bfed3c964073a0ee172f3daa62325af021a68f707511a".

Definition other_public_key : string :=
  "302a300506032b65700321003d4017c3e843895a92b70aa74d1b7ebc9c982ccf2ec4968cc0cd55f12af4660c".

Definition certificate_fields (chain_hash : value) (event_count : Z) : obj :=
  [("version", JStr "1.0"); ("chain_id", JStr "demo"); ("chain_hash", chain_hash);
   ("event_count", JNum event_count); ("issued_at", JStr "2026-01-01T00:00:03.000Z");
   ("issuer", JStr "OpenExecution Sovereign"); ("algorithm", JStr "Ed25519")].

Definition demo_chain_hash : value :=
  JStr "ed3deea85d1724924c84a82bcc6c54d4a94ab1c327ff739aa1fb0b137e54b3b7".

Definition demo_signature : string :=
  Eval vm_compute in
    "802c7c4b2685765c3ba7eb989fe04f6219cc74c5ce3592e540664c7ef877064b"
    ++ "2c4441064cd9aea3da6bc1dbc7098ff40a524ebebec3985edd8f58cada4dc50f".

(** The certificate the demo issuer issues for the resolved demo chain. *)
Definition demo_certificate : obj :=
  Eval vm_compute in
  (certificate_fields demo_chain_hash 3
   ++ [("signature", JStr demo_signature); ("public_key", JStr demo_public_key)])%list.

(** The certificate the other issuer issues for the same chain. *)
Definition other_certificate : obj :=
  Eval vm_compute in
  (certificate_fields demo_chain_hash 3
   ++ [("signature",
        JStr ("1e492e9db7b55810ea2220b17e4c3b091c10c604aeb5dd293622a04a094b534c"
              ++ "73926f4ba273169bf6e6dc86debde62cef7f6c1d742361a6d956b3edd72cdc00"));
       ("public_key", JStr other_public_key)])%list.

(** The certificate the demo issuer issues for a chain never resolved. *)
Definition unresolved_certificate : obj :=
  Eval vm_compute in
  (certificate_fields JNull 0
   ++ [("signature",
        JStr ("98cc056de3409d4ad39297149a26ce06a2e0d65af955d9da90fde6e112e26376"
              ++ "7029ae7a11e4bbeb920e4069b0ab5ffc48a0ceded61b014a5291afbe9d2f1f0d"));
       ("public_key", JStr demo_public_key)])%list.

(** [public-key.json] as the demo writes it. *)
Definition demo_public_key_info : obj :=
  [("algorithm", JStr "Ed25519"); ("public_key", JStr demo_public_key);
   ("format", JStr "DER (SPKI)")].

(** The bytes of the demo certificate's signature. *)
Definition demo_signature_bytes : Bytes.buffer :=
  Eval vm_compute in Bytes.from_hex demo_signature.

(** ** A small database for the export *)

(** One chain with two linked events, one connection, one binding. *)
Definition sample_database : ExportScript.database :=
  {| ExportScript.chains := [[("id", JStr "c1"); ("status", JStr "active");
                              ("event_count", JNum 2)]];
     ExportScript.allEvents :=
       [[("chain_id", JStr "c1"); ("seq", JNum 1); ("event_type", JStr "instruction_received");
         ("payload", JObj [("instruction_summary", JStr "Rotate the key")]);
         ("prev_hash", JStr "0000000000000000000000000000000000000000000000000000000000000000");
         ("event_hash", JStr "aa")];
        [("chain_id", JStr "c1"); ("seq", JNum 2); ("event_type", JStr "file_updated");
         ("payload", JObj [("payload", JObj [("file_name", JStr "Logo")])]);
         ("prev_hash", JStr "aa"); ("event_hash", JStr "bb")]];
     ExportScript.connections :=
       [[("id", JStr "k1"); ("platform", JStr "figma"); ("status", JStr "active");
         ("webhook_secret", JStr "whsec_1")]];
     ExportScript.projects := [];
     ExportScript.bindings := [[("chain_id", JStr "c1"); ("platform", JStr "figma")]];
     ExportScript.users := [] |}.

(** The same chain with one event whose instruction summary is stored as a
    number. *)
Definition sample_database_numeric_summary : ExportScript.database :=
  {| ExportScript.chains := ExportScript.chains sample_database;
     ExportScript.allEvents :=
       [[("chain_id", JStr "c1"); ("seq", JNum 1); ("event_type", JStr "instruction_received");
         ("payload", JObj [("instruction_summary", JNum 5)]);
         ("prev_hash", JStr "0000000000000000000000000000000000000000000000000000000000000000");
         ("event_hash", JStr "aa")]];
     ExportScript.connections := [];
     ExportScript.projects := [];
     ExportScript.bindings := [];
     ExportScript.users := [] |}.

(** Digests and signatures are left to the virtual machine: [simpl] does not
    unfold them. *)
Arguments sha256 : simpl never.
Arguments canonicalize_object : simpl never.
Arguments Chain.hashed_record : simpl never.
Arguments GENESIS : simpl never.
Arguments crypto_sign : simpl never.
Arguments crypto_verify : simpl never.

(** * Properties *)

(** ** The primitives against their standards *)

(** The digests of FIPS 180-4's one-block message, of the two-block one and
    of the empty message. *)
Example sha256_abc :
  Bytes.to_hex (SHA2.sha256_bytes (Bytes.utf8 "abc"))
  = "ba7816bf8f01cfea414140de5dae2223b00361a396177a9cb410ff61f20015ad".
Proof. by_evaluation. Qed.

Example sha256_two_blocks :
  Bytes.to_hex (SHA2.sha256_bytes
    (Bytes.utf8 "abcdbcdecdefdefgefghfghighijhijkijkljklmklmnlmnomnopnopq"))
  = "248d6a61d20638b8e5c026930c3e6039a33ce45964ff2167f6ecedd419db06c1".
Proof. by_evaluation. Qed.

Example sha256_empty :
  Bytes.to_hex (SHA2.sha256_bytes [])
  = "e3b0c44298fc1c149afbf4c8996fb92427ae41e4649b934ca495991b7852b855".
Proof. by_evaluation. Qed.

Example sha512_abc :
  Bytes.to_hex (SHA2.sha512_bytes (Bytes.utf8 "abc"))
  = "ddaf35a193617abacc417349ae20413112e6fa4e89a97ea20a9eeee64b55d39a2192992a274fc1a836ba3c23a3feebbd454d4423643ce80e2a9ac94fa54ca49f".
Proof. by_evaluation. Qed.

(** RFC 8032, section 7.1, tests 1 and 2. *)
Example ed25519_rfc8032_test1 :
  let seed := Bytes.from_hex "9d61b19deffd5a60ba844af492ec2cc44449c5697b326919703bac031cae7f60" in
  let pub := "d75a980182b10ab7d54bfed3c964073a0ee172f3daa62325af021a68f707511a" in
  let sig :=
    "e5564300c360ac729086e2cc806e828a84877f1eb8e5d974d873e065224901555fb8821590a33bacc61e39701cf9b46bd25bf5f0595bbe24655141438e7a100b" in
  Bytes.to_hex (Ed25519.public_of_seed seed) = pub
  /\ Bytes.to_hex (Ed25519.sign seed []) = sig
  /\ Ed25519.verify (Bytes.from_hex pub) [] (Bytes.from_hex sig) = true.
Proof. cbv zeta. split; [ | split ]; by_evaluation. Qed.

Example ed25519_rfc8032_test2 :
  let seed := Bytes.from_hex "4ccd089b28ff96da9db6c346ec114e0f5b8a319f35aba624da8cf6ed4fb8a6fb" in
  let pub := "3d4017c3e843895a92b70aa74d1b7ebc9c982ccf2ec4968cc0cd55f12af4660c" in
  let sig :=
    "92a009a9f0d4cab8720e820b5f642540a2b27b5416503f8fb3762223ebdb69da085ac1e43e15996e458f3613d0f11d8c387b2eaeb4302aeeb00d291612bb0c00" in
  Bytes.to_hex (Ed25519.public_of_seed seed) = pub
  /\ Bytes.to_hex (Ed25519.sign seed [114]) = sig
  /\ Ed25519.verify (Bytes.from_hex pub) [114] (Bytes.from_hex sig) = true
  /\ Ed25519.verify (Bytes.from_hex pub) [115] (Bytes.from_hex sig) = false.
Proof. cbv zeta. split; [ | split; [ | split ] ]; by_evaluation. Qed.

(** ** Sorting keys *)

Module SortFacts.

Lemma leb_trans (a b c : string) :
  String.leb a b = true -> String.leb b c = true -> String.leb a c = true.
Proof.
  unfold String.leb. revert b c.
  induction a as [|x a IH]; intros [|y b] [|z c]; simpl; try congruence.
  unfold Ascii.compare.
  destruct (N.compare_spec (N_of_ascii x) (N_of_ascii y)) as [Exy|Lxy|Gxy];
    destruct (N.compare_spec (N_of_ascii y) (N_of_ascii z)) as [Eyz|Lyz|Gyz];
    destruct (N.compare_spec (N_of_ascii x) (N_of_ascii z)) as [Exz|Lxz|Gxz];
    try congruence; try lia.
  apply IH.
Qed.

Lemma insert_perm (k : string) (l : list string) :
  Permutation (k :: l) (JS.insert k l).
Proof.
  induction l as [|x l IH]; simpl.
  - apply Permutation_refl.
  - destruct (String.leb k x).
    + apply Permutation_refl.
    + eapply perm_trans; [apply perm_swap|]. apply perm_skip, IH.
Qed.

Lemma sort_perm (l : list string) : Permutation l (JS.sort l).
Proof.
  induction l as [|x l IH]; simpl.
  - apply perm_nil.
  - eapply perm_trans; [apply perm_skip, IH|]. apply insert_perm.
Qed.

Lemma insert_sorted (k : string) (l : list string) :
  StronglySorted key_le l -> StronglySorted key_le (JS.insert k l).
Proof.
  induction 1 as [|x l Hs IH Hx]; simpl.
  - repeat constructor.
  - destruct (String.leb k x) eqn:E.
    + constructor; [constructor; assumption|].
      constructor; [exact E|].
      eapply Forall_impl; [|exact Hx].
      intros y Hy. eapply leb_trans; eassumption.
    + constructor; [exact IH|].
      eapply Permutation_Forall; [apply insert_perm|].
      constructor; [|exact Hx].
      destruct (String.leb_total k x) as [H|H]; [congruence|exact H].
Qed.

Lemma sort_sorted (l : list string) : StronglySorted key_le (JS.sort l).
Proof.
  induction l as [|x l IH]; simpl.
  - constructor.
  - apply insert_sorted, IH.
Qed.

(** Two sorted lists with the same elements are the same list. *)
Lemma sorted_unique (l1 l2 : list string) :
  StronglySorted key_le l1 -> StronglySorted key_le l2 -> Permutation l1 l2 -> l1 = l2.
Proof.
  intros H1. revert l2.
  induction H1 as [|a l1 Hs1 IH Ha]; intros l2 H2 HP.
  - apply Permutation_nil in HP. now subst.
  - destruct H2 as [|b l2 Hs2 Hb].
    + apply Permutation_sym, Permutation_nil in HP. discriminate.
    + assert (a = b) as ->.
      { assert (In a (b :: l2)) as Hin1
          by (eapply Permutation_in; [exact HP|now left]).
        assert (In b (a :: l1)) as Hin2
          by (eapply Permutation_in; [apply Permutation_sym, HP|now left]).
        destruct Hin1 as [->|Hin1]; [reflexivity|].
        destruct Hin2 as [->|Hin2]; [reflexivity|].
        apply String.leb_antisym.
        - rewrite Forall_forall in Ha. apply Ha, Hin2.
        - rewrite Forall_forall in Hb. apply Hb, Hin1. }
      f_equal. apply IH; [exact Hs2|].
      eapply Permutation_cons_inv, HP.
Qed.

Lemma sort_permutation_invariant (l1 l2 : list string) :
  Permutation l1 l2 -> JS.sort l1 = JS.sort l2.
Proof.
  intros HP. apply sorted_unique; try apply sort_sorted.
  eapply perm_trans; [apply Permutation_sym, sort_perm|].
  eapply perm_trans; [exact HP|apply sort_perm].
Qed.

End SortFacts.

(** ** Canonical serialization *)

Module CanonFacts.

Lemma value_induction (P : value -> Prop) :
  P JUndefined -> P JNull -> (forall b, P (JBool b)) -> (forall n, P (JNum n)) ->
  (forall s, P (JStr s)) ->
  (forall l, Forall P l -> P (JArr l)) ->
  (forall fs, Forall (fun kv => P (snd kv)) fs -> P (JObj fs)) ->
  forall v, P v.
Proof.
  intros Hu Hn Hb Hz Hs Ha Ho.
  fix IH 1.
  intros [ | | b | n | s | l | fs];
    [exact Hu | exact Hn | apply Hb | apply Hz | apply Hs | | ].
  - apply Ha. induction l as [|x l IHl]; constructor; [apply IH|exact IHl].
  - apply Ho. induction fs as [|[k x] fs IHfs]; constructor; [apply IH|exact IHfs].
Qed.

Lemma nodupb_NoDup (l : list string) : nodupb l = true -> NoDup l.
Proof.
  induction l as [|x l IH]; simpl; intros H; constructor;
    apply andb_true_iff in H as [Hx Hl]; [|auto].
  intros Hin. apply negb_true_iff in Hx.
  assert (existsb (String.eqb x) l = true) as E
    by (apply existsb_exists; exists x; split; [exact Hin|apply String.eqb_refl]).
  congruence.
Qed.

Lemma lookup_in {A : Type} (k : string) (fs : list (string * A)) (x : A) :
  NoDup (JS.keys fs) -> In (k, x) fs -> JS.lookup k fs = Some x.
Proof.
  induction fs as [|[k' y] fs IH]; simpl; intros ND Hin; [contradiction|].
  inversion ND as [|? ? Hnotin ND']; subst.
  destruct Hin as [E|Hin].
  - inversion E; subst. now rewrite String.eqb_refl.
  - destruct (String.eqb_spec k k') as [->|_].
    + exfalso. apply Hnotin. apply (in_map fst) in Hin. exact Hin.
    + apply IH; assumption.
Qed.

Lemma lookup_none {A : Type} (k : string) (fs : list (string * A)) :
  ~ In k (JS.keys fs) -> JS.lookup k fs = None.
Proof.
  induction fs as [|[k' y] fs IH]; simpl; intros Hn; [reflexivity|].
  destruct (String.eqb_spec k k') as [->|_]; [exfalso; apply Hn; now left|].
  apply IH. intros H. apply Hn. now right.
Qed.

Lemma lookup_some_in {A : Type} (k : string) (fs : list (string * A)) (x : A) :
  JS.lookup k fs = Some x -> In (k, x) fs.
Proof.
  induction fs as [|[k' y] fs IH]; simpl; [discriminate|].
  destruct (String.eqb_spec k k') as [->|_].
  - intros [= ->]. now left.
  - intros H. right. apply IH, H.
Qed.

(** With unique keys, what a key maps to does not depend on the order in
    which the properties were inserted. *)
Lemma lookup_perm {A : Type} (k : string) (fs fs' : list (string * A)) :
  NoDup (JS.keys fs) -> Permutation fs fs' -> JS.lookup k fs = JS.lookup k fs'.
Proof.
  intros ND HP.
  assert (NoDup (JS.keys fs')) as ND'
    by (eapply Permutation_NoDup; [apply Permutation_map, HP|exact ND]).
  destruct (JS.lookup k fs) as [x|] eqn:E.
  - symmetry. apply lookup_in; [exact ND'|].
    eapply Permutation_in; [exact HP|]. apply lookup_some_in, E.
  - symmetry. apply lookup_none. intros Hin.
    assert (In k (JS.keys fs)) as Hin'
      by (eapply Permutation_in; [apply Permutation_sym, Permutation_map, HP|exact Hin]).
    apply in_map_iff in Hin' as [[k' x] [Hk Hx]]. simpl in Hk. subst k'.
    rewrite (lookup_in _ _ _ ND Hx) in E. discriminate.
Qed.

Lemma object_text_perm (r r' : list (string * string)) :
  NoDup (JS.keys r) -> Permutation r r' -> object_text r = object_text r'.
Proof.
  intros ND HP. unfold object_text.
  rewrite (SortFacts.sort_permutation_invariant (JS.keys r) (JS.keys r'))
    by (apply Permutation_map, HP).
  do 3 f_equal. apply map_ext. intros k. now rewrite (lookup_perm k r r' ND HP).
Qed.

Lemma keys_render (fs : obj) : JS.keys (render fs) = JS.keys fs.
Proof.
  unfold render, JS.keys. rewrite map_map. apply map_ext. now intros [k x].
Qed.

Lemma well_formed_obj (fs : obj) :
  well_formed (JObj fs) = true ->
  NoDup (JS.keys fs) /\ Forall (fun kv => well_formed (snd kv) = true) fs.
Proof.
  simpl. intros H. apply andb_true_iff in H as [H1 H2]. split.
  - apply nodupb_NoDup, H1.
  - apply Forall_forall. intros [k x] Hin.
    rewrite forallb_forall in H2. apply (H2 _ Hin).
Qed.

(** The serialization does not depend on the insertion order of keys, at any
    depth. *)
Lemma canonicalize_reordered (v : value) :
  forall v', well_formed v = true -> reordered v v' -> canonicalize v = canonicalize v'.
Proof.
  induction v as [ | | b | n | s | l IH | fs IH] using value_induction;
    intros v' WF R; inversion R; subst; try reflexivity.
  - (* arrays: element by element *)
    match goal with H : Forall2 reordered _ _ |- _ => rename H into F end.
    simpl in WF. rewrite forallb_forall in WF. clear R. simpl.
    assert (map (fun item => JS.element (canonicalize item)) l
            = map (fun item => JS.element (canonicalize item)) l') as ->;
      [|reflexivity].
    induction F as [|x y l l' Rxy F IHF]; [reflexivity|].
    simpl. inversion IH as [|? ? IHx IHl]; subst.
    f_equal.
    + rewrite (IHx y); [reflexivity|apply WF; now left|exact Rxy].
    + apply IHF; [exact IHl|]. intros z Hz. apply WF. now right.
  - (* objects: the keys sort to the same list, each key finds the same text *)
    match goal with
    | HP : Permutation _ _, HF : Forall2 _ _ _ |- _ => rename HP into P; rename HF into F
    end.
    destruct (well_formed_obj _ WF) as [ND WFs].
    change (Some (object_text (render fs)) = Some (object_text (render fs'))).
    f_equal.
    assert (render fs1 = render fs') as <-.
    { assert (Forall (fun kv => forall v', well_formed (snd kv) = true ->
                        reordered (snd kv) v' -> canonicalize (snd kv) = canonicalize v') fs1)
        as IH1 by (eapply Permutation_Forall; [exact P|exact IH]).
      assert (Forall (fun kv => well_formed (snd kv) = true) fs1)
        as WF1 by (eapply Permutation_Forall; [exact P|exact WFs]).
      clear - F IH1 WF1.
      induction F as [|[k x] [k' x'] l l' [Hk Rx] F IHF]; [reflexivity|].
      simpl in Hk, Rx. subst k'.
      inversion IH1 as [|? ? IHx IHl]; inversion WF1 as [|? ? WFx WFl]; subst.
      simpl in *. rewrite (IHx x' WFx Rx). f_equal. apply IHF; assumption. }
    apply object_text_perm.
    + rewrite keys_render. exact ND.
    + apply Permutation_map, P.
Qed.

End CanonFacts.

(** ** Loops and conversions that may throw *)

Module ResultFacts.

Lemma map_result_throw {A B : Type} (f : A -> result B) (l : list A) (e : error) :
  JS.map_result f l = Throw e -> exists x, In x l /\ f x = Throw e.
Proof.
  destruct e.
  induction l as [|x l IH]; cbn [JS.map_result]; [discriminate|].
  destruct (f x) as [y|[]] eqn:E; cbn [bind].
  - destruct (JS.map_result f l) as [ys|[]]; cbn [bind]; [discriminate|].
    intros _. destruct (IH eq_refl) as (z & Hz & Ez).
    exists z. split; [now right | exact Ez].
  - intros _. exists x. split; [now left | exact E].
Qed.

Lemma map_result_throws {A B : Type} (f : A -> result B) (l : list A) (x : A) :
  In x l -> f x = Throw TypeError -> JS.map_result f l = Throw TypeError.
Proof.
  intros Hin Hx. induction l as [|y l IH]; [contradiction|].
  cbn [JS.map_result]. destruct Hin as [-> | Hin].
  - now rewrite Hx.
  - destruct (f y) as [b|[]]; cbn [bind]; [|reflexivity].
    now rewrite (IH Hin).
Qed.

Lemma map_result_forall2 {A B : Type} (f : A -> result B) (l : list A) :
  forall ys, JS.map_result f l = Ok ys -> Forall2 (fun x y => f x = Ok y) l ys.
Proof.
  induction l as [|x l IH]; intros ys; cbn [JS.map_result].
  - intros H. injection H as <-. constructor.
  - destruct (f x) as [y|] eqn:Fx; cbn [bind]; [|discriminate].
    destruct (JS.map_result f l) as [zs|]; cbn [bind]; [|discriminate].
    intros H. injection H as <-. constructor; [exact Fx | now apply IH].
Qed.

Lemma map_result_length {A B : Type} (f : A -> result B) (l : list A) (ys : list B) :
  JS.map_result f l = Ok ys -> List.length ys = List.length l.
Proof.
  intros H. apply map_result_forall2 in H. symmetry.
  induction H as [|x y l ys _ _ IH]; [reflexivity|]. cbn [List.length]. now rewrite IH.
Qed.

Lemma map_result_ok {A B : Type} (f : A -> result B) (g : A -> B) (l : list A) :
  (forall x y, In x l -> f x = Ok y -> y = g x) ->
  forall ys, JS.map_result f l = Ok ys -> ys = map g l.
Proof.
  intros H ys M. apply map_result_forall2 in M.
  induction M as [|x y l ys Fx _ IH]; [reflexivity|].
  cbn [map]. rewrite (H x y (or_introl eq_refl) Fx).
  rewrite IH; [reflexivity|]. intros x' y' Hin. apply H. now right.
Qed.

Lemma map_result_all {A B : Type} (f : A -> result B) (g : A -> B) (l : list A) :
  Forall (fun x => f x = Ok (g x)) l -> JS.map_result f l = Ok (map g l).
Proof.
  induction 1 as [|x l Hx _ IH]; [reflexivity|].
  cbn [JS.map_result map]. now rewrite Hx, IH.
Qed.

Lemma map_result_ext {A B : Type} (f g : A -> result B) (l : list A) :
  (forall x, f x = g x) -> JS.map_result f l = JS.map_result g l.
Proof.
  intros H. induction l as [|x l IH]; [reflexivity|].
  cbn [JS.map_result]. now rewrite H, IH.
Qed.

Lemma map_result_map {A B C : Type} (h : A -> B) (f : B -> result C) (l : list A) :
  JS.map_result f (map h l) = JS.map_result (fun x => f (h x)) l.
Proof.
  induction l as [|x l IH]; [reflexivity|]. cbn [JS.map_result map]. now rewrite IH.
Qed.

Lemma map_result_firstn {A B : Type} (f : A -> result B) (n : nat) (l : list A) :
  forall ys, JS.map_result f l = Ok ys -> JS.map_result f (firstn n l) = Ok (firstn n ys).
Proof.
  revert l. induction n as [|n IH]; intros l ys; [reflexivity|].
  destruct l as [|x l]; cbn [JS.map_result firstn].
  - intros H. now injection H as <-.
  - destruct (f x) as [y|]; cbn [bind]; [|discriminate].
    destruct (JS.map_result f l) as [zs|] eqn:M; cbn [bind]; [|discriminate].
    intros H. injection H as <-. now rewrite (IH l zs M).
Qed.

Lemma to_string_array (l : list value) :
  JS.to_string (JArr l)
  = bind (JS.map_result (fun x => match x with
                                  | JUndefined | JNull => Ok ""
                                  | _ => JS.to_string x
                                  end) l)
         (fun parts => Ok (JS.join "," parts)).
Proof.
  cbn [JS.to_string]. f_equal.
  induction l as [|x l IH]; [reflexivity|]. cbn [JS.map_result]. now rewrite IH.
Qed.

(** Where the conversion does not throw, it yields the text of [ToString]. *)
Lemma to_string_ok : forall v s, JS.to_string v = Ok s -> JS.ToString v = s.
Proof.
  apply (CanonFacts.value_induction
           (fun v => forall s, JS.to_string v = Ok s -> JS.ToString v = s)).
  - intros s E. now injection E.
  - intros s E. now injection E.
  - intros b s E. now injection E.
  - intros n s E. now injection E.
  - intros t s E. now injection E.
  - intros l IH s. rewrite to_string_array.
    destruct (JS.map_result _ l) as [parts|] eqn:M; cbn [bind]; [|discriminate].
    intros E. injection E as <-. cbn [JS.ToString]. f_equal.
    symmetry. revert M. apply map_result_ok.
    rewrite Forall_forall in IH. intros x y Hin Hx.
    destruct x; try (now injection Hx); symmetry; now apply (IH _ Hin).
  - intros o _ s. cbn [JS.to_string JS.ToString].
    destruct (JS.lookup "toString" o); [discriminate|]. intros E. now injection E.
Qed.

(** Where the verifier's join does not throw, it yields the text the chain
    class joins. *)
Lemma joined_ok (es : list obj) (s : string) :
  Verifier.joined_hashes es = Ok s -> s = Chain.joined_hashes es.
Proof.
  unfold Verifier.joined_hashes, Chain.joined_hashes.
  destruct (JS.map_result _ es) as [parts|] eqn:M; cbn [bind]; [|discriminate].
  intros E. injection E as <-. f_equal. revert M. apply map_result_ok.
  intros e y _ H. unfold JS.join_item.
  destruct (JS.get e "event_hash") eqn:G; try (now injection H);
    symmetry; now apply to_string_ok.
Qed.

Lemma joined_strings (es : list obj) :
  Forall (fun e => exists h, JS.get e "event_hash" = JStr h) es ->
  Verifier.joined_hashes es = Ok (Chain.joined_hashes es).
Proof.
  intros F. unfold Verifier.joined_hashes, Chain.joined_hashes.
  rewrite (map_result_all _ (fun e => JS.join_item (JS.get e "event_hash"))); [reflexivity|].
  eapply Forall_impl; [|exact F]. intros e [h ->]. reflexivity.
Qed.

Lemma joined_prefix (es : list obj) (n : nat) (s : string) :
  Verifier.joined_hashes es = Ok s ->
  exists s', Verifier.joined_hashes (firstn n es) = Ok s'.
Proof.
  unfold Verifier.joined_hashes.
  destruct (JS.map_result _ es) as [parts|] eqn:M; cbn [bind]; [|discriminate].
  intros _. rewrite (map_result_firstn _ n es parts M). cbn [bind]. eexists. reflexivity.
Qed.

End ResultFacts.

Lemma reordered_permutation (fs fs' : obj) :
  Permutation fs fs' -> reordered (JObj fs) (JObj fs').
Proof.
  intros P. apply (ro_obj fs fs' fs' P).
  clear P. induction fs' as [|kv fs' IH]; constructor; [|exact IH].
  split; [reflexivity|apply ro_same].
Qed.

(** The object branch in the shape of the source:
    [Object.keys(obj).sort().map(k => JSON.stringify(k) + ':' + canonicalize(obj[k]))]. *)
Lemma canonicalize_object_keys (fs : obj) :
  canonicalize (JObj fs)
  = Some ("{" ++ JS.join ","
                   (map (fun k => JS.quote k ++ ":" ++ JS.operand (canonicalize (JS.get fs k)))
                        (JS.sort (JS.keys fs)))
              ++ "}").
Proof.
  change (canonicalize (JObj fs)) with (Some (object_text (render fs))).
  unfold object_text. rewrite CanonFacts.keys_render.
  do 4 f_equal. apply map_ext. intros k. do 2 f_equal.
  unfold JS.get. induction fs as [|[k' x] fs IH]; simpl; [reflexivity|].
  destruct (String.eqb k k'); [reflexivity|exact IH].
Qed.

(** C5.  For every value [v] built from null, booleans, numbers, strings,
    arrays and objects (each object holding a key once), and every [v'] that
    is [v] with the keys of its objects inserted in another order at any
    depth, [canonicalize] yields the same text.  An object is written with
    its keys in sorted order, each key followed by the serialization of its
    value; an array is written element by element in its own order. *)
Theorem canonicalize_insertion_order_invariant (v v' : value) :
  well_formed v = true -> reordered v v' ->
  canonicalize v = canonicalize v'
  /\ (forall fs fs', v = JObj fs -> Permutation fs fs' ->
        canonicalize (JObj fs) = canonicalize (JObj fs'))
  /\ (forall fs, v = JObj fs ->
        StronglySorted key_le (JS.sort (JS.keys fs))
        /\ Permutation (JS.keys fs) (JS.sort (JS.keys fs))
        /\ canonicalize v
           = Some ("{" ++ JS.join ","
                            (map (fun k => JS.quote k ++ ":"
                                           ++ JS.operand (canonicalize (JS.get fs k)))
                                 (JS.sort (JS.keys fs)))
                       ++ "}"))
  /\ (forall items, v = JArr items ->
        canonicalize v
        = Some ("[" ++ JS.join "," (map (fun item => JS.element (canonicalize item)) items)
                    ++ "]")).
Proof.
  intros WF R. repeat split.
  - apply CanonFacts.canonicalize_reordered; assumption.
  - intros fs fs' -> P.
    apply CanonFacts.canonicalize_reordered; [exact WF|].
    apply reordered_permutation, P.
  - apply SortFacts.sort_sorted.
  - apply SortFacts.sort_perm.
  - subst v. apply canonicalize_object_keys.
  - intros items ->. reflexivity.
Qed.

(** C5 at a concrete document, reordered at both levels. *)
Lemma sample_documents_reordered :
  reordered sample_document sample_document_reordered.
Proof.
  eapply ro_obj; [apply perm_swap|].
  constructor; [split; [reflexivity|]|].
  - eapply ro_obj; [apply perm_swap|].
    repeat constructor.
  - repeat constructor.
Defined.

(** C5, witness: the theorem applied to the two documents. *)
Lemma canonicalize_insertion_order_invariant_witness :
  well_formed sample_document = true
  /\ canonicalize sample_document = canonicalize sample_document_reordered.
Proof.
  split; [reflexivity|].
  exact (proj1 (canonicalize_insertion_order_invariant
                  sample_document sample_document_reordered
                  eq_refl sample_documents_reordered)).
Defined.

(** ** The hash chain *)

Module ChainFacts.

Lemma nth_error_last {A : Type} (l : list A) (d : A) :
  l <> [] -> nth_error l (List.length l - 1) = Some (last l d).
Proof.
  induction l as [|x l IH]; [congruence|]. intros _.
  destruct l as [|y l]; [reflexivity|].
  replace (List.length (x :: y :: l) - 1)%nat with (S (List.length (y :: l) - 1))
    by (simpl; lia).
  change (last (x :: y :: l) d) with (last (y :: l) d).
  simpl nth_error. apply IH. discriminate.
Qed.

(** [append] throws exactly when [opts] is [null]; otherwise it adds one
    event at the end and touches nothing else. *)
Lemma append_spec (c : Chain.t) (now : string) (type agent org payload opts : value) :
  match Chain.append c now type agent org payload opts with
  | Ok (c', ev, _) =>
      exists authorization ownerId,
        Chain.option_of opts "authorization" = Ok authorization
        /\ Chain.option_of opts "ownerId" = Ok ownerId
        /\ ev = event_of (S (List.length (Chain.events c))) now type agent org payload
                        (previous_hash (Chain.events c)) authorization ownerId
        /\ Chain.events c' = (Chain.events c ++ [ev])%list
        /\ Chain.id c' = Chain.id c
        /\ Chain.status c' = Chain.status c
        /\ Chain.chainHash c' = Chain.chainHash c
  | Throw e => e = TypeError /\ opts = JNull
  end.
Proof.
  unfold Chain.append.
  assert ((if Nat.eqb (S (List.length (Chain.events c))) 1 then Ok (JStr GENESIS)
           else match nth_error (Chain.events c) (S (List.length (Chain.events c)) - 2) with
                | Some e => Ok (JS.get e "event_hash")
                | None => Throw TypeError
                end) = Ok (previous_hash (Chain.events c))) as ->.
  { destruct (Chain.events c) as [|e es] eqn:E; [reflexivity|].
    change (Nat.eqb (S (List.length (e :: es))) 1) with false.
    replace (S (List.length (e :: es)) - 2)%nat with (List.length (e :: es) - 1)%nat
      by (simpl; lia).
    rewrite (nth_error_last (e :: es) []) by discriminate. reflexivity. }
  cbn [bind].
  destruct opts; cbn [Chain.option_of bind]; try (split; reflexivity);
    eexists; eexists; repeat split; reflexivity.
Qed.

End ChainFacts.

Module LinkFacts.
Import ChainFacts.

Lemma get_prev_hash_event_of seq now type agent org payload prev a o :
  JS.get (event_of seq now type agent org payload prev a o) "prev_hash" = prev.
Proof. reflexivity. Qed.

Lemma get_event_hash_event_of seq now type agent org payload prev a o :
  JS.get (event_of seq now type agent org payload prev a o) "event_hash"
  = JStr (sha256 (canonicalize_object
                    (Chain.hashed_record seq type agent now payload prev))).
Proof. reflexivity. Qed.

Lemma linked_snoc (es : list obj) (ev : obj) :
  linked es -> JS.get ev "prev_hash" = previous_hash es -> linked (es ++ [ev])%list.
Proof.
  intros L P i e Hi.
  destruct (Nat.lt_ge_cases i (List.length es)) as [Hlt|Hge].
  - rewrite nth_error_app1 in Hi by exact Hlt.
    rewrite (L i e Hi). destruct i as [|j]; [reflexivity|].
    rewrite nth_error_app1 by lia. reflexivity.
  - rewrite nth_error_app2 in Hi by exact Hge.
    destruct (i - List.length es)%nat as [|k] eqn:E;
      [|destruct k; discriminate Hi].
    injection Hi as <-. assert (i = List.length es) as -> by lia.
    rewrite P. destruct es as [|x es]; [reflexivity|].
    cbn [List.length]. rewrite nth_error_app1 by (simpl; lia).
    replace (List.length es) with (List.length (x :: es) - 1)%nat by (simpl; lia).
    rewrite (nth_error_last (x :: es) []) by discriminate. reflexivity.
Qed.

Lemma append_linked c now type agent org payload opts c' ev m :
  linked (Chain.events c) ->
  Chain.append c now type agent org payload opts = Ok (c', ev, m) ->
  linked (Chain.events c').
Proof.
  intros L H. pose proof (append_spec c now type agent org payload opts) as S.
  rewrite H in S. destruct S as (a & o & _ & _ & -> & -> & _).
  apply linked_snoc; [exact L|]. apply get_prev_hash_event_of.
Qed.

Lemma exec_linked (c : Chain.t) (o : op) :
  linked (Chain.events c) -> linked (Chain.events (exec c o)).
Proof.
  intros L. destruct o as [now type agent org payload opts|]; simpl; [|exact L].
  destruct (Chain.append c now type agent org payload opts) as [[[c' ev] m]|e] eqn:E;
    [|exact L].
  eapply append_linked; eassumption.
Qed.

Lemma run_invariant (P : Chain.t -> Prop) (id : value) :
  P (Chain.new id) -> (forall c o, P c -> P (exec c o)) ->
  forall ops, P (run id ops).
Proof.
  intros H0 Hstep ops. unfold run.
  generalize (Chain.new id) H0. induction ops as [|o ops IH]; intros c Hc; simpl.
  - exact Hc.
  - apply IH, Hstep, Hc.
Qed.

End LinkFacts.

(** C8.  The genesis value is the text of exactly 64 characters 0.  In every
    chain obtained from [new Chain(id)] by any sequence of calls, the first
    event's [prev_hash] is the genesis value and every later event's
    [prev_hash] is the [event_hash] stored in the event before it; and
    [append] preserves this linkage on any chain that has it. *)
Theorem chain_linkage_invariant :
  GENESIS = "0000000000000000000000000000000000000000000000000000000000000000"
  /\ String.length GENESIS = 64%nat
  /\ (forall id ops, linked (Chain.events (run id ops)))
  /\ (forall id ops e,
        nth_error (Chain.events (run id ops)) 0 = Some e ->
        JS.get e "prev_hash" = JStr GENESIS)
  /\ (forall id ops i e q,
        nth_error (Chain.events (run id ops)) (S i) = Some e ->
        nth_error (Chain.events (run id ops)) i = Some q ->
        JS.get e "prev_hash" = JS.get q "event_hash")
  /\ (forall c now type agent org payload opts c' ev m,
        linked (Chain.events c) ->
        Chain.append c now type agent org payload opts = Ok (c', ev, m) ->
        linked (Chain.events c')).
Proof.
  assert (forall id ops, linked (Chain.events (run id ops))) as L.
  { intros id. apply (LinkFacts.run_invariant (fun c => linked (Chain.events c))).
    - intros [|i] e H; discriminate H.
    - intros c o. apply LinkFacts.exec_linked. }
  split; [reflexivity|]. split; [reflexivity|]. split; [exact L|].
  split; [|split].
  - intros id ops e H. apply (L id ops 0%nat e H).
  - intros id ops i e q He Hq. rewrite (L id ops (S i) e He), Hq. reflexivity.
  - intros. eapply LinkFacts.append_linked; eassumption.
Qed.

(** C8, witness: the linkage of the demo chain, read off the theorem. *)
Lemma chain_linkage_invariant_witness :
  JS.get demo_event_1 "prev_hash" = JStr GENESIS
  /\ JS.get demo_event_3 "prev_hash" = JS.get demo_event_2 "event_hash".
Proof.
  assert (Chain.events (run (JStr "demo") demo_ops) = demo_events) as E
    by (vm_compute; reflexivity).
  destruct chain_linkage_invariant as (_ & _ & _ & H0 & HS & _).
  split.
  - apply (H0 (JStr "demo") demo_ops). rewrite E. reflexivity.
  - apply (HS (JStr "demo") demo_ops 1%nat); rewrite E; reflexivity.
Defined.

(** C7.  [resolve()] returns the SHA-256 digest of the chain's [event_hash]
    values joined with a colon, in sequence order, stores that digest as the
    chain hash and sets the status to resolved, leaving id and events as they
    were.  Before [resolve] the chain hash is [null]: the constructor sets it
    so and no sequence of appends changes it. *)
Theorem resolve_sets_chain_hash (c : Chain.t) :
  snd (Chain.resolve c)
  = sha256 (JS.join ":" (map (fun e => JS.join_item (JS.get e "event_hash"))
                             (Chain.events c)))
  /\ Chain.chainHash (fst (Chain.resolve c)) = JStr (snd (Chain.resolve c))
  /\ Chain.status (fst (Chain.resolve c)) = Chain.resolved
  /\ Chain.events (fst (Chain.resolve c)) = Chain.events c
  /\ Chain.id (fst (Chain.resolve c)) = Chain.id c
  /\ (forall id, Chain.chainHash (Chain.new id) = JNull)
  /\ (forall now type agent org payload opts c' ev m,
        Chain.append c now type agent org payload opts = Ok (c', ev, m) ->
        Chain.chainHash c' = Chain.chainHash c)
  /\ (forall id ops,
        existsb is_resolve ops = false -> Chain.chainHash (run id ops) = JNull).
Proof.
  repeat split.
  - intros now type agent org payload opts c' ev m H.
    pose proof (ChainFacts.append_spec c now type agent org payload opts) as S.
    rewrite H in S. destruct S as (a & o & _ & _ & _ & _ & _ & _ & E). exact E.
  - intros id ops. unfold run.
    assert (Chain.chainHash (Chain.new id) = JNull) as H0 by reflexivity.
    revert H0. generalize (Chain.new id).
    induction ops as [|o ops IH]; intros c0 H0 Hno; simpl in *; [exact H0|].
    apply orb_false_iff in Hno as [Ho Hops].
    apply IH; [|exact Hops].
    destruct o as [now type agent org payload opts|]; [|discriminate Ho]. simpl.
    pose proof (ChainFacts.append_spec c0 now type agent org payload opts) as S.
    destruct (Chain.append c0 now type agent org payload opts) as [[[c' ev] m]|e];
      [|exact H0].
    destruct S as (a & o & _ & _ & _ & _ & _ & _ & E). congruence.
Qed.

(** C7, witness: the demo chain before its [resolve] has no chain hash. *)
Lemma resolve_sets_chain_hash_witness :
  Chain.chainHash (run (JStr "demo") (removelast demo_ops)) = JNull.
Proof.
  destruct (resolve_sets_chain_hash (Chain.new (JStr "demo")))
    as (_ & _ & _ & _ & _ & _ & _ & H).
  apply H. reflexivity.
Defined.

(** C10.  [resolve()] always returns (it has no failing path), and calling
    it again on the chain it left returns the same chain hash and leaves the
    same chain: status resolved, chain hash as returned. *)
Theorem resolve_idempotent (c : Chain.t) :
  exists c1 h,
    Chain.resolve c = (c1, h)
    /\ Chain.resolve c1 = (c1, h)
    /\ Chain.status c1 = Chain.resolved
    /\ Chain.chainHash c1 = JStr h.
Proof.
  eexists. eexists. repeat split.
Qed.

(** C2, refuted as stated: a resolved chain accepts an append; the call
    returns the new event and the event list grows. *)
Lemma append_after_resolve_succeeds :
  Chain.status (fst (Chain.resolve (Chain.new (JStr "demo")))) = Chain.resolved
  /\ Chain.events (fst (Chain.resolve (Chain.new (JStr "demo")))) = []
  /\ exists c' ev m,
       Chain.append (fst (Chain.resolve (Chain.new (JStr "demo")))) sample_time
         (JStr "created") (JStr "agent-a") (JStr "Org") (JObj []) JUndefined
       = Ok (c', ev, m)
       /\ Chain.events c' = [ev]
       /\ Chain.status c' = Chain.resolved.
Proof.
  split; [reflexivity|]. split; [reflexivity|].
  eexists. eexists. eexists. split; [reflexivity|]. split; reflexivity.
Qed.

(** C2, amended.  [append] does not read the chain's status.  On any chain,
    resolved or active, it adds the event it returns at the end of the event
    list and leaves status and chain hash as they were.  Its only failure is
    a TypeError when [opts] is [null], raised before the chain is touched;
    with any other [opts] it succeeds. *)
Theorem append_ignores_status (c : Chain.t) (now : string)
    (type agent org payload opts : value) :
  match Chain.append c now type agent org payload opts with
  | Ok (c', ev, _) =>
      Chain.events c' = (Chain.events c ++ [ev])%list
      /\ Chain.status c' = Chain.status c
      /\ Chain.chainHash c' = Chain.chainHash c
      /\ opts <> JNull
  | Throw e => e = TypeError /\ opts = JNull
  end
  /\ (forall s,
        match Chain.append c now type agent org payload opts,
              Chain.append (Chain.mk (Chain.id c) (Chain.events c) s (Chain.chainHash c))
                           now type agent org payload opts with
        | Ok (_, ev, _), Ok (_, ev', _) => ev' = ev
        | Throw e, Throw e' => e' = e
        | _, _ => False
        end).
Proof.
  split.
  - pose proof (ChainFacts.append_spec c now type agent org payload opts) as S.
    destruct (Chain.append c now type agent org payload opts) as [[[c' ev] m]|e];
      [|exact S].
    destruct S as (a & o & Ha & _ & _ & E & _ & St & H). repeat split; try assumption.
    intros ->. discriminate Ha.
  - intros s.
    pose proof (ChainFacts.append_spec c now type agent org payload opts) as S.
    pose proof (ChainFacts.append_spec
                  (Chain.mk (Chain.id c) (Chain.events c) s (Chain.chainHash c))
                  now type agent org payload opts) as S'.
    destruct (Chain.append c now type agent org payload opts) as [[[c1 ev] m]|e];
      destruct (Chain.append _ now type agent org payload opts) as [[[c2 ev'] m']|e'].
    + destruct S as (a & o & Ha & Ho & -> & _).
      destruct S' as (a' & o' & Ha' & Ho' & -> & _).
      simpl. congruence.
    + destruct S as (a & o & Ha & _). destruct S' as [_ ->]. discriminate Ha.
    + destruct S' as (a & o & Ha & _). destruct S as [_ ->]. discriminate Ha.
    + destruct S as [-> _]. destruct S' as [-> _]. reflexivity.
Qed.

(** C1, refuted as stated: the first event appended to a fresh chain stores
    a hash that is not the digest of its other fields. *)
Lemma event_hash_is_not_hash_of_event_fields :
  exists c' ev m,
    Chain.append (Chain.new (JStr "demo")) sample_time
      (JStr "created") (JStr "agent-a") (JStr "Org") (JObj []) JUndefined
    = Ok (c', ev, m)
    /\ JS.get ev "event_hash"
       = JStr "9b137a1e887dbe254da8a907c00eec7cf89d5ba5bb2a3c4586e7187b4fd4c26b"
    /\ spec_event_hash ev
       = "60f51b0d66dc4f15aa3cbf1212433ec294ba1f73447b0ca8d302702e93f4bbd1"
    /\ JS.get ev "event_hash" <> JStr (spec_event_hash ev).
Proof.
  eexists. eexists. eexists. split; [reflexivity|].
  match goal with |- ?A /\ ?B /\ _ => assert A as H1; [|assert B as H2] end.
  - by_evaluation.
  - by_evaluation.
  - split; [exact H1|]. split; [exact H2|].
    rewrite H1, H2. discriminate.
Qed.

(** C1, amended.  For every event returned by [append], the stored
    [event_hash] is the SHA-256 digest of the canonical serialization of the
    record [{seq, event_type, agent_name, timestamp, payload, prev_hash}]
    taken from the event's own fields ([seq] being its [sequence]).  The
    organization and, when the authorization option is set, the
    [authorization_event] flag and [owner_user_id] are stored in the event
    but are not part of what is hashed: the same call with another
    organization or other options stores the same [event_hash]. *)
Theorem event_hash_covers_hashed_record (c : Chain.t) (now : string)
    (type agent org payload opts : value) :
  match Chain.append c now type agent org payload opts with
  | Ok (_, ev, _) =>
      JS.get ev "event_hash"
      = JStr (sha256 (canonicalize_object
                        [("seq", JS.get ev "sequence");
                         ("event_type", JS.get ev "event_type");
                         ("agent_name", JS.get ev "agent_name");
                         ("timestamp", JS.get ev "timestamp");
                         ("payload", JS.get ev "payload");
                         ("prev_hash", JS.get ev "prev_hash")]))
      /\ JS.get ev "organization" = org
      /\ (forall a o,
            Chain.option_of opts "authorization" = Ok a ->
            Chain.option_of opts "ownerId" = Ok o ->
            JS.get ev "authorization_event" = (if JS.truthy a then JBool true else JUndefined)
            /\ JS.get ev "owner_user_id"
               = (if JS.truthy a then (if JS.truthy o then o else JStr "owner-1")
                  else JUndefined))
      /\ (forall org' opts',
            match Chain.append c now type agent org' payload opts' with
            | Ok (_, ev', _) => JS.get ev' "event_hash" = JS.get ev "event_hash"
            | Throw _ => opts' = JNull
            end)
  | Throw _ => opts = JNull
  end.
Proof.
  pose proof (ChainFacts.append_spec c now type agent org payload opts) as S.
  destruct (Chain.append c now type agent org payload opts) as [[[c' ev] m]|e];
    [|exact (proj2 S)].
  destruct S as (a & o & Ha & Ho & -> & _).
  split; [reflexivity|]. split; [reflexivity|]. split.
  - intros a' o' Ha' Ho'. rewrite Ha in Ha'. rewrite Ho in Ho'.
    injection Ha' as <-. injection Ho' as <-.
    unfold event_of. destruct (JS.truthy a); split; reflexivity.
  - intros org' opts'.
    pose proof (ChainFacts.append_spec c now type agent org' payload opts') as S'.
    destruct (Chain.append c now type agent org' payload opts') as [[[c2 ev'] m']|e'];
      [|exact (proj2 S')].
    destruct S' as (a' & o' & _ & _ & -> & _).
    rewrite !LinkFacts.get_event_hash_event_of. reflexivity.
Qed.

(** C1, witness: the amended statement at the third append of the demo,
    whose options set the authorization flag and an owner. *)
Lemma event_hash_covers_hashed_record_witness :
  JS.get demo_event_3 "authorization_event" = JBool true
  /\ JS.get demo_event_3 "owner_user_id" = JStr "owner-ciso-1"
  /\ JS.get demo_event_3 "event_hash" = JStr (recomputed_event_hash demo_event_3).
Proof.
  pose proof (event_hash_covers_hashed_record
                (Chain.mk (JStr "demo") [demo_event_1; demo_event_2] Chain.active JNull)
                "2026-01-01T00:00:02.000Z" (JStr "updated") (JStr "owner") (JStr "Org")
                (JObj [("y", JNum 2)])
                (JObj [("authorization", JBool true); ("ownerId", JStr "owner-ciso-1")]))
    as H.
  vm_compute in H. destruct H as (H1 & _ & H2 & _).
  destruct (H2 (JBool true) (JStr "owner-ciso-1") eq_refl eq_refl) as [Ha Ho].
  split; [exact Ha|]. split; [exact Ho|]. vm_compute. exact H1.
Defined.

(** ** The concrete run *)

(** The demo chain, its issuers' keys and its certificates are what the code
    computes. *)
Lemma demo_chain_value :
  demo_chain
  = Chain.mk (JStr "demo") demo_events Chain.resolved
      (JStr "ed3deea85d1724924c84a82bcc6c54d4a94ab1c327ff739aa1fb0b137e54b3b7").
Proof. by_evaluation. Qed.

Lemma issuers_constructed :
  CertIssuer.new demo_seed = demo_issuer
  /\ CertIssuer.new other_seed = other_issuer
  /\ CertIssuer.pubHex demo_issuer = demo_public_key
  /\ CertIssuer.pubHex other_issuer = other_public_key.
Proof. split; [|split; [|split]]; by_evaluation. Qed.

Lemma demo_certificates_issued :
  CertIssuer.issue demo_issuer "2026-01-01T00:00:03.000Z" demo_chain = demo_certificate
  /\ CertIssuer.issue other_issuer "2026-01-01T00:00:03.000Z" demo_chain = other_certificate
  /\ CertIssuer.issue demo_issuer "2026-01-01T00:00:03.000Z" (Chain.new (JStr "demo"))
     = unresolved_certificate.
Proof. split; [|split]; by_evaluation. Qed.

(** ** The certificate issuer *)

(** C9, refuted as stated: for a chain that was never resolved, [issue]
    returns a certificate, with a null chain hash, that the issuer itself
    verifies. *)
Lemma issue_on_active_chain_returns_certificate :
  Chain.status (Chain.new (JStr "demo")) = Chain.active
  /\ CertIssuer.issue demo_issuer "2026-01-01T00:00:03.000Z" (Chain.new (JStr "demo"))
     = unresolved_certificate
  /\ JS.get unresolved_certificate "chain_hash" = JNull
  /\ CertIssuer.verify demo_issuer unresolved_certificate = CertIssuer.Returns true.
Proof.
  split; [reflexivity|].
  split; [exact (proj2 (proj2 demo_certificates_issued))|].
  split; [reflexivity|]. by_evaluation.
Qed.

(** C9, amended.  [issue] does not read the chain's status and has no
    failing path: for every chain it returns a certificate whose
    [chain_hash] is the chain's current chain hash ([null] for a chain never
    resolved), whose [event_count] is the current number of events, signed
    with the issuer's private key. *)
Theorem issue_ignores_status (i : CertIssuer.t) (now : string) (c : Chain.t) :
  (forall s,
     CertIssuer.issue i now (Chain.mk (Chain.id c) (Chain.events c) s (Chain.chainHash c))
     = CertIssuer.issue i now c)
  /\ JS.get (CertIssuer.issue i now c) "chain_hash" = Chain.chainHash c
  /\ JS.get (CertIssuer.issue i now c) "chain_id" = Chain.id c
  /\ JS.get (CertIssuer.issue i now c) "event_count"
     = JNum (Z.of_nat (List.length (Chain.events c)))
  /\ JS.get (CertIssuer.issue i now c) "signature"
     = JStr (Bytes.to_hex
               (crypto_sign (Bytes.utf8 (canonicalize_object (CertIssuer.data_of c now)))
                            (CertIssuer.priv i)))
  /\ JS.get (CertIssuer.issue i now c) "public_key" = JStr (CertIssuer.pubHex i)
  /\ (forall id, JS.get (CertIssuer.issue i now (Chain.new id)) "chain_hash" = JNull).
Proof.
  repeat split.
Qed.

(** C4, refuted as stated.  A genuine certificate of another issuer
    validates under its embedded key, and the demo issuer's [verify] returns
    false for it; the demo issuer's own certificate with the other issuer's
    key written into [public_key] no longer validates under its embedded
    key, and the demo issuer's [verify] returns true for it. *)
Lemma verify_follows_issuer_key_not_embedded_key :
  spec_validates_with_embedded_key other_certificate = true
  /\ CertIssuer.verify demo_issuer other_certificate = CertIssuer.Returns false
  /\ spec_validates_with_embedded_key
       (JS.set "public_key" (JStr other_public_key) demo_certificate) = false
  /\ CertIssuer.verify demo_issuer
       (JS.set "public_key" (JStr other_public_key) demo_certificate)
     = CertIssuer.Returns true.
Proof. split; [|split; [|split]]; by_evaluation. Qed.

Module CertFacts.

Lemma get_set_other (k k' : string) (v : value) (o : obj) :
  k <> k' -> JS.get (JS.set k v o) k' = JS.get o k'.
Proof.
  intros N. unfold JS.get. induction o as [|[q x] o IH]; simpl.
  - destruct (String.eqb_spec k' k) as [->|_]; [congruence|reflexivity].
  - destruct (String.eqb_spec k q) as [->|Nq]; simpl.
    + destruct (String.eqb_spec k' q) as [->|_]; [congruence|reflexivity].
    + destruct (String.eqb k' q); [reflexivity|exact IH].
Qed.

Lemma without_set (k : string) (v : value) (o : obj) :
  JS.without k (JS.set k v o) = JS.without k o.
Proof.
  unfold JS.without. induction o as [|[q x] o IH]; simpl.
  - now rewrite String.eqb_refl.
  - destruct (String.eqb_spec k q) as [->|Nq]; simpl.
    + now rewrite String.eqb_refl.
    + destruct (String.eqb_spec k q) as [->|_]; [congruence|].
      simpl. now rewrite IH.
Qed.

Lemma without_set_other (k k' : string) (v : value) (o : obj) :
  k <> k' -> JS.without k (JS.without k' (JS.set k v o)) = JS.without k (JS.without k' o).
Proof.
  intros N. unfold JS.without. induction o as [|[q x] o IH]; simpl.
  - destruct (String.eqb_spec k' k) as [->|_]; [congruence|].
    simpl. now rewrite String.eqb_refl.
  - destruct (String.eqb_spec k q) as [->|Nq]; simpl.
    + destruct (String.eqb_spec k' q) as [->|_]; [congruence|].
      simpl. now rewrite String.eqb_refl.
    + destruct (String.eqb_spec k' q) as [->|_]; simpl; [exact IH|].
      destruct (String.eqb_spec k q) as [->|_]; [congruence|].
      simpl. now rewrite IH.
Qed.

Lemma rest_of_set_public_key (v : value) (cert : obj) :
  CertIssuer.rest_of (JS.set "public_key" v cert) = CertIssuer.rest_of cert.
Proof. apply without_set_other. discriminate. Qed.

End CertFacts.

(** C4, amended.  For a certificate whose [signature] is a string,
    [verify(certificate)] returns whether the Ed25519 signature validates
    over the canonical serialization of the certificate's fields without
    [signature] and [public_key] under the verifying issuer's own public
    key.  The embedded [public_key] is stripped and never used: writing any
    other value into it changes neither [verify]'s result nor the generated
    verifier's, which takes its key from the public-key document. *)
Theorem verify_uses_issuer_key (i : CertIssuer.t) (cert : obj) (s : string) :
  JS.get cert "signature" = JStr s ->
  CertIssuer.verify i cert
  = CertIssuer.Returns
      (Ed25519.verify (CertIssuer.pub i)
         (Bytes.utf8 (canonicalize_object
                        (JS.without "public_key" (JS.without "signature" cert))))
         (Bytes.from_hex s))
  /\ (forall k, CertIssuer.verify i (JS.set "public_key" k cert) = CertIssuer.verify i cert)
  /\ (forall k events pubKeyInfo,
        Verifier.verifyScript (JS.set "public_key" k cert) events pubKeyInfo
        = Verifier.verifyScript cert events pubKeyInfo).
Proof.
  intros Hs. split; [|split].
  - unfold CertIssuer.verify. rewrite Hs. reflexivity.
  - intros k. unfold CertIssuer.verify.
    rewrite CertFacts.rest_of_set_public_key.
    rewrite (CertFacts.get_set_other "public_key" "signature")
      by discriminate.
    reflexivity.
  - intros k events pubKeyInfo. unfold Verifier.verifyScript.
    rewrite CertFacts.rest_of_set_public_key.
    rewrite (CertFacts.get_set_other "public_key" "signature")
      by discriminate.
    rewrite (CertFacts.get_set_other "public_key" "chain_hash")
      by discriminate.
    reflexivity.
Qed.

(** C4, witness: the amended statement at the demo certificate. *)
Lemma verify_uses_issuer_key_witness :
  CertIssuer.verify demo_issuer demo_certificate
  = CertIssuer.Returns
      (Ed25519.verify (CertIssuer.pub demo_issuer)
         (Bytes.utf8 (canonicalize_object
                        (JS.without "public_key" (JS.without "signature" demo_certificate))))
         (Bytes.from_hex demo_signature)).
Proof.
  exact (proj1 (verify_uses_issuer_key demo_issuer demo_certificate demo_signature eq_refl)).
Defined.

(** ** The standalone verifier *)

(** C3, at a failing input.  The exported chain has lost its last event;
    the certificate and the key are the genuine ones.  The verifier prints
    that the chain hash does not match, and then that all checks passed.  On
    every input on which it finishes, its verdict is the conjunction of the
    linkage check and the signature check alone; each of the three checks
    has a line of its own. *)
Theorem verifier_passes_despite_chain_hash_mismatch :
  Verifier.verifyScript demo_certificate [demo_event_1; demo_event_2] demo_public_key_info
  = Verifier.Finished
      (Verifier.mk true false true
         ["=== OpenExecution Independent Verification ===" ++ Verifier.newline;
          "Hash chain integrity: VALID";
          "Chain hash match: MISMATCH";
          "Ed25519 signature: VALID";
          Verifier.newline ++ "ALL CHECKS PASSED"]
         0)
  /\ Verifier.verifyScript demo_certificate demo_events demo_public_key_info
     = Verifier.Finished
         (Verifier.mk true true true
            ["=== OpenExecution Independent Verification ===" ++ Verifier.newline;
             "Hash chain integrity: VALID";
             "Chain hash match: VALID";
             "Ed25519 signature: VALID";
             Verifier.newline ++ "ALL CHECKS PASSED"]
            0)
  /\ (forall cert events pubKeyInfo r,
        Verifier.verifyScript cert events pubKeyInfo = Verifier.Finished r ->
        Verifier.lines r
        = ["=== OpenExecution Independent Verification ===" ++ Verifier.newline;
           "Hash chain integrity: " ++ (if Verifier.chainOk r then "VALID" else "BROKEN");
           "Chain hash match: " ++ (if Verifier.hashMatch r then "VALID" else "MISMATCH");
           "Ed25519 signature: " ++ (if Verifier.sigValid r then "VALID" else "INVALID");
           Verifier.newline ++ (if Verifier.chainOk r && Verifier.sigValid r
                                then "ALL CHECKS PASSED" else "VERIFICATION FAILED")]
        /\ Verifier.exit_code r = 0
        /\ Verifier.hashMatch r
           = JS.strict_equal (JStr (sha256 (Chain.joined_hashes events)))
                             (JS.get cert "chain_hash")).
Proof.
  split; [by_evaluation|]. split; [by_evaluation|].
  intros cert events pubKeyInfo r. unfold Verifier.verifyScript.
  destruct (Verifier.joined_hashes events) as [hashes|] eqn:J; try discriminate.
  apply ResultFacts.joined_ok in J. subst hashes.
  destruct (Buffer_from_hex (JS.get pubKeyInfo "public_key")); try discriminate.
  destruct (Verifier.createPublicKey b); try discriminate.
  destruct (Buffer_from_hex (JS.get cert "signature")); try discriminate.
  intros [= <-]. repeat split.
Qed.

(** ** Chain-integrity verification *)

Module IntegrityFacts.

Lemma expectations_cons (first : value) (e : obj) (es : list obj) :
  expectations first (e :: es) = (first, e) :: expectations (JS.get e "event_hash") es.
Proof. reflexivity. Qed.

Lemma broken_links_cons (first : value) (e : obj) (es : list obj) :
  broken_links first (e :: es)
  = ((if negb (JS.strict_equal (JS.get e "prev_hash") first) then [e] else [])
     ++ broken_links (JS.get e "event_hash") es)%list.
Proof.
  unfold broken_links. rewrite expectations_cons. cbn [filter].
  unfold link_ok at 1. cbn [fst snd].
  destruct (JS.strict_equal (JS.get e "prev_hash") first); reflexivity.
Qed.

(** The loop pushes the messages of the broken links, in order. *)
Lemma scan_spec (es : list obj) :
  forall first acc,
    Integrity.scan first es acc
    = bind (JS.map_result mismatch_message (broken_links first es))
           (fun messages => Ok (acc ++ messages)%list).
Proof.
  induction es as [|e es IH]; intros first acc.
  - cbn. now rewrite app_nil_r.
  - rewrite broken_links_cons. cbn [Integrity.scan].
    destruct (negb (JS.strict_equal (JS.get e "prev_hash") first)); cbn [List.app bind].
    + cbn [JS.map_result]. unfold mismatch_message at 1.
      destruct (JS.to_string (JS.get e "seq")) as [s|err]; cbn [bind]; [|reflexivity].
      rewrite IH.
      destruct (JS.map_result mismatch_message _); cbn [bind]; [|reflexivity].
      now rewrite <- app_assoc.
    + apply IH.
Qed.

Lemma no_errors_iff_all_ok (xs : list (value * obj)) :
  Nat.eqb (List.length (map snd (filter (fun x => negb (link_ok x)) xs))) 0
  = forallb link_ok xs.
Proof.
  induction xs as [|x xs IH]; simpl; [reflexivity|].
  destruct (link_ok x); simpl; [exact IH|reflexivity].
Qed.

Lemma all_ok_none_broken (first : value) (es : list obj) :
  forallb link_ok (expectations first es) = true -> broken_links first es = [].
Proof.
  unfold broken_links. induction (expectations first es) as [|x xs IH]; [reflexivity|].
  cbn [forallb filter]. intros H. apply andb_true_iff in H as [Hx Hxs].
  rewrite Hx. cbn [negb]. now apply IH.
Qed.

(** The check of the export script returns what it is to report. *)
Lemma check_spec (chain : obj) (es : list obj) : Integrity.check chain es = report chain es.
Proof.
  unfold Integrity.check, report. rewrite scan_spec.
  destruct (JS.map_result mismatch_message (broken_links (JStr GENESIS) es))
    as [messages|e] eqn:M; cbn [bind List.app]; [|reflexivity].
  do 2 f_equal. rewrite (ResultFacts.map_result_length _ _ _ M).
  apply no_errors_iff_all_ok.
Qed.

Lemma check_linked (chain : obj) (es : list obj) :
  forallb link_ok (expectations (JStr GENESIS) es) = true ->
  Integrity.check chain es
  = Ok (Integrity.mk (JS.get chain "id") (JS.get chain "platform")
                     (JS.get chain "event_count") true []).
Proof.
  intros H. rewrite check_spec. unfold report.
  rewrite (all_ok_none_broken _ _ H), H. reflexivity.
Qed.

Lemma check_throws (chain : obj) (es : list obj) :
  Integrity.check chain es = Throw TypeError
  <-> Exists (fun ev => JS.to_string (JS.get ev "seq") = Throw TypeError)
             (broken_links (JStr GENESIS) es).
Proof.
  rewrite check_spec. unfold report. split.
  - destruct (JS.map_result mismatch_message _) as [messages|e] eqn:M; cbn [bind];
      [discriminate|].
    intros _. apply ResultFacts.map_result_throw in M as (ev & Hin & Hev).
    apply Exists_exists. exists ev. split; [exact Hin|].
    unfold mismatch_message in Hev.
    destruct (JS.to_string (JS.get ev "seq")) as [t|[]]; [discriminate|reflexivity].
  - intros H. apply Exists_exists in H as (ev & Hin & Hev).
    rewrite (ResultFacts.map_result_throws mismatch_message _ ev Hin); [reflexivity|].
    unfold mismatch_message. now rewrite Hev.
Qed.

Lemma linkage_spec (es : list obj) :
  forall first, Integrity.linkage first es = forallb link_ok (expectations first es).
Proof.
  induction es as [|e es IH]; intros first; [reflexivity|].
  rewrite expectations_cons. cbn [Integrity.linkage forallb].
  unfold link_ok at 1. cbn [fst snd].
  destruct (JS.strict_equal (JS.get e "prev_hash") first); cbn [negb andb];
    [apply IH|reflexivity].
Qed.

Lemma links_spec (es : list obj) :
  forall previous ok,
    Verifier.links previous es ok
    = ok && forallb link_ok (expectations (expected_after previous) es).
Proof.
  induction es as [|e es IH]; intros previous ok.
  - simpl. now rewrite andb_true_r.
  - rewrite expectations_cons. cbn [Verifier.links forallb]. rewrite IH.
    cbn [expected_after]. unfold link_ok at 2. cbn [fst snd].
    change (match previous with
            | Some q => JS.get q "event_hash"
            | None => JStr GENESIS
            end) with (expected_after previous).
    destruct (JS.strict_equal (JS.get e "prev_hash") (expected_after previous));
      cbn [negb andb]; [reflexivity|now rewrite andb_false_r].
Qed.

Lemma scan_same_links (es es' : list obj) :
  Forall2 same_links es es' ->
  forall first acc, Integrity.scan first es' acc = Integrity.scan first es acc.
Proof.
  induction 1 as [|e e' es es' (Hp & Hh & Hs) F IH]; intros first acc;
    cbn [Integrity.scan]; [reflexivity|].
  rewrite Hp, Hh, Hs.
  destruct (negb (JS.strict_equal (JS.get e' "prev_hash") first));
    [destruct (JS.to_string (JS.get e' "seq"))|]; cbn [bind]; try apply IH; reflexivity.
Qed.

Lemma expectations_snoc (first : value) (es : list obj) (e : obj) :
  expectations first (es ++ [e])
  = (expectations first es
     ++ [(match es with [] => first | _ => JS.get (last es []) "event_hash" end, e)])%list.
Proof.
  revert first. induction es as [|x es IH]; intros first; [reflexivity|].
  change ((x :: es) ++ [e])%list with (x :: (es ++ [e]))%list.
  rewrite !expectations_cons, IH. cbn [app]. do 3 f_equal.
  destruct es; reflexivity.
Qed.

(** Every chain a driver can hold passes the check. *)
Lemma run_links_ok (id : value) (ops : list op) :
  forallb link_ok (expectations (JStr GENESIS) (Chain.events (run id ops))) = true.
Proof.
  cut (forallb link_ok (expectations (JStr GENESIS) (Chain.events (run id ops))) = true
       /\ exists h, previous_hash (Chain.events (run id ops)) = JStr h);
    [tauto|].
  apply (LinkFacts.run_invariant
           (fun c => forallb link_ok (expectations (JStr GENESIS) (Chain.events c)) = true
                     /\ exists h, previous_hash (Chain.events c) = JStr h)).
  - split; [reflexivity|]. eexists. reflexivity.
  - intros c o [Hok [h Hh]].
    destruct o as [now type agent org payload opts|]; simpl;
      [|split; [exact Hok|exists h; exact Hh]].
    pose proof (ChainFacts.append_spec c now type agent org payload opts) as S.
    destruct (Chain.append c now type agent org payload opts) as [[[c' ev] m]|e];
      [|split; [exact Hok|exists h; exact Hh]].
    destruct S as (a & o & _ & _ & -> & -> & _). split.
    + rewrite expectations_snoc, forallb_app, Hok. simpl.
      unfold link_ok. simpl fst. simpl snd.
      rewrite LinkFacts.get_prev_hash_event_of.
      change (match Chain.events c with
              | [] => JStr GENESIS
              | _ :: _ => JS.get (last (Chain.events c) []) "event_hash"
              end) with (previous_hash (Chain.events c)).
      rewrite Hh. simpl. now rewrite String.eqb_refl.
    + eexists. unfold previous_hash.
      destruct (Chain.events c ++ [_])%list eqn:E;
        [destruct (Chain.events c); discriminate E|].
      rewrite <- E, last_last. apply LinkFacts.get_event_hash_event_of.
Qed.

End IntegrityFacts.

(** C6, refuted as stated.  Event 2's payload is overwritten in storage and
    its stored hash no longer equals the hash recomputed from its fields;
    the export script's check, the walkthrough's and the generated
    verifier's all read the chain as valid and report no sequence number. *)
Lemma payload_mutation_is_not_reported :
  JS.get (nth 1 tampered_events []) "payload" = JObj [("x", JNum 99)]
  /\ recomputed_event_hash demo_event_2
     = "404881d1976d36c9ee93538842b900ca05f93fef09dc2ea2b3a6bf09ef16f6cb"
  /\ recomputed_event_hash (nth 1 tampered_events [])
     = "659c2dde07ee47fd9561bb9a09b932e5523a5cabca446683e326b2211f3d27d6"
  /\ JS.get (nth 1 tampered_events []) "event_hash"
     <> JStr (recomputed_event_hash (nth 1 tampered_events []))
  /\ Integrity.integrityResults [([("id", JStr "demo")], tampered_events)]
     = Ok [Integrity.mk (JStr "demo") JUndefined JUndefined true []]
  /\ Integrity.linkage (JStr GENESIS) tampered_events = true
  /\ Verifier.links None tampered_events true = true.
Proof.
  split; [reflexivity|]. split; [by_evaluation|].
  assert (recomputed_event_hash (nth 1 tampered_events []) = "659c2dde07ee47fd9561bb9a09b932e5523a5cabca446683e326b2211f3d27d6")
    as H by by_evaluation.
  split; [exact H|]. split; [rewrite H; discriminate|].
  split; [by_evaluation|]. split; by_evaluation.
Qed.

(** C6, amended.  Chain-integrity verification reads each event's stored
    [prev_hash] and [event_hash] and nothing else of the event but its
    [seq], for the message.  The export script's check pushes one message
    for every event whose [prev_hash] differs from the [event_hash] stored
    in the event before it (the genesis hash for the first), all of them, in
    order, and the chain is valid exactly when there is none; building a
    message converts the event's [seq] to a string, and the check throws a
    TypeError exactly when that conversion throws at a broken link.  The
    walkthrough's loop stops at the first broken link and the generated
    verifier's loop runs through all events; both keep a verdict only, the
    same one, and name no event.  Every chain built by the driver is valid
    with no message.  No event hash is recomputed: events that agree on
    [prev_hash], [event_hash] and [seq] give the same result whatever their
    payloads. *)
Theorem integrity_check_reports_broken_links (chain : obj) (es : list obj) :
  Integrity.check chain es = report chain es
  /\ (Integrity.check chain es = Throw TypeError
      <-> Exists (fun ev => JS.to_string (JS.get ev "seq") = Throw TypeError)
                 (broken_links (JStr GENESIS) es))
  /\ Integrity.linkage (JStr GENESIS) es = forallb link_ok (expectations (JStr GENESIS) es)
  /\ Verifier.links None es true = forallb link_ok (expectations (JStr GENESIS) es)
  /\ (forall es', Forall2 same_links es es' ->
        Integrity.check chain es' = Integrity.check chain es)
  /\ (forall id ops,
        Integrity.check chain (Chain.events (run id ops))
        = Ok (Integrity.mk (JS.get chain "id") (JS.get chain "platform")
                           (JS.get chain "event_count") true [])).
Proof.
  split; [apply IntegrityFacts.check_spec|].
  split; [apply IntegrityFacts.check_throws|].
  split; [apply IntegrityFacts.linkage_spec|].
  split; [rewrite IntegrityFacts.links_spec; reflexivity|].
  split.
  - intros es' F. unfold Integrity.check.
    now rewrite (IntegrityFacts.scan_same_links es es' F).
  - intros id ops. apply IntegrityFacts.check_linked, IntegrityFacts.run_links_ok.
Qed.

(** C6, witness: the tampered demo chain agrees with the original on what
    the check reads, so it gets the original's result. *)
Lemma integrity_check_reports_broken_links_witness :
  Integrity.check [("id", JStr "demo")] tampered_events
  = Integrity.check [("id", JStr "demo")] demo_events.
Proof.
  destruct (integrity_check_reports_broken_links [("id", JStr "demo")] demo_events)
    as (_ & _ & _ & _ & H & _).
  apply H. repeat constructor.
Defined.

(** * Further properties of the code

    Invariants of [Chain] under any driver, the round trips between
    [CertIssuer], the artifacts [runDemo] commits and the generated
    verifier, the edges of [verify], the export script's [main] and
    [summarizePayload], what a canonical text determines, and the framing
    of the dashboard's event stream. *)

(** ** Hexadecimal text and byte ranges *)

Module HexFacts.

Lemma hex_value_digit (d : Z) : 0 <= d < 16 -> Bytes.hex_value (Bytes.hex_digit d) = Some d.
Proof.
  intros H.
  assert (d = 0 \/ d = 1 \/ d = 2 \/ d = 3 \/ d = 4 \/ d = 5 \/ d = 6 \/ d = 7 \/ d = 8
          \/ d = 9 \/ d = 10 \/ d = 11 \/ d = 12 \/ d = 13 \/ d = 14 \/ d = 15) as C by lia.
  repeat (destruct C as [-> | C]; [reflexivity|]). subst; reflexivity.
Qed.

Lemma hex_of_byte (x : Z) :
  Bytes.hex_of 2 x
  = String (Bytes.hex_digit ((x / 16) mod 16)) (String (Bytes.hex_digit (x mod 16)) "").
Proof.
  unfold Bytes.hex_of. change (16 ^ Z.of_nat 1) with 16. change (16 ^ Z.of_nat 0) with 1.
  now rewrite Z.div_1_r.
Qed.

Lemma from_hex_to_hex (b : Bytes.buffer) :
  Forall is_byte b -> Bytes.from_hex (Bytes.to_hex b) = b.
Proof.
  induction 1 as [|x r Hx _ IH]; [reflexivity|].
  cbn [Bytes.to_hex]. rewrite hex_of_byte. cbn [String.append Bytes.from_hex].
  unfold is_byte in Hx.
  rewrite !hex_value_digit by (apply Z.mod_pos_bound; lia).
  rewrite IH. f_equal.
  rewrite (Z.mod_small (x / 16)) by (split; [apply Z.div_pos; lia | apply Z.div_lt_upper_bound; lia]).
  pose proof (Z.div_mod x 16 ltac:(lia)). lia.
Qed.

Lemma to_hex_length (b : Bytes.buffer) :
  String.length (Bytes.to_hex b) = (2 * List.length b)%nat.
Proof.
  induction b as [|x r IH]; [reflexivity|].
  cbn [Bytes.to_hex]. rewrite hex_of_byte. cbn [String.append String.length List.length].
  rewrite IH. lia.
Qed.

Lemma le_bytes_bytes (n : nat) : forall z, Forall is_byte (Bytes.le_bytes n z).
Proof.
  induction n as [|n IH]; intros z; cbn [Bytes.le_bytes]; constructor; [|apply IH].
  apply Z.mod_pos_bound. lia.
Qed.

Lemma le_bytes_length (n : nat) : forall z, List.length (Bytes.le_bytes n z) = n.
Proof. induction n as [|n IH]; intros z; cbn [Bytes.le_bytes List.length]; [|rewrite IH]; reflexivity. Qed.

Lemma be_bytes_bytes (n : nat) (z : Z) : Forall is_byte (Bytes.be_bytes n z).
Proof.
  induction n as [|n IH]; cbn [Bytes.be_bytes]; constructor; [|apply IH].
  apply Z.mod_pos_bound. lia.
Qed.

Lemma be_bytes_length (n : nat) (z : Z) : List.length (Bytes.be_bytes n z) = n.
Proof. induction n as [|n IH]; cbn [Bytes.be_bytes List.length]; [|rewrite IH]; reflexivity. Qed.

Lemma encode_bytes (P : Ed25519.point) :
  Forall is_byte (Ed25519.encode P) /\ List.length (Ed25519.encode P) = 32%nat.
Proof.
  destruct P as [[[X Y] Z0] T]. unfold Ed25519.encode.
  split; [apply le_bytes_bytes | apply le_bytes_length].
Qed.

Lemma sign_bytes (seed msg : Bytes.buffer) :
  Forall is_byte (Ed25519.sign seed msg) /\ List.length (Ed25519.sign seed msg) = 64%nat.
Proof.
  unfold Ed25519.sign. cbv zeta. split.
  - apply Forall_app. split; [apply encode_bytes | apply le_bytes_bytes].
  - rewrite length_app, le_bytes_length. rewrite (proj2 (encode_bytes _)). reflexivity.
Qed.

Lemma digest_bytes (v : SHA2.variant) (K H0 : list Z) (msg : Bytes.buffer) :
  Forall is_byte (SHA2.digest v K H0 msg)
  /\ List.length (SHA2.digest v K H0 msg) = (8 * SHA2.wbytes v)%nat.
Proof.
  unfold SHA2.digest. cbv zeta.
  destruct (fold_left _ _ _) as [[[[[[[a b] c] d] e] f] g] h].
  cbn [flat_map]. split.
  - repeat (apply Forall_app; split; [apply be_bytes_bytes|]). constructor.
  - rewrite !length_app, !be_bytes_length. cbn [List.length]. lia.
Qed.

End HexFacts.

(** ** Chains under any driver *)

Module RunFacts.
Import ChainFacts LinkFacts.

Lemma exec_cases (c : Chain.t) (o : op) :
  (exists a w now type agent org payload opts,
      o = Append now type agent org payload opts
      /\ appends_event o = true
      /\ Chain.events (exec c o)
         = (Chain.events c
            ++ [event_of (S (List.length (Chain.events c))) now type agent org payload
                         (previous_hash (Chain.events c)) a w])%list)
  \/ (appends_event o = false /\ Chain.events (exec c o) = Chain.events c).
Proof.
  destruct o as [now type agent org payload opts|]; [|right; split; reflexivity].
  cbn [exec]. pose proof (append_spec c now type agent org payload opts) as S.
  destruct (Chain.append c now type agent org payload opts) as [[[c' ev] m]|e].
  - destruct S as (a & w & Ha & _ & -> & -> & _). left.
    exists a, w, now, type, agent, org, payload, opts. repeat split.
    destruct opts; try reflexivity. discriminate Ha.
  - destruct S as [_ ->]. right. split; reflexivity.
Qed.

Lemma fold_exec_extends (ops : list op) :
  forall c, exists more, Chain.events (fold_left exec ops c) = (Chain.events c ++ more)%list.
Proof.
  induction ops as [|o ops IH]; intros c; cbn [fold_left].
  - exists []. now rewrite app_nil_r.
  - destruct (IH (exec c o)) as [more ->].
    destruct (exec_cases c o) as [(a & w & now & type & agent & org & payload & opts & _ & _ & ->)
                                 | [_ ->]].
    + eexists. rewrite <- app_assoc. reflexivity.
    + now exists more.
Qed.

Lemma fold_exec_count (ops : list op) :
  forall c, List.length (Chain.events (fold_left exec ops c))
            = (List.length (Chain.events c) + List.length (filter appends_event ops))%nat.
Proof.
  induction ops as [|o ops IH]; intros c; cbn [fold_left filter].
  - cbn. lia.
  - rewrite IH.
    destruct (exec_cases c o) as [(a & w & now & type & agent & org & payload & opts & _ & E & ->)
                                 | [E ->]]; rewrite E.
    + rewrite length_app. cbn [List.length]. lia.
    + reflexivity.
Qed.

Lemma all_chars_app (p : ascii -> bool) (s t : string) :
  all_chars p (s ++ t) = all_chars p s && all_chars p t.
Proof.
  induction s as [|c s IH]; [reflexivity|].
  cbn [String.append all_chars]. rewrite IH. now rewrite andb_assoc.
Qed.

Lemma lower_hex_digit (d : Z) : 0 <= d < 16 -> lower_hex (Bytes.hex_digit d) = true.
Proof.
  intros H.
  assert (d = 0 \/ d = 1 \/ d = 2 \/ d = 3 \/ d = 4 \/ d = 5 \/ d = 6 \/ d = 7 \/ d = 8
          \/ d = 9 \/ d = 10 \/ d = 11 \/ d = 12 \/ d = 13 \/ d = 14 \/ d = 15) as C by lia.
  repeat (destruct C as [-> | C]; [reflexivity|]). subst; reflexivity.
Qed.

Lemma to_hex_lower (b : Bytes.buffer) : all_chars lower_hex (Bytes.to_hex b) = true.
Proof.
  induction b as [|x r IH]; [reflexivity|].
  cbn [Bytes.to_hex]. rewrite HexFacts.hex_of_byte. cbn [String.append all_chars].
  rewrite !lower_hex_digit by (apply Z.mod_pos_bound; lia). exact IH.
Qed.

Lemma sha256_hex64 (data : string) : hex64 (JStr (sha256 data)) = true.
Proof.
  unfold hex64, sha256. rewrite HexFacts.to_hex_length, to_hex_lower.
  unfold SHA2.sha256_bytes. rewrite (proj2 (HexFacts.digest_bytes _ _ _ _)). reflexivity.
Qed.

Lemma hex64_text (v : value) :
  hex64 v = true -> exists s, v = JStr s /\ String.length s = 64%nat.
Proof.
  destruct v; try discriminate. cbn [hex64]. intros H. apply andb_true_iff in H as [L _].
  apply Nat.eqb_eq in L. eauto.
Qed.

Lemma run_event_hashes_hex64 (id : value) (ops : list op) :
  forallb (fun e => hex64 (JS.get e "event_hash")) (Chain.events (run id ops)) = true.
Proof.
  apply (LinkFacts.run_invariant
           (fun c => forallb (fun e => hex64 (JS.get e "event_hash")) (Chain.events c) = true)).
  - reflexivity.
  - intros c o IH.
    destruct (RunFacts.exec_cases c o)
      as [(a & w & now & type & agent & org & payload & opts & _ & _ & ->) | [_ ->]];
      [|exact IH].
    rewrite forallb_app, IH. cbn [forallb andb].
    rewrite LinkFacts.get_event_hash_event_of, RunFacts.sha256_hex64. reflexivity.
Qed.

End RunFacts.

(** X1.  Sequence numbers.  In the chain held after any sequence of calls,
    the events are numbered 1, 2, ..., n in the order they were appended:
    the i-th event's [sequence] is i. *)

Theorem run_sequence_numbers (id : value) (ops : list op) :
  map (fun e => JS.get e "sequence") (Chain.events (run id ops))
  = map (fun k => JNum (Z.of_nat k)) (seq 1 (List.length (Chain.events (run id ops)))).
Proof.
  apply (LinkFacts.run_invariant
           (fun c => map (fun e => JS.get e "sequence") (Chain.events c)
                     = map (fun k => JNum (Z.of_nat k)) (seq 1 (List.length (Chain.events c))))).
  - reflexivity.
  - intros c o IH.
    destruct (RunFacts.exec_cases c o)
      as [(a & w & now & type & agent & org & payload & opts & _ & _ & ->) | [_ ->]];
      [|exact IH].
    rewrite length_app, map_app, IH. cbn [List.length].
    rewrite seq_app, map_app. reflexivity.
Qed.

(** X2.  Round trip of the event hash.  In the chain held after any sequence
    of calls, every stored [event_hash] is the SHA-256 digest of the
    canonical serialization of the record
    [{seq, event_type, agent_name, timestamp, payload, prev_hash}] read back
    from the event's own stored fields. *)

Theorem run_event_hashes_recomputable (id : value) (ops : list op) :
  Forall (fun e => JS.get e "event_hash" = JStr (recomputed_event_hash e))
         (Chain.events (run id ops)).
Proof.
  apply (LinkFacts.run_invariant
           (fun c => Forall (fun e => JS.get e "event_hash" = JStr (recomputed_event_hash e))
                            (Chain.events c))).
  - constructor.
  - intros c o IH.
    destruct (RunFacts.exec_cases c o)
      as [(a & w & now & type & agent & org & payload & opts & _ & _ & ->) | [_ ->]];
      [|exact IH].
    apply Forall_app. split; [exact IH|]. constructor; [|constructor].
    reflexivity.
Qed.

(** X3.  Append-only.  Whatever calls follow, the events recorded so far
    stay where they are, unchanged: the event list after more calls is the
    earlier list with events added at the end.  The number of events is the
    number of [append] calls that were not given [null] options (those
    throw); [resolve] adds none. *)

Theorem run_append_only (id : value) (ops more_ops : list op) :
  (exists more,
     Chain.events (run id (ops ++ more_ops)%list) = (Chain.events (run id ops) ++ more)%list)
  /\ List.length (Chain.events (run id ops)) = List.length (filter appends_event ops).
Proof.
  split.
  - unfold run. rewrite fold_left_app. apply RunFacts.fold_exec_extends.
  - unfold run. rewrite RunFacts.fold_exec_count. reflexivity.
Qed.

(** X4.  Shape of the hashes.  In the chain held after any sequence of
    calls, every [event_hash] and every [prev_hash] is a string of exactly
    64 lowercase hexadecimal digits, and so are the chain hash [resolve]
    stores and the genesis value. *)

Theorem run_hashes_are_hex64 (id : value) (ops : list op) :
  forallb (fun e => hex64 (JS.get e "event_hash") && hex64 (JS.get e "prev_hash"))
          (Chain.events (run id ops)) = true
  /\ hex64 (Chain.chainHash (fst (Chain.resolve (run id ops)))) = true
  /\ hex64 (JStr GENESIS) = true.
Proof.
  split; [|split; [apply RunFacts.sha256_hex64 | reflexivity]].
  apply (LinkFacts.run_invariant
           (fun c => forallb (fun e => hex64 (JS.get e "event_hash")
                                       && hex64 (JS.get e "prev_hash"))
                             (Chain.events c) = true)).
  - reflexivity.
  - intros c o IH.
    destruct (RunFacts.exec_cases c o)
      as [(a & w & now & type & agent & org & payload & opts & _ & _ & ->) | [_ ->]];
      [|exact IH].
    rewrite forallb_app, IH. cbn [forallb andb].
    rewrite LinkFacts.get_prev_hash_event_of, LinkFacts.get_event_hash_event_of.
    rewrite RunFacts.sha256_hex64. cbn [andb]. rewrite andb_true_r.
    assert (forall l : list obj, l <> [] ->
              forallb (fun e => hex64 (JS.get e "event_hash") && hex64 (JS.get e "prev_hash")) l
              = true -> hex64 (JS.get (last l []) "event_hash") = true) as L.
    { induction l as [|x l IHl]; [congruence|]. intros _ H. cbn [forallb] in H.
      apply andb_prop in H. destruct H as [Hx Hl].
      destruct l as [|y l]; [now apply andb_prop in Hx|].
      change (last (x :: y :: l) []) with (last (y :: l) ([] : obj)).
      apply IHl; [discriminate|exact Hl]. }
    unfold previous_hash. revert IH. destruct (Chain.events c) as [|e es]; [reflexivity|].
    apply L. discriminate.
Qed.

(** ** Issuer, artifacts and verifier *)

Module IssueFacts.

Lemma spki_header_value :
  CertIssuer.spki_header = [48; 42; 48; 5; 6; 3; 43; 101; 112; 3; 33; 0]%list.
Proof. reflexivity. Qed.

Lemma issue_signature (i : CertIssuer.t) (now : string) (c : Chain.t) :
  JS.get (CertIssuer.issue i now c) "signature"
  = JStr (Bytes.to_hex (Ed25519.sign (CertIssuer.priv i)
                          (Bytes.utf8 (canonicalize_object (CertIssuer.data_of c now))))).
Proof. reflexivity. Qed.

Lemma rest_of_issue (i : CertIssuer.t) (now : string) (c : Chain.t) :
  CertIssuer.rest_of (CertIssuer.issue i now c) = CertIssuer.data_of c now.
Proof. reflexivity. Qed.

Lemma verify_issue (i : CertIssuer.t) (now : string) (c : Chain.t) :
  CertIssuer.verify i (CertIssuer.issue i now c)
  = CertIssuer.Returns
      (Ed25519.verify (CertIssuer.pub i)
         (Bytes.utf8 (canonicalize_object (CertIssuer.data_of c now)))
         (Ed25519.sign (CertIssuer.priv i)
            (Bytes.utf8 (canonicalize_object (CertIssuer.data_of c now))))).
Proof.
  unfold CertIssuer.verify. rewrite issue_signature, rest_of_issue.
  cbn [Buffer_from_hex].
  rewrite HexFacts.from_hex_to_hex by apply HexFacts.sign_bytes.
  reflexivity.
Qed.

Lemma public_of_seed_bytes (seed : Bytes.buffer) :
  Forall is_byte (Ed25519.public_of_seed seed)
  /\ List.length (Ed25519.public_of_seed seed) = 32%nat.
Proof. apply HexFacts.encode_bytes. Qed.

Lemma createPublicKey_spki (pk : Bytes.buffer) :
  List.length pk = 32%nat ->
  Verifier.createPublicKey (CertIssuer.spki_header ++ pk)%list = Some pk.
Proof.
  intros H. unfold Verifier.createPublicKey. rewrite spki_header_value.
  rewrite length_app, H. reflexivity.
Qed.

Lemma import_exported_key (seed : Bytes.buffer) :
  Bytes.from_hex (CertIssuer.pubHex (CertIssuer.new seed))
  = (CertIssuer.spki_header ++ CertIssuer.pub (CertIssuer.new seed))%list.
Proof.
  cbn [CertIssuer.new CertIssuer.pubHex CertIssuer.pub].
  apply HexFacts.from_hex_to_hex. apply Forall_app. split.
  - rewrite spki_header_value. repeat constructor; unfold is_byte; lia.
  - apply public_of_seed_bytes.
Qed.

Lemma objects_map (es : list obj) : objects (map JObj es) = Some es.
Proof. induction es as [|e es IH]; [reflexivity|]. cbn [map objects]. now rewrite IH. Qed.

End IssueFacts.

(** X5.  Issue, then verify.  For every issuer and chain, stripping
    [signature] and [public_key] from the certificate [issue] returns gives
    back exactly the fields that were signed, and [verify] on that
    certificate returns (it does not throw) the result of checking, under
    the issuer's public key, the very signature [issue] produced over the
    very bytes it signed: the hexadecimal round trip of the signature loses
    nothing. *)

Theorem verify_checks_what_issue_signed (i : CertIssuer.t) (now : string) (c : Chain.t) :
  CertIssuer.rest_of (CertIssuer.issue i now c) = CertIssuer.data_of c now
  /\ CertIssuer.verify i (CertIssuer.issue i now c)
     = CertIssuer.Returns
         (crypto_verify (Bytes.utf8 (canonicalize_object (CertIssuer.data_of c now)))
            (CertIssuer.pub i)
            (crypto_sign (Bytes.utf8 (canonicalize_object (CertIssuer.data_of c now)))
               (CertIssuer.priv i))).
Proof. split; [reflexivity | apply IssueFacts.verify_issue]. Qed.

(** X6.  The exported key.  For every key pair the constructor generates,
    [pubHex] is 88 lowercase hexadecimal digits (the 12-byte SPKI header and
    the 32-byte key), and importing it the way the generated verifier does
    ([Buffer.from(..., 'hex')], then [createPublicKey]) yields the issuer's
    own public key. *)

Theorem exported_public_key_imports_back (seed : Bytes.buffer) :
  String.length (CertIssuer.pubHex (CertIssuer.new seed)) = 88%nat
  /\ all_chars lower_hex (CertIssuer.pubHex (CertIssuer.new seed)) = true
  /\ List.length (CertIssuer.pub (CertIssuer.new seed)) = 32%nat
  /\ Verifier.createPublicKey (Bytes.from_hex (CertIssuer.pubHex (CertIssuer.new seed)))
     = Some (CertIssuer.pub (CertIssuer.new seed)).
Proof.
  split; [|split; [|split]].
  - cbn [CertIssuer.new CertIssuer.pubHex]. rewrite HexFacts.to_hex_length, length_app.
    rewrite (proj2 (IssueFacts.public_of_seed_bytes seed)). reflexivity.
  - apply RunFacts.to_hex_lower.
  - apply IssueFacts.public_of_seed_bytes.
  - rewrite IssueFacts.import_exported_key.
    apply IssueFacts.createPublicKey_spki, IssueFacts.public_of_seed_bytes.
Qed.

(** ** The committed documents read back *)

Module DocumentFacts.

Lemma strict_equal_read_back (a b : value) :
  JS.strict_equal (Document.read_back a) (Document.read_back b) = JS.strict_equal a b.
Proof. destruct a, b; reflexivity. Qed.

Lemma read_back_undefined (v : value) : Document.read_back v = JUndefined -> v = JUndefined.
Proof. destruct v; cbn [Document.read_back]; intros H; (reflexivity || discriminate). Qed.

Lemma lookup_read_back (k : string) (fs : obj) :
  JS.lookup k (map (fun kv : string * value => let '(k, x) := kv in (k, Document.read_back x)) fs)
  = option_map Document.read_back (JS.lookup k fs).
Proof.
  induction fs as [|[k' x] fs IH]; [reflexivity|]. cbn [map JS.lookup].
  destruct (String.eqb k k'); [reflexivity | exact IH].
Qed.

Lemma insert_index_perm (k : string) (n : Z) (l : list (string * Z)) :
  Permutation (Stream.insert_index k n l) ((k, n) :: l).
Proof.
  induction l as [|[k' n'] l IH]; cbn [Stream.insert_index]; [reflexivity|].
  destruct (n <=? n'); [reflexivity|].
  rewrite IH. apply perm_swap.
Qed.

Lemma index_keys_perm (ks : list string) :
  Permutation (map fst (Stream.index_keys ks))
              (filter (fun k => match Stream.array_index k with
                                | Some _ => true
                                | None => false
                                end) ks).
Proof.
  induction ks as [|k ks IH]; [reflexivity|]. cbn [Stream.index_keys filter].
  destruct (Stream.array_index k) as [n|]; [|exact IH].
  rewrite insert_index_perm. cbn [map fst]. now constructor.
Qed.

Lemma partition_perm {A : Type} (p : A -> bool) (l : list A) :
  Permutation (filter p l ++ filter (fun x => negb (p x)) l) l.
Proof.
  induction l as [|x l IH]; [reflexivity|]. cbn [filter].
  destruct (p x); cbn [negb List.app].
  - now constructor.
  - rewrite <- Permutation_middle. now constructor.
Qed.

(** An object enumerates each of its keys, once. *)
Lemma own_keys_perm (ks : list string) : Permutation (Stream.own_keys ks) ks.
Proof.
  unfold Stream.own_keys. rewrite index_keys_perm.
  rewrite <- (partition_perm (fun k => match Stream.array_index k with
                                       | Some _ => true
                                       | None => false
                                       end) ks) at 3.
  apply Permutation_app_head.
  assert (forall l : list string,
             filter (fun k => match Stream.array_index k with
                              | Some _ => false
                              | None => true
                              end) l
             = filter (fun k => negb match Stream.array_index k with
                                     | Some _ => true
                                     | None => false
                                     end) l) as ->; [|reflexivity].
  intros l. apply filter_ext. intros k. now destruct (Stream.array_index k).
Qed.

Lemma lookup_flat_map (k : string) (fs : obj) (keys : list string) :
  JS.lookup k (flat_map (fun k' => match JS.lookup k' fs with
                                   | Some JUndefined | None => []
                                   | Some x => [(k', x)]
                                   end) keys)
  = if existsb (String.eqb k) keys
    then match JS.lookup k fs with
         | Some JUndefined | None => None
         | Some x => Some x
         end
    else None.
Proof.
  induction keys as [|k' keys IH]; [reflexivity|]. cbn [flat_map existsb].
  destruct (String.eqb_spec k k') as [<-|N]; cbn [orb].
  - destruct (JS.lookup k fs) as [[]|] eqn:L; cbn [List.app JS.lookup];
      rewrite ?String.eqb_refl; try reflexivity;
      rewrite IH; now destruct (existsb (String.eqb k) keys).
  - destruct (JS.lookup k' fs) as [[]|]; cbn [List.app JS.lookup];
      try (apply String.eqb_neq in N; rewrite N); exact IH.
Qed.

Lemma lookup_kept (k : string) (fs : obj) :
  JS.lookup k (Document.kept fs)
  = match JS.lookup k fs with
    | Some JUndefined | None => None
    | Some x => Some x
    end.
Proof.
  unfold Document.kept. rewrite lookup_flat_map.
  destruct (existsb (String.eqb k) (Stream.own_keys (JS.keys fs))) eqn:E; [reflexivity|].
  rewrite CanonFacts.lookup_none; [reflexivity|].
  intros Hin. apply (Permutation_in _ (Permutation_sym (own_keys_perm _))) in Hin.
  assert (existsb (String.eqb k) (Stream.own_keys (JS.keys fs)) = true) as T
    by (apply existsb_exists; exists k; split; [exact Hin | apply String.eqb_refl]).
  congruence.
Qed.

(** A property read from the document read back is the property of the
    written object, read back. *)
Lemma get_read_back (o : obj) (k : string) :
  JS.get (Document.read_back_object o) k = Document.read_back (JS.get o k).
Proof.
  unfold JS.get, Document.read_back_object. rewrite lookup_kept, lookup_read_back.
  destruct (JS.lookup k o) as [x|]; cbn [option_map]; [|reflexivity].
  destruct (Document.read_back x) eqn:R; reflexivity.
Qed.


Lemma keys_read_back (fs : obj) :
  JS.keys (map (fun kv : string * value => let '(k, x) := kv in (k, Document.read_back x)) fs)
  = JS.keys fs.
Proof. unfold JS.keys. rewrite map_map. apply map_ext. now intros [k x]. Qed.

Lemma flat_map_keys (fs : obj) :
  NoDup (JS.keys fs) -> Forall (fun kv => snd kv <> JUndefined) fs ->
  flat_map (fun k => match JS.lookup k fs with
                     | Some JUndefined | None => []
                     | Some x => [(k, x)]
                     end) (JS.keys fs)
  = fs.
Proof.
  intros N D.
  assert (forall l : obj,
             Forall (fun kv => In kv fs) l ->
             flat_map (fun k => match JS.lookup k fs with
                                | Some JUndefined | None => []
                                | Some x => [(k, x)]
                                end) (JS.keys l) = l) as G.
  { induction l as [|[k x] l IH]; intros F; [reflexivity|].
    inversion F as [|? ? Hin F']; subst. cbn [JS.keys map flat_map fst].
    rewrite (CanonFacts.lookup_in k fs x N Hin).
    rewrite Forall_forall in D. pose proof (D _ Hin) as Dx. cbn [snd] in Dx.
    change (map fst l) with (JS.keys l). rewrite (IH F').
    destruct x; try reflexivity. now destruct Dx. }
  apply G. apply Forall_forall. auto.
Qed.

(** With no value [undefined], the object read back holds the properties
    that were written, in the order of enumeration. *)
Lemma kept_perm (fs : obj) :
  NoDup (JS.keys fs) -> Forall (fun kv => snd kv <> JUndefined) fs ->
  Permutation (Document.kept fs) fs.
Proof.
  intros N D. unfold Document.kept.
  rewrite (Permutation_flat_map _ (own_keys_perm (JS.keys fs))).
  now rewrite flat_map_keys.
Qed.

Lemma own_keys_plain (ks : list string) :
  forallb (fun k => match Stream.array_index k with Some _ => false | None => true end) ks
  = true ->
  Stream.own_keys ks = ks.
Proof.
  intros H. unfold Stream.own_keys.
  assert (Stream.index_keys ks = []) as ->.
  { induction ks as [|k ks IH]; [reflexivity|]. cbn [forallb] in H.
    apply andb_true_iff in H as [Hk Hks]. cbn [Stream.index_keys].
    destruct (Stream.array_index k); [discriminate | now apply IH]. }
  cbn [map List.app]. induction ks as [|k ks IH]; [reflexivity|].
  cbn [forallb] in H. apply andb_true_iff in H as [Hk Hks].
  cbn [filter]. rewrite Hk. now rewrite (IH Hks).
Qed.

(** An object none of whose keys is an array index, with no value
    [undefined], is read back with its properties in the order written. *)
Lemma kept_plain (fs : obj) :
  forallb (fun k => match Stream.array_index k with Some _ => false | None => true end)
          (JS.keys fs) = true ->
  NoDup (JS.keys fs) -> Forall (fun kv => snd kv <> JUndefined) fs ->
  Document.kept fs = fs.
Proof.
  intros P N D. unfold Document.kept. rewrite (own_keys_plain _ P). now apply flat_map_keys.
Qed.

(** A value that [JSON.parse] could have yielded is read back with the
    canonical text it was written from. *)
Lemma canonicalize_read_back :
  forall v, well_formed v = true -> defined v = true ->
            canonicalize (Document.read_back v) = canonicalize v.
Proof.
  apply (CanonFacts.value_induction
           (fun v => well_formed v = true -> defined v = true ->
                     canonicalize (Document.read_back v) = canonicalize v));
    try reflexivity.
  - intros l IH W D. cbn [Document.read_back canonicalize]. do 3 f_equal.
    cbn [well_formed defined] in W, D. rewrite forallb_forall in W, D.
    rewrite map_map. f_equal. apply map_ext_in. intros x Hin.
    rewrite Forall_forall in IH.
    rewrite <- (IH x Hin (W x Hin) (D x Hin)).
    pose proof (D x Hin) as Dx. destruct x; try reflexivity. discriminate Dx.
  - intros fs IH W D.
    destruct (CanonFacts.well_formed_obj fs W) as [N Ws].
    cbn [defined] in D. rewrite forallb_forall in D.
    set (fs' := map (fun kv : string * value =>
                       let '(k, x) := kv in (k, Document.read_back x)) fs).
    change (Some (object_text (render (Document.kept fs'))) = Some (object_text (render fs))).
    f_equal.
    assert (render fs' = render fs) as R.
    { unfold fs', render. rewrite map_map. apply map_ext_in. intros [k x] Hin.
      rewrite Forall_forall in IH, Ws.
      pose proof (IH _ Hin (Ws _ Hin) (D _ Hin)) as E. cbn [snd] in E.
      now rewrite E. }
    rewrite <- R. symmetry. apply CanonFacts.object_text_perm.
    + rewrite CanonFacts.keys_render. unfold fs'. now rewrite keys_read_back.
    + apply Permutation_map, Permutation_sym, kept_perm.
      * unfold fs'. now rewrite keys_read_back.
      * unfold fs'. apply Forall_map, Forall_forall. intros [k x] Hin. cbn [snd].
        intros U. apply read_back_undefined in U. subst x.
        specialize (D _ Hin). discriminate D.
Qed.

End DocumentFacts.

Module CommitFacts.

Lemma links_read_back (es : list obj) :
  forall previous ok,
    Verifier.links (option_map Document.read_back_object previous)
                   (map Document.read_back_object es) ok
    = Verifier.links previous es ok.
Proof.
  induction es as [|e es IH]; intros previous ok; [reflexivity|].
  cbn [map Verifier.links].
  rewrite <- (IH (Some e)). cbn [option_map]. f_equal.
  rewrite DocumentFacts.get_read_back.
  destruct previous as [q|]; cbn [option_map].
  - now rewrite DocumentFacts.get_read_back, DocumentFacts.strict_equal_read_back.
  - change (JStr GENESIS) with (Document.read_back (JStr GENESIS)) at 1.
    now rewrite DocumentFacts.strict_equal_read_back.
Qed.

Lemma joined_read_back (es : list obj) :
  forallb (fun e => hex64 (JS.get e "event_hash")) es = true ->
  Verifier.joined_hashes (map Document.read_back_object es) = Ok (Chain.joined_hashes es).
Proof.
  intros H. rewrite forallb_forall in H.
  rewrite ResultFacts.joined_strings.
  - f_equal. unfold Chain.joined_hashes. f_equal. rewrite map_map. apply map_ext_in.
    intros e Hin. rewrite DocumentFacts.get_read_back.
    destruct (RunFacts.hex64_text _ (H e Hin)) as (h & -> & _). reflexivity.
  - apply Forall_map, Forall_forall. intros e Hin. rewrite DocumentFacts.get_read_back.
    destruct (RunFacts.hex64_text _ (H e Hin)) as (h & -> & _). now exists h.
Qed.

Lemma events_read_back (c : Chain.t) :
  events_of (Document.read_back_object (Walkthrough.execution_chain_json c))
  = Some (map Document.read_back_object (Chain.events c)).
Proof.
  unfold events_of. rewrite DocumentFacts.get_read_back.
  change (JS.get (Walkthrough.execution_chain_json c) "events")
    with (JArr (map JObj (Chain.events c))).
  cbn [Document.read_back]. rewrite map_map.
  change (fun x : obj => Document.read_back (JObj x))
    with (fun x : obj => JObj (Document.read_back_object x)).
  rewrite <- (map_map Document.read_back_object JObj). apply IssueFacts.objects_map.
Qed.

(** The certificate read back: the one issued, with its chain id read
    back. *)
Lemma certificate_read_back (i : CertIssuer.t) (now : string) (c : Chain.t) :
  Chain.id c <> JUndefined -> Chain.chainHash c <> JUndefined ->
  Document.read_back_object (CertIssuer.issue i now c)
  = map (fun kv : string * value => let '(k, x) := kv in (k, Document.read_back x))
        (CertIssuer.issue i now c).
Proof.
  intros Hi Hh. apply DocumentFacts.kept_plain.
  - reflexivity.
  - apply CanonFacts.nodupb_NoDup. reflexivity.
  - cbn [CertIssuer.issue CertIssuer.data_of map List.app].
    repeat constructor; cbn [snd]; try discriminate;
      intros U; apply DocumentFacts.read_back_undefined in U; contradiction.
Qed.

Lemma run_id (id : value) (ops : list op) : Chain.id (run id ops) = id.
Proof.
  apply (LinkFacts.run_invariant (fun c => Chain.id c = id)); [reflexivity|].
  intros c o H. destruct o as [now type agent org payload opts|]; [|exact H].
  cbn [exec]. pose proof (ChainFacts.append_spec c now type agent org payload opts) as S.
  destruct (Chain.append c now type agent org payload opts) as [[[c' ev] m]|e];
    [|exact H].
  destruct S as (a & w & _ & _ & _ & _ & -> & _). exact H.
Qed.

Lemma defined_value (v : value) : defined v = true -> v <> JUndefined.
Proof. intros D ->. discriminate D. Qed.

(** The bytes the verifier checks the signature against, from the
    certificate read back, are the bytes signed. *)
Lemma signed_text_read_back (i : CertIssuer.t) (now : string) (c : Chain.t) (h : string) :
  well_formed (Chain.id c) = true -> defined (Chain.id c) = true ->
  Chain.chainHash c = JStr h ->
  canonicalize_object
    (CertIssuer.rest_of (Document.read_back_object (CertIssuer.issue i now c)))
  = canonicalize_object (CertIssuer.data_of c now).
Proof.
  intros W D H.
  rewrite certificate_read_back
    by (try (now apply defined_value); rewrite H; discriminate).
  unfold CertIssuer.issue, CertIssuer.data_of. rewrite H.
  cbn [map List.app CertIssuer.rest_of JS.without filter String.eqb Ascii.eqb Bool.eqb
       negb fst Document.read_back].
  unfold canonicalize_object.
  cbn [map]. now rewrite (DocumentFacts.canonicalize_read_back _ W D).
Qed.

End CommitFacts.

(** X7.  The verifier on the committed artifacts.  Take any issuer, any
    chain driven by any sequence of calls, and let ACT 7 run: [resolve],
    [issue], [verify], then the artifacts are written with
    [JSON.stringify].  The generated verifier, on the three documents as
    [JSON.parse] reads them back from the committed files, runs to the end;
    it finds the hash chain valid and the chain hash matching; its verdict
    is ALL CHECKS PASSED exactly when its signature check succeeds; and the
    [hash_chain_intact] flag of the verification result is its hash-chain
    result.  When the chain id is a value that [JSON.parse] could have
    yielded (no [undefined] at any depth, no key twice), the certificate
    read back has the canonical text that was signed, so the verifier's
    signature result is the value [issuer.verify(cert)] returned, which is
    also the [verified] flag written.  (A chain id that is [undefined] is
    not written to the file at all, and the hypothesis excludes it.) *)

Theorem verifier_agrees_with_issuer_on_exported_artifacts
    (seed : Bytes.buffer) (id : value) (ops : list op) (issued_at checked_at : string) :
  let i := CertIssuer.new seed in
  let c := fst (Chain.resolve (run id ops)) in
  let cert := CertIssuer.issue i issued_at c in
  exists valid events r,
    CertIssuer.verify i cert = CertIssuer.Returns valid
    /\ events_of (Document.read_back_object (Walkthrough.execution_chain_json c))
       = Some events
    /\ Verifier.verifyScript (Document.read_back_object cert) events
         (Document.read_back_object (Walkthrough.public_key_json i))
       = Verifier.Finished r
    /\ Verifier.chainOk r = true
    /\ Verifier.hashMatch r = true
    /\ Verifier.verdict r
       = Verifier.newline ++ (if Verifier.sigValid r then "ALL CHECKS PASSED"
                              else "VERIFICATION FAILED")
    /\ JS.get (Document.read_back_object
                 (Walkthrough.verification_result_json valid c checked_at))
              "hash_chain_intact"
       = JBool (Verifier.chainOk r)
    /\ (well_formed id = true -> defined id = true ->
        Verifier.sigValid r = valid
        /\ JS.get (Document.read_back_object
                     (Walkthrough.verification_result_json valid c checked_at))
                  "verified"
           = JBool (Verifier.sigValid r)).
Proof.
  intros i c cert.
  assert (Verifier.links None (map Document.read_back_object (Chain.events c)) true = true)
    as Hlinks.
  { pose proof (CommitFacts.links_read_back (Chain.events c) None true) as L.
    cbn [option_map] in L. rewrite L.
    rewrite IntegrityFacts.links_spec. cbn [andb expected_after].
    apply IntegrityFacts.run_links_ok. }
  pose proof (CommitFacts.joined_read_back (Chain.events c)
                (RunFacts.run_event_hashes_hex64 id ops)) as Hjoin.
  subst cert i.
  eexists. exists (map Document.read_back_object (Chain.events c)). eexists.
  split; [apply IssueFacts.verify_issue|].
  split; [apply CommitFacts.events_read_back|].
  unfold Verifier.verifyScript.
  rewrite Hlinks, Hjoin, !DocumentFacts.get_read_back.
  change (JS.get (Walkthrough.public_key_json (CertIssuer.new seed)) "public_key")
    with (JStr (CertIssuer.pubHex (CertIssuer.new seed))).
  change (JS.get (CertIssuer.issue (CertIssuer.new seed) issued_at c) "chain_hash")
    with (JStr (sha256 (Chain.joined_hashes (Chain.events (run id ops))))).
  rewrite IssueFacts.issue_signature.
  cbn [Document.read_back Buffer_from_hex]. rewrite IssueFacts.import_exported_key.
  rewrite IssueFacts.createPublicKey_spki by apply IssueFacts.public_of_seed_bytes.
  rewrite HexFacts.from_hex_to_hex by apply HexFacts.sign_bytes.
  change (Chain.events c) with (Chain.events (run id ops)).
  cbn [JS.strict_equal]. rewrite String.eqb_refl.
  split; [reflexivity|]. cbn [Verifier.chainOk Verifier.hashMatch Verifier.sigValid].
  split; [reflexivity|]. split; [reflexivity|].
  split; [unfold Verifier.verdict; cbn [Verifier.lines List.app last andb]; reflexivity|].
  split; [reflexivity|].
  intros W D.
  rewrite (CommitFacts.signed_text_read_back (CertIssuer.new seed) issued_at c
             (sha256 (Chain.joined_hashes (Chain.events (run id ops)))));
    [split; reflexivity | | | reflexivity];
    change (Chain.id c) with (Chain.id (run id ops)); now rewrite CommitFacts.run_id.
Qed.

(** X7, witness: a chain whose id is an object that is read back with its
    keys in another order. *)

Lemma verifier_agrees_with_issuer_on_exported_artifacts_witness :
  exists valid events r,
    CertIssuer.verify (CertIssuer.new demo_seed)
      (CertIssuer.issue (CertIssuer.new demo_seed) sample_time
         (fst (Chain.resolve (run indexed_chain_id demo_ops))))
    = CertIssuer.Returns valid
    /\ Verifier.verifyScript
         (Document.read_back_object
            (CertIssuer.issue (CertIssuer.new demo_seed) sample_time
               (fst (Chain.resolve (run indexed_chain_id demo_ops)))))
         events
         (Document.read_back_object
            (Walkthrough.public_key_json (CertIssuer.new demo_seed)))
       = Verifier.Finished r
    /\ Verifier.sigValid r = valid.
Proof.
  destruct (verifier_agrees_with_issuer_on_exported_artifacts
              demo_seed indexed_chain_id demo_ops sample_time sample_time)
    as (valid & events & r & H1 & _ & H3 & _ & _ & _ & _ & H8).
  exists valid, events, r. split; [exact H1|]. split; [exact H3|].
  apply H8; reflexivity.
Defined.

(** ** Edges of [verify] and of the integrity checks *)

Module EdgeFacts.

Lemma from_hex_length (s : string) :
  (2 * List.length (Bytes.from_hex s) <= String.length s)%nat
  /\ forall a, (2 * List.length (Bytes.from_hex (String a s)) <= S (String.length s))%nat.
Proof.
  induction s as [|b r [IH1 IH2]].
  - split; [cbn; lia | intros a; cbn; lia].
  - split; [apply IH2|]. intros a. cbn [Bytes.from_hex String.length].
    destruct (Bytes.hex_value a), (Bytes.hex_value b); cbn [List.length]; lia.
Qed.

Lemma from_hex_app (b : Bytes.buffer) (t : string) :
  Forall is_byte b -> Bytes.from_hex (Bytes.to_hex b ++ t) = (b ++ Bytes.from_hex t)%list.
Proof.
  induction 1 as [|x r Hx _ IH]; [reflexivity|].
  cbn [Bytes.to_hex]. rewrite HexFacts.hex_of_byte. cbn [String.append Bytes.from_hex].
  unfold is_byte in Hx.
  rewrite !HexFacts.hex_value_digit by (apply Z.mod_pos_bound; lia).
  rewrite IH. cbn [List.app]. f_equal.
  rewrite (Z.mod_small (x / 16))
    by (split; [apply Z.div_pos; lia | apply Z.div_lt_upper_bound; lia]).
  pose proof (Z.div_mod x 16 ltac:(lia)). lia.
Qed.

Lemma verify_wrong_length (pub msg sig : Bytes.buffer) :
  List.length sig <> 64%nat -> Ed25519.verify pub msg sig = false.
Proof.
  intros H. unfold Ed25519.verify.
  destruct (Nat.eqb (List.length sig) 64) eqn:E; [|reflexivity].
  apply Nat.eqb_eq in E. contradiction.
Qed.

Lemma get_set_same (k : string) (v : value) (o : obj) : JS.get (JS.set k v o) k = v.
Proof.
  unfold JS.get. induction o as [|[k' x] o IH]; cbn [JS.set JS.lookup].
  - now rewrite String.eqb_refl.
  - destruct (String.eqb k k') eqn:E; cbn [JS.lookup]; [now rewrite String.eqb_refl|].
    rewrite E. exact IH.
Qed.

Lemma rest_of_set_signature (v : value) (cert : obj) :
  CertIssuer.rest_of (JS.set "signature" v cert) = CertIssuer.rest_of cert.
Proof. unfold CertIssuer.rest_of. now rewrite CertFacts.without_set. Qed.

Lemma links_ok_prefix (es : list obj) :
  forall first n,
    forallb link_ok (expectations first es) = true ->
    forallb link_ok (expectations first (firstn n es)) = true.
Proof.
  induction es as [|e es IH]; intros first n H.
  - now rewrite firstn_nil.
  - destruct n as [|n]; [reflexivity|].
    cbn [firstn]. rewrite IntegrityFacts.expectations_cons in *. cbn [forallb] in *.
    apply andb_true_iff in H as [H1 H2]. rewrite H1. cbn [andb]. now apply IH.
Qed.

End EdgeFacts.

(** X8.  A certificate without a signature.  When the certificate has no
    [signature] property, [verify] does not return false: it throws a
    TypeError ([Buffer.from(undefined, 'hex')]).  The generated verifier,
    given a key document it can import, prints its header and the result of
    the linkage check; if the event hashes can be joined it also prints the
    result of the chain-hash comparison; then it dies of a TypeError (from
    the join, or from the missing signature), without a signature line and
    without a verdict. *)

Theorem certificate_without_signature_throws
    (i : CertIssuer.t) (cert : obj) (events : list obj) (seed : Bytes.buffer) :
  JS.lookup "signature" cert = None ->
  CertIssuer.verify i cert = CertIssuer.Throws TypeError
  /\ Verifier.verifyScript cert events (Walkthrough.public_key_json (CertIssuer.new seed))
     = Verifier.Crashed
         (List.app
            ["=== OpenExecution Independent Verification ===" ++ Verifier.newline;
             "Hash chain integrity: "
             ++ (if Verifier.links None events true then "VALID" else "BROKEN")]
            match Verifier.joined_hashes events with
            | Ok hashes =>
                ["Chain hash match: "
                 ++ (if JS.strict_equal (JStr (sha256 hashes)) (JS.get cert "chain_hash")
                     then "VALID" else "MISMATCH")]
            | Throw _ => []
            end)
         TypeError.
Proof.
  intros H.
  assert (JS.get cert "signature" = JUndefined) as G by (unfold JS.get; now rewrite H).
  split.
  - unfold CertIssuer.verify. now rewrite G.
  - unfold Verifier.verifyScript.
    destruct (Verifier.joined_hashes events) as [hashes|[]]; [|reflexivity].
    change (JS.get (Walkthrough.public_key_json (CertIssuer.new seed)) "public_key")
      with (JStr (CertIssuer.pubHex (CertIssuer.new seed))).
    cbn [Buffer_from_hex]. rewrite IssueFacts.import_exported_key.
    rewrite IssueFacts.createPublicKey_spki by apply IssueFacts.public_of_seed_bytes.
    rewrite G. reflexivity.
Qed.

(** X8, witness: the demo certificate's signed fields alone. *)

Lemma certificate_without_signature_throws_witness :
  CertIssuer.verify demo_issuer (certificate_fields demo_chain_hash 3)
  = CertIssuer.Throws TypeError.
Proof.
  exact (proj1 (certificate_without_signature_throws demo_issuer
                  (certificate_fields demo_chain_hash 3) [] [] eq_refl)).
Defined.

(** X9.  A signature that is too short.  When the [signature] is a string
    of fewer than 128 characters, whatever they are, [verify] returns false
    (it does not throw): the text decodes to fewer than 64 bytes. *)

Theorem short_signature_is_rejected (i : CertIssuer.t) (cert : obj) (s : string) :
  JS.get cert "signature" = JStr s ->
  (String.length s < 128)%nat ->
  CertIssuer.verify i cert = CertIssuer.Returns false.
Proof.
  intros G L. unfold CertIssuer.verify. rewrite G. cbn [Buffer_from_hex].
  unfold crypto_verify. rewrite EdgeFacts.verify_wrong_length; [reflexivity|].
  pose proof (proj1 (EdgeFacts.from_hex_length s)). lia.
Qed.

(** X9, witness: the demo certificate with its signature cut to eight
    digits. *)

Lemma short_signature_is_rejected_witness :
  CertIssuer.verify demo_issuer (JS.set "signature" (JStr "802c7c4b") demo_certificate)
  = CertIssuer.Returns false.
Proof.
  apply (short_signature_is_rejected demo_issuer
           (JS.set "signature" (JStr "802c7c4b") demo_certificate) "802c7c4b").
  - reflexivity.
  - cbn. lia.
Defined.

(** X10.  The signature text is not canonical.  [Buffer.from(s, 'hex')]
    stops decoding at the first pair that is not hexadecimal, so text added
    after a signature's digits, starting with anything but two hexadecimal
    digits, is ignored: [verify] and the generated verifier give the
    certificate with the longer signature text the result they give the
    original. *)

Theorem signature_text_is_not_canonical
    (i : CertIssuer.t) (cert : obj) (sig : Bytes.buffer) (t : string) :
  Forall is_byte sig ->
  Bytes.from_hex t = [] ->
  CertIssuer.verify i (JS.set "signature" (JStr (Bytes.to_hex sig ++ t)) cert)
  = CertIssuer.verify i (JS.set "signature" (JStr (Bytes.to_hex sig)) cert)
  /\ forall events info,
       Verifier.verifyScript (JS.set "signature" (JStr (Bytes.to_hex sig ++ t)) cert) events info
       = Verifier.verifyScript (JS.set "signature" (JStr (Bytes.to_hex sig)) cert) events info.
Proof.
  intros Hb Ht.
  assert (Bytes.from_hex (Bytes.to_hex sig ++ t) = Bytes.from_hex (Bytes.to_hex sig)) as E.
  { rewrite EdgeFacts.from_hex_app, Ht, app_nil_r by exact Hb.
    symmetry. now apply HexFacts.from_hex_to_hex. }
  split.
  - unfold CertIssuer.verify.
    rewrite !EdgeFacts.get_set_same, !EdgeFacts.rest_of_set_signature.
    cbn [Buffer_from_hex]. now rewrite E.
  - intros events info. unfold Verifier.verifyScript.
    rewrite !EdgeFacts.get_set_same, !EdgeFacts.rest_of_set_signature.
    rewrite !(CertFacts.get_set_other "signature" "chain_hash") by discriminate.
    cbn [Buffer_from_hex]. now rewrite E.
Qed.

(** X10, witness: the demo certificate's signature followed by [!forged]. *)
Lemma signature_text_is_not_canonical_witness :
  CertIssuer.verify demo_issuer
    (JS.set "signature" (JStr (Bytes.to_hex demo_signature_bytes ++ "!forged"))
            demo_certificate)
  = CertIssuer.verify demo_issuer
      (JS.set "signature" (JStr (Bytes.to_hex demo_signature_bytes)) demo_certificate).
Proof.
  refine (proj1 (signature_text_is_not_canonical demo_issuer demo_certificate
                   demo_signature_bytes "!forged" _ eq_refl)).
  unfold demo_signature_bytes. repeat constructor; unfold is_byte; lia.
Defined.

(** X11.  Truncation passes the linkage checks.  If a list of events passes
    the generated verifier's linkage loop, so does every prefix of it, in
    all three checks of the repository (the verifier's loop, the
    walkthrough's loop, the export script's check, which returns a valid
    entry with no message).  The verifier's
    signature result does not depend on the events, so for a chain document
    with trailing events dropped it prints the verdict it prints for the
    whole chain. *)

Theorem truncated_chain_still_passes (cert info : obj) (es : list obj) (n : nat) :
  Verifier.links None es true = true ->
  Verifier.links None (firstn n es) true = true
  /\ Integrity.linkage (JStr GENESIS) (firstn n es) = true
  /\ (forall chain,
        Integrity.check chain (firstn n es)
        = Ok (Integrity.mk (JS.get chain "id") (JS.get chain "platform")
                           (JS.get chain "event_count") true []))
  /\ (forall r, Verifier.verifyScript cert es info = Verifier.Finished r ->
        exists r',
          Verifier.verifyScript cert (firstn n es) info = Verifier.Finished r'
          /\ Verifier.chainOk r' = true
          /\ Verifier.sigValid r' = Verifier.sigValid r
          /\ Verifier.verdict r' = Verifier.verdict r).
Proof.
  intros H. rewrite IntegrityFacts.links_spec in H. cbn [andb expected_after] in H.
  pose proof (EdgeFacts.links_ok_prefix es (JStr GENESIS) n H) as P.
  assert (Verifier.links None (firstn n es) true = true) as Q
    by (rewrite IntegrityFacts.links_spec; exact P).
  assert (Verifier.links None es true = true) as Q0
    by (rewrite IntegrityFacts.links_spec; exact H).
  split; [exact Q|]. split; [now rewrite IntegrityFacts.linkage_spec|].
  split; [intros chain; now apply IntegrityFacts.check_linked|].
  intros r. unfold Verifier.verifyScript. rewrite Q, Q0.
  destruct (Verifier.joined_hashes es) as [hashes|] eqn:J; try discriminate.
  destruct (ResultFacts.joined_prefix es n hashes J) as [hashes' ->].
  destruct (Buffer_from_hex (JS.get info "public_key")) as [der| |]; try discriminate.
  destruct (Verifier.createPublicKey der) as [key|]; try discriminate.
  destruct (Buffer_from_hex (JS.get cert "signature")) as [sig| |]; try discriminate.
  intros E. injection E as <-. eexists. split; [reflexivity|].
  cbn [Verifier.chainOk Verifier.sigValid]. split; [reflexivity|]. split; reflexivity.
Qed.

(** X11, witness: the demo chain without its last event. *)

Lemma truncated_chain_still_passes_witness :
  Verifier.links None (firstn 2 demo_events) true = true.
Proof.
  exact (proj1 (truncated_chain_still_passes [] [] demo_events 2 eq_refl)).
Defined.

(** ** The export script *)

Module ExportFacts.
Import ExportScript.

Lemma map_related {A B : Type} (R : A -> A -> Prop) (f : A -> B) (l l' : list A) :
  Forall2 R l l' -> (forall a b, R a b -> f a = f b) -> map f l = map f l'.
Proof.
  intros F H. induction F as [|a b l l' Hab _ IH]; [reflexivity|].
  cbn [map]. now rewrite (H a b Hab), IH.
Qed.

Lemma fold_longer (rest : list artifact) :
  forall a,
    exists before after,
      (a :: rest = before ++ fold_left longer rest a :: after)%list
      /\ Forall (fun b : artifact =>
                   (List.length (snd b) < List.length (snd (fold_left longer rest a)))%nat)
                before
      /\ Forall (fun b : artifact =>
                   (List.length (snd b) <= List.length (snd (fold_left longer rest a)))%nat)
                after.
Proof.
  induction rest as [|b rest IH]; intros a; cbn [fold_left].
  - exists [], []. repeat split; constructor.
  - destruct (Nat.leb_spec (List.length (snd b)) (List.length (snd a))) as [L|L].
    + (* [a] stays *)
      assert (longer a b = a) as ->
        by (unfold longer; now rewrite (proj2 (Nat.leb_le _ _) L)).
      destruct (IH a) as (before & after & E & Hb & Ha).
      remember (fold_left longer rest a) as p eqn:Hp. clear Hp.
      destruct before as [|x before]; cbn [List.app] in E.
      * injection E as Ep Er. subst p after.
        exists [], (b :: rest). cbn [List.app].
        repeat split; [constructor|]. constructor; [exact L|exact Ha].
      * injection E as Ex Er. subst x.
        exists (a :: b :: before), after. cbn [List.app]. rewrite Er.
        repeat split; [|exact Ha].
        inversion Hb as [|? ? Hap Hb']; subst.
        constructor; [exact Hap|]. constructor; [lia|exact Hb'].
    + (* [b] takes over *)
      assert (longer a b = b) as ->
        by (unfold longer; now rewrite (proj2 (Nat.leb_gt _ _) L)).
      destruct (IH b) as (before & after & E & Hb & Ha).
      remember (fold_left longer rest b) as p eqn:Hp. clear Hp.
      exists (a :: before), after. cbn [List.app]. rewrite E.
      repeat split; [|exact Ha].
      constructor; [|exact Hb].
      assert (List.length (snd b) <= List.length (snd p))%nat as Hbp.
      { destruct before as [|x before]; cbn [List.app] in E.
        - injection E as Ep _. rewrite <- Ep. lia.
        - injection E as Ex _. subst x. inversion Hb; subst. lia. }
      lia.
Qed.

Lemma integrity_throw (db : database) (e : error) :
  Integrity.integrityResults (map (chainArtifact db) (chains db)) = Throw e ->
  exists chain ev,
    In chain (chains db) /\ In ev (rows_of db chain)
    /\ JS.to_string (JS.get ev "seq") = Throw TypeError.
Proof.
  intros E. unfold Integrity.integrityResults in E.
  apply ResultFacts.map_result_throw in E as (a & Ha & Ea).
  apply in_map_iff in Ha as (chain & <- & Hc).
  destruct e. apply IntegrityFacts.check_throws, Exists_exists in Ea as (ev & Hev & T).
  unfold broken_links in Hev. apply in_map_iff in Hev as ([h ev'] & Eq & Hev).
  cbn [snd] in Eq. subst ev'. apply filter_In in Hev as [Hev _].
  unfold expectations in Hev. apply in_combine_r in Hev.
  cbn [chainArtifact snd] in Hev. apply in_map_iff in Hev as (row & <- & Hrow).
  exists chain, row. repeat split; assumption.
Qed.

Lemma exported_check (chain : obj) (rows : list obj) :
  Integrity.check chain (map exported_event rows) = Integrity.check chain rows.
Proof.
  unfold Integrity.check.
  rewrite (IntegrityFacts.scan_same_links rows (map exported_event rows)); [reflexivity|].
  induction rows as [|r rows IH]; constructor; [|exact IH]. repeat split.
Qed.

(** The report of the export is what is to be reported for each chain row
    and the event rows that carry its id. *)
Lemma integrity_report (db : database) :
  Integrity.integrityResults (map (chainArtifact db) (chains db))
  = JS.map_result (fun chain => report (fst (chainArtifact db chain)) (rows_of db chain))
                  (chains db).
Proof.
  unfold Integrity.integrityResults. rewrite ResultFacts.map_result_map.
  apply ResultFacts.map_result_ext. intros chain. cbn [chainArtifact snd].
  rewrite exported_check. apply IntegrityFacts.check_spec.
Qed.

Lemma report_ok (chain : obj) (es : list obj) (r : Integrity.entry) :
  report chain es = Ok r ->
  Integrity.platform r = JS.get chain "platform"
  /\ Integrity.event_count r = JS.get chain "event_count"
  /\ Integrity.is_valid r = forallb link_ok (expectations (JStr GENESIS) es).
Proof.
  unfold report. destruct (JS.map_result mismatch_message _); cbn [bind]; [|discriminate].
  intros E. injection E as <-. repeat split.
Qed.

Lemma or_null_defined (v : value) : JS.truthy (or v JNull) = true \/ or v JNull = JNull.
Proof. unfold or. destruct (JS.truthy v) eqn:E; [left; exact E | right; reflexivity]. Qed.

Lemma substring_length (n : nat) (s : string) :
  (String.length (String.substring 0 n s) <= n)%nat.
Proof.
  revert s. induction n as [|n IH]; intros s.
  - destruct s; cbn; lia.
  - destruct s as [|c s]; cbn [String.substring String.length]; [lia|].
    specialize (IH s). lia.
Qed.

Lemma substring_short (n : nat) (s : string) :
  (String.length s <= n)%nat -> String.substring 0 n s = s.
Proof.
  revert s. induction n as [|n IH]; intros s H.
  - destruct s; [reflexivity | cbn in H; lia].
  - destruct s as [|c s]; [reflexivity|]. cbn [String.substring]. f_equal.
    apply IH. cbn in H. lia.
Qed.

Lemma append_length (s t : string) :
  String.length (s ++ t) = (String.length s + String.length t)%nat.
Proof. induction s as [|c s IH]; [reflexivity|]. cbn [String.append String.length]. now rewrite IH. Qed.

End ExportFacts.

(** X12.  What an export leaves behind.  [main] ends in one of four ways.
    With no chain row, [reduce] throws a TypeError on the empty array after
    [execution-chains.json] (holding [[]]) was written, and nothing else is
    written.  With chains, it throws while building the integrity report
    only if the [seq] of some event row of a chain cannot be converted to a
    string, after two files were written, and while building the audit
    trail only if [summarizePayload] throws for some event, after three.
    Otherwise it writes the seven files, in their fixed order.  Every
    exception is a TypeError, and the files written before it stay. *)

Theorem export_stops_at_the_first_exception
    (db : ExportScript.database) (t1 t2 t3 : string) :
  match ExportScript.main db t1 t2 t3 with
  | (written, None) =>
      map fst written = export_file_names /\ ExportScript.chains db <> []
  | (written, Some e) =>
      e = TypeError
      /\ ((ExportScript.chains db = []
           /\ written = [("execution-chains.json", JArr [])])
          \/ (ExportScript.chains db <> []
              /\ map fst written = firstn 2 export_file_names
              /\ exists chain ev,
                   In chain (ExportScript.chains db)
                   /\ In ev (ExportScript.rows_of db chain)
                   /\ JS.to_string (JS.get ev "seq") = Throw TypeError)
          \/ (ExportScript.chains db <> []
              /\ map fst written = firstn 3 export_file_names
              /\ exists ev,
                   In ev (ExportScript.allEvents db)
                   /\ ExportScript.summarizePayload (JS.get ev "event_type")
                                                    (JS.get ev "payload")
                      = Throw TypeError))
  end.
Proof.
  unfold ExportScript.main.
  destruct (ExportScript.chains db) as [|chain chains] eqn:C.
  - cbn [map ExportScript.reduce]. split; [reflexivity|]. left. split; reflexivity.
  - cbn [ExportScript.reduce map]. rewrite <- C.
    change (ExportScript.chainArtifact db chain :: map (ExportScript.chainArtifact db) chains)
      with (map (ExportScript.chainArtifact db) (chain :: chains)).
    rewrite <- C.
    destruct (Integrity.integrityResults
                (map (ExportScript.chainArtifact db) (ExportScript.chains db)))
      as [entries|e] eqn:I.
    + destruct (JS.map_result (ExportScript.audit_entry db)
                  (ExportScript.allEvents db)) as [trail|e] eqn:A.
      * split; [reflexivity | rewrite C; discriminate].
      * split; [now destruct e|]. right. right.
        split; [rewrite C; discriminate|]. split; [reflexivity|].
        destruct (ResultFacts.map_result_throw _ _ _ A) as (ev & Hin & Hev).
        exists ev. split; [exact Hin|].
        unfold ExportScript.audit_entry in Hev.
        destruct (ExportScript.summarizePayload (JS.get ev "event_type")
                    (JS.get ev "payload")) as [s|e']; cbn [bind] in Hev; [discriminate|].
        now destruct e'.
    + split; [now destruct e|]. right. left.
      split; [rewrite C; discriminate|]. split; [reflexivity|].
      eapply ExportFacts.integrity_throw. exact I.
Qed.

(** X13.  No secret reaches a file.  The export reads a connection row only
    through the seven columns it copies and through whether
    [webhook_secret] is truthy.  Replacing the connection rows by rows that
    agree on those (other secrets, other tokens, any other column) leaves
    every written file and the outcome unchanged. *)

Theorem export_reads_no_webhook_secret
    (db : ExportScript.database) (cs : list obj) (t1 t2 t3 : string) :
  Forall2 same_exported_connection (ExportScript.connections db) cs ->
  ExportScript.main (with_connections db cs) t1 t2 t3 = ExportScript.main db t1 t2 t3.
Proof.
  intros F. unfold ExportScript.main.
  change (ExportScript.chains (with_connections db cs)) with (ExportScript.chains db).
  change (ExportScript.allEvents (with_connections db cs)) with (ExportScript.allEvents db).
  change (ExportScript.chainArtifact (with_connections db cs))
    with (ExportScript.chainArtifact db).
  change (ExportScript.audit_entry (with_connections db cs)) with (ExportScript.audit_entry db).
  destruct (ExportScript.reduce _ _) as [primary|e]; [|reflexivity].
  destruct (Integrity.integrityResults _) as [entries|e]; [|reflexivity].
  destruct (JS.map_result _ _) as [trail|e]; [|reflexivity].
  assert (ExportScript.connections_json (with_connections db cs)
          = ExportScript.connections_json db) as ->.
  { unfold ExportScript.connections_json. cbn [with_connections ExportScript.connections].
    f_equal. symmetry. apply (ExportFacts.map_related same_exported_connection); [exact F|].
    intros a b [Hk Hs]. unfold exported_columns in Hk.
    repeat match goal with H : Forall _ (_ :: _) |- _ => inversion H; clear H; subst end.
    congruence. }
  assert (forall ca ir, ExportScript.demo_summary (with_connections db cs) ca ir t2 t3
                        = ExportScript.demo_summary db ca ir t2 t3) as ->.
  { intros ca ir. unfold ExportScript.demo_summary.
    cbn [with_connections ExportScript.connections ExportScript.users ExportScript.projects
         ExportScript.chains ExportScript.allEvents].
    assert (map (fun c => JS.get c "platform") cs
            = map (fun c => JS.get c "platform") (ExportScript.connections db)) as ->.
    { symmetry. apply (ExportFacts.map_related same_exported_connection); [exact F|].
      intros a b [Hk _]. unfold exported_columns in Hk.
      repeat match goal with H : Forall _ (_ :: _) |- _ => inversion H; clear H; subst end.
      assumption. }
    assert (map (fun c => JObj [("platform", JS.get c "platform");
                                ("account_name", JS.get c "platform_account_name");
                                ("status", JS.get c "status");
                                ("has_webhook_secret",
                                 JBool (JS.truthy (JS.get c "webhook_secret")))]) cs
            = map (fun c => JObj [("platform", JS.get c "platform");
                                  ("account_name", JS.get c "platform_account_name");
                                  ("status", JS.get c "status");
                                  ("has_webhook_secret",
                                   JBool (JS.truthy (JS.get c "webhook_secret")))])
                  (ExportScript.connections db)) as ->; [|reflexivity].
    symmetry. apply (ExportFacts.map_related same_exported_connection); [exact F|].
    intros a b [Hk Hs]. unfold exported_columns in Hk.
    repeat match goal with H : Forall _ (_ :: _) |- _ => inversion H; clear H; subst end.
    congruence. }
  reflexivity.
Qed.

(** X13, witness: the sample database with another webhook secret. *)

Lemma export_reads_no_webhook_secret_witness :
  ExportScript.main
    (with_connections sample_database
       [[("id", JStr "k1"); ("platform", JStr "figma"); ("status", JStr "active");
         ("webhook_secret", JStr "another secret")]])
    sample_time sample_time sample_time
  = ExportScript.main sample_database sample_time sample_time sample_time.
Proof.
  apply export_reads_no_webhook_secret.
  constructor; [|constructor]. split; [repeat constructor | reflexivity].
Defined.

(** X14.  The primary chain.  On a non-empty list of chain artifacts, the
    [reduce] of the export picks an artifact of the list with the greatest
    number of events, and among those the first: every artifact before it
    has strictly fewer events, none after it has more.  On the empty list
    it throws a TypeError. *)

Theorem primary_chain_is_the_first_longest (chainArtifacts : list ExportScript.artifact) :
  match ExportScript.reduce ExportScript.longer chainArtifacts with
  | Throw e => e = TypeError /\ chainArtifacts = []
  | Ok primaryChain =>
      exists before after,
        chainArtifacts = (before ++ primaryChain :: after)%list
        /\ Forall (fun a : ExportScript.artifact =>
                     (List.length (snd a) < List.length (snd primaryChain))%nat) before
        /\ Forall (fun a : ExportScript.artifact =>
                     (List.length (snd a) <= List.length (snd primaryChain))%nat) after
  end.
Proof.
  destruct chainArtifacts as [|a rest]; cbn [ExportScript.reduce].
  - split; reflexivity.
  - apply ExportFacts.fold_longer.
Qed.

(** X15.  The export's integrity report.  The report fails to be built
    only when the [seq] of some event row of a chain cannot be converted to
    a string.  Otherwise there is one entry per chain row, the one that is
    to be reported for the stored links of the event rows carrying the
    chain's id, in the order the query returned them: projecting the rows
    into the artifact changes nothing the check reads.  An entry's [event_count] is the chain
    row's column, not a count of the events; its [platform] is a truthy
    value or [null], never [undefined].  [all_valid] is true exactly when
    every chain's rows are linked from the genesis hash (vacuously with no
    chains). *)

Theorem export_integrity_reads_the_stored_links (db : ExportScript.database) :
  match Integrity.integrityResults
          (map (ExportScript.chainArtifact db) (ExportScript.chains db)) with
  | Ok entries =>
      JS.map_result
        (fun chain => report (fst (ExportScript.chainArtifact db chain))
                             (ExportScript.rows_of db chain))
        (ExportScript.chains db)
      = Ok entries
      /\ map Integrity.is_valid entries
         = map (fun chain =>
                  forallb link_ok
                          (expectations (JStr GENESIS) (ExportScript.rows_of db chain)))
               (ExportScript.chains db)
      /\ map Integrity.event_count entries
         = map (fun chain => JS.get chain "event_count") (ExportScript.chains db)
      /\ Forall (fun r => JS.truthy (Integrity.platform r) = true
                          \/ Integrity.platform r = JNull) entries
      /\ ExportScript.all_valid entries
         = forallb (fun chain =>
                      forallb link_ok
                              (expectations (JStr GENESIS) (ExportScript.rows_of db chain)))
                   (ExportScript.chains db)
  | Throw e =>
      e = TypeError
      /\ exists chain ev,
           In chain (ExportScript.chains db)
           /\ In ev (ExportScript.rows_of db chain)
           /\ JS.to_string (JS.get ev "seq") = Throw TypeError
  end.
Proof.
  destruct (Integrity.integrityResults _) as [entries|e] eqn:I.
  - rewrite ExportFacts.integrity_report in I. split; [exact I|].
    apply ResultFacts.map_result_forall2 in I. unfold ExportScript.all_valid.
    induction I as [|chain r chains entries Hr _ IH]; [repeat split; constructor|].
    destruct IH as (E2 & E3 & F & A).
    apply ExportFacts.report_ok in Hr as (Hp & Hc & Hv).
    cbn [map forallb]. rewrite Hv, Hc, E2, E3, A.
    split; [reflexivity|]. split; [reflexivity|]. split; [|reflexivity].
    constructor; [|exact F]. rewrite Hp. apply ExportFacts.or_null_defined.
  - split; [now destruct e|]. eapply ExportFacts.integrity_throw. exact I.
Qed.

(** X16.  The summary of an instruction.  For an [instruction_received]
    event whose payload holds a string [instruction_summary], the summary
    is [HUMAN: ], then the first 80 characters of that string, then three
    dots: at most 90 characters, the dots being added even when nothing was
    cut. *)

Theorem instruction_summary_is_cut_to_80_characters (payload : value) (s : string) :
  JS.truthy payload = true ->
  ExportScript.prop payload "instruction_summary" = JStr s ->
  ExportScript.summarizePayload (JStr "instruction_received") payload
  = Ok (JStr ("HUMAN: " ++ String.substring 0 80 s ++ "..."))
  /\ (String.length ("HUMAN: " ++ String.substring 0 80 s ++ "...") <= 90)%nat
  /\ ((String.length s <= 80)%nat ->
      ExportScript.summarizePayload (JStr "instruction_received") payload
      = Ok (JStr ("HUMAN: " ++ s ++ "..."))).
Proof.
  intros T P.
  assert (ExportScript.summarizePayload (JStr "instruction_received") payload
          = Ok (JStr ("HUMAN: " ++ String.substring 0 80 s ++ "..."))) as E.
  { unfold ExportScript.summarizePayload. rewrite T, P. cbn [negb JS.strict_equal].
    change (String.eqb "instruction_received" "deploy_triggered") with false.
    change (String.eqb "instruction_received" "build_succeeded") with false.
    change (String.eqb "instruction_received" "instruction_received") with true.
    cbv iota. unfold ExportScript.or. destruct (JS.truthy (JStr s)) eqn:Ts; [reflexivity|].
    cbn [JS.truthy] in Ts. apply negb_false_iff, String.eqb_eq in Ts. now subst s. }
  split; [exact E|]. split.
  - rewrite !ExportFacts.append_length.
    pose proof (ExportFacts.substring_length 80 s). cbn [String.length]. lia.
  - intros L. rewrite E. now rewrite ExportFacts.substring_short.
Qed.

(** X16, witness: the instruction of the sample database. *)

Lemma instruction_summary_is_cut_to_80_characters_witness :
  ExportScript.summarizePayload (JStr "instruction_received")
    (JObj [("instruction_summary", JStr "Rotate the key")])
  = Ok (JStr "HUMAN: Rotate the key...").
Proof.
  refine (proj2 (proj2 (instruction_summary_is_cut_to_80_characters
                          (JObj [("instruction_summary", JStr "Rotate the key")])
                          "Rotate the key" eq_refl eq_refl)) _).
  cbn. lia.
Defined.

(** X17.  A summary that is not a string.  When an [instruction_received]
    event's [instruction_summary] is truthy and not a string (a number,
    [true], an array, an object), [summarizePayload] throws a TypeError
    ([substring] is not a function), and an export over a database holding
    such an event (and at least one chain) ends with a TypeError after
    writing its first two or three files: none of the audit trail, the
    summary, the connections and the bindings is written. *)

Theorem non_string_instruction_summary_aborts_the_export
    (db : ExportScript.database) (t1 t2 t3 : string) (ev : obj) :
  ExportScript.chains db <> [] ->
  In ev (ExportScript.allEvents db) ->
  JS.get ev "event_type" = JStr "instruction_received" ->
  JS.truthy (JS.get ev "payload") = true ->
  JS.truthy (ExportScript.prop (JS.get ev "payload") "instruction_summary") = true ->
  (forall s, ExportScript.prop (JS.get ev "payload") "instruction_summary" <> JStr s) ->
  ExportScript.summarizePayload (JS.get ev "event_type") (JS.get ev "payload") = Throw TypeError
  /\ snd (ExportScript.main db t1 t2 t3) = Some TypeError
  /\ (map fst (fst (ExportScript.main db t1 t2 t3)) = firstn 2 export_file_names
      \/ map fst (fst (ExportScript.main db t1 t2 t3)) = firstn 3 export_file_names).
Proof.
  intros C Hin Ht Tp Tv Ns.
  assert (ExportScript.summarizePayload (JS.get ev "event_type") (JS.get ev "payload")
          = Throw TypeError) as E.
  { unfold ExportScript.summarizePayload. rewrite Ht, Tp. cbn [negb JS.strict_equal].
    change (String.eqb "instruction_received" "deploy_triggered") with false.
    change (String.eqb "instruction_received" "build_succeeded") with false.
    change (String.eqb "instruction_received" "instruction_received") with true.
    cbv iota. unfold ExportScript.or. rewrite Tv.
    destruct (ExportScript.prop (JS.get ev "payload") "instruction_summary") as [| | | |s| |];
      try reflexivity.
    now destruct (Ns s). }
  split; [exact E|].
  unfold ExportScript.main.
  destruct (ExportScript.chains db) as [|ch chs]; [congruence|].
  cbn [ExportScript.reduce map].
  destruct (Integrity.integrityResults _) as [entries|[]].
  - rewrite (ResultFacts.map_result_throws (ExportScript.audit_entry db) _ ev Hin).
    + split; [reflexivity | right; reflexivity].
    + unfold ExportScript.audit_entry. now rewrite E.
  - split; [reflexivity | left; reflexivity].
Qed.

(** X17, witness: the sample database with a numeric summary. *)

Lemma non_string_instruction_summary_aborts_the_export_witness :
  snd (ExportScript.main sample_database_numeric_summary sample_time sample_time sample_time)
  = Some TypeError.
Proof.
  refine (proj1 (proj2 (non_string_instruction_summary_aborts_the_export
                          sample_database_numeric_summary sample_time sample_time sample_time
                          (hd [] (ExportScript.allEvents sample_database_numeric_summary))
                          _ _ eq_refl eq_refl eq_refl _))).
  - discriminate.
  - left. reflexivity.
  - intros s. discriminate.
Defined.

(** ** The canonical text read back *)

Module TextFacts.

Lemma text_assoc (a b c : string) : (a ++ b) ++ c = a ++ (b ++ c).
Proof. induction a as [|x a IH]; [reflexivity|]. cbn [String.append]. now rewrite IH. Qed.

Lemma text_cancel (a x y : string) : a ++ x = a ++ y -> x = y.
Proof.
  induction a as [|c a IH]; [trivial|]. cbn [String.append]. intros H.
  injection H as H. now apply IH.
Qed.

Lemma text_prefix (a b x y : string) :
  a ++ x = b ++ y -> prefixb a b = true \/ prefixb b a = true.
Proof.
  revert b. induction a as [|c a IH]; intros b H; [now left|].
  destruct b as [|d b]; [now right|].
  cbn [String.append] in H. injection H as -> H.
  cbn [prefixb]. rewrite Ascii.eqb_refl. cbn [andb]. now apply IH.
Qed.

Lemma in_all_ascii (c : ascii) : In c all_ascii.
Proof.
  unfold all_ascii. rewrite <- (ascii_nat_embedding c).
  apply in_map, in_seq. pose proof (nat_ascii_bounded c). lia.
Qed.

Lemma for_all_ascii (p : ascii -> bool) :
  forallb p all_ascii = true -> forall c, p c = true.
Proof. intros H c. rewrite forallb_forall in H. apply H, in_all_ascii. Qed.

End TextFacts.

Module NumberFacts.
Import TextFacts.

Lemma digit_char_spec (d : Z) :
  0 <= d < 10 ->
  is_digit (digit_char d) = true /\ Z.of_nat (nat_of_ascii (digit_char d)) - 48 = d.
Proof.
  intros H.
  assert (d = 0 \/ d = 1 \/ d = 2 \/ d = 3 \/ d = 4 \/ d = 5 \/ d = 6 \/ d = 7 \/ d = 8
          \/ d = 9) as C by lia.
  repeat (destruct C as [-> | C]; [split; reflexivity|]). subst. split; reflexivity.
Qed.

Lemma digits_app (f : nat) : forall n acc, JS.digits f n acc = JS.digits f n "" ++ acc.
Proof.
  induction f as [|f IH]; intros n acc; [reflexivity|].
  cbn [JS.digits]. destruct (n <? 10); [reflexivity|].
  rewrite (IH _ (String _ acc)), (IH _ (String _ "")).
  rewrite text_assoc. reflexivity.
Qed.

Lemma digits_all (f : nat) :
  forall n, 0 <= n -> all_chars is_digit (JS.digits f n "") = true.
Proof.
  induction f as [|f IH]; intros n Hn; [reflexivity|].
  cbn [JS.digits].
  assert (is_digit (ascii_of_nat (Z.to_nat (48 + n mod 10))) = true) as D
    by (apply (digit_char_spec (n mod 10)), Z.mod_pos_bound; lia).
  destruct (n <? 10).
  - cbn [all_chars]. now rewrite D.
  - rewrite digits_app, RunFacts.all_chars_app. rewrite IH by (apply Z.div_pos; lia).
    cbn [all_chars andb]. now rewrite D.
Qed.

Lemma digits_nonempty (f : nat) (n : Z) : JS.digits (S f) n "" <> "".
Proof.
  cbn [JS.digits]. destruct (n <? 10); [discriminate|].
  rewrite digits_app. destruct (JS.digits f (n / 10) ""); discriminate.
Qed.

Lemma digits_read (f : nat) :
  forall n acc, 0 <= n < 2 ^ Z.of_nat f ->
    read_digits (JS.digits f n acc) 0 = read_digits acc n.
Proof.
  induction f as [|f IH]; intros n acc Hn.
  - change (2 ^ Z.of_nat 0) with 1 in Hn. assert (n = 0) as -> by lia. reflexivity.
  - cbn [JS.digits].
    pose proof (digit_char_spec (n mod 10) ltac:(apply Z.mod_pos_bound; lia)) as [_ V].
    unfold digit_char in V.
    destruct (Z.ltb_spec n 10) as [L|L].
    + cbn [read_digits]. rewrite V. rewrite Z.mod_small by lia. reflexivity.
    + rewrite IH.
      * cbn [read_digits]. rewrite V. f_equal.
        pose proof (Z.div_mod n 10 ltac:(lia)). lia.
      * rewrite Nat2Z.inj_succ, Z.pow_succ_r in Hn by lia.
        split; [apply Z.div_pos; lia|].
        apply Z.div_lt_upper_bound; lia.
Qed.

Lemma span_digits_app (d r : string) :
  all_chars is_digit d = true -> delimited r = true -> span_digits (d ++ r) = (d, r).
Proof.
  intros Hd Hr. induction d as [|c d IH].
  - cbn [String.append]. destruct r as [|x r]; [reflexivity|].
    cbn [span_digits]. cbn [delimited] in Hr. apply negb_true_iff in Hr. now rewrite Hr.
  - cbn [all_chars] in Hd. apply andb_true_iff in Hd as [Hc Hd].
    cbn [String.append span_digits]. rewrite Hc, (IH Hd). reflexivity.
Qed.

Lemma decimal_spec (n : Z) :
  0 <= n ->
  all_chars is_digit (decimal n) = true
  /\ read_digits (decimal n) 0 = n
  /\ exists c s, decimal n = String c s /\ is_digit c = true.
Proof.
  intros Hn. unfold decimal.
  assert (all_chars is_digit (JS.digits (S (Z.to_nat (Z.log2 n))) n "") = true) as A
    by now apply digits_all.
  split; [exact A|]. split.
  - rewrite digits_read; [reflexivity|]. split; [exact Hn|].
    rewrite Nat2Z.inj_succ, Z2Nat.id by apply Z.log2_nonneg.
    destruct (Z.eq_dec n 0) as [->|N]; [reflexivity|].
    apply Z.log2_spec. lia.
  - pose proof (digits_nonempty (Z.to_nat (Z.log2 n)) n) as NE.
    destruct (JS.digits (S (Z.to_nat (Z.log2 n))) n "") as [|c s]; [congruence|].
    exists c, s. split; [reflexivity|]. cbn [all_chars] in A.
    now apply andb_true_iff in A.
Qed.

Lemma decimal_unique (n n' : Z) (r r' : string) :
  0 <= n -> 0 <= n' -> delimited r = true -> delimited r' = true ->
  decimal n ++ r = decimal n' ++ r' -> n = n' /\ r = r'.
Proof.
  intros Hn Hn' Hr Hr' E.
  destruct (decimal_spec n Hn) as (A & V & _).
  destruct (decimal_spec n' Hn') as (A' & V' & _).
  apply (f_equal span_digits) in E.
  rewrite !span_digits_app in E by assumption.
  injection E as Ed Er. split; [|exact Er].
  rewrite <- V, <- V'. now rewrite Ed.
Qed.

Lemma number_text (n : Z) :
  JS.Number_toString n = if n <? 0 then "-" ++ decimal (- n) else decimal n.
Proof. reflexivity. Qed.

Lemma minus_is_no_digit : is_digit "-" = false.
Proof. reflexivity. Qed.

Lemma number_unique (n n' : Z) (r r' : string) :
  delimited r = true -> delimited r' = true ->
  JS.Number_toString n ++ r = JS.Number_toString n' ++ r' -> n = n' /\ r = r'.
Proof.
  intros Hr Hr'. rewrite !number_text.
  destruct (Z.ltb_spec n 0) as [L|L], (Z.ltb_spec n' 0) as [L'|L'].
  - cbn [String.append]. intros E. injection E as E.
    destruct (decimal_unique (- n) (- n') r r') as [En Er]; try assumption; try lia.
    split; [lia | exact Er].
  - destruct (decimal_spec n' L') as (_ & _ & c & s & -> & D).
    cbn [String.append]. intros E. injection E as <- _.
    rewrite minus_is_no_digit in D. discriminate.
  - destruct (decimal_spec n L) as (_ & _ & c & s & -> & D).
    cbn [String.append]. intros E. injection E as -> _.
    rewrite minus_is_no_digit in D. discriminate.
  - now apply decimal_unique.
Qed.

Lemma digit_kind (c : ascii) : is_digit c = true -> kind_of_char c = KNum.
Proof.
  intros H.
  assert (forallb (fun c => implb (is_digit c)
                              match kind_of_char c with KNum => true | _ => false end)
                  all_ascii = true) as A by reflexivity.
  pose proof (for_all_ascii _ A c) as K. cbn beta in K. rewrite H in K. cbn [implb] in K.
  destruct (kind_of_char c); try discriminate. reflexivity.
Qed.

Lemma number_kind (n : Z) (r : string) : kind_of_text (JS.Number_toString n ++ r) = KNum.
Proof.
  rewrite number_text. destruct (Z.ltb_spec n 0) as [L|L]; [reflexivity|].
  destruct (decimal_spec n L) as (_ & _ & c & s & -> & D).
  cbn [String.append kind_of_text]. now apply digit_kind.
Qed.

End NumberFacts.

Module StringFacts.
Import TextFacts.

Lemma escape_classes (c : ascii) :
  plain c = true \/ (In c escaped_chars /\ starts_with_backslash (JS.escape c) = true).
Proof.
  assert (forallb (fun c => plain c || starts_with_backslash (JS.escape c)) all_ascii = true)
    as A by (vm_compute; reflexivity).
  pose proof (for_all_ascii _ A c) as H. cbn beta in H.
  destruct (plain c) eqn:P; [now left|]. right. split; [|exact H].
  unfold escaped_chars. apply filter_In. split; [apply in_all_ascii|]. now rewrite P.
Qed.

Lemma plain_spec (c : ascii) :
  plain c = true ->
  JS.escape c = String c "" /\ nat_of_ascii c <> 92%nat /\ nat_of_ascii c <> 34%nat.
Proof.
  unfold plain. destruct (JS.escape c) as [|x [|y s]]; try discriminate.
  intros H. apply andb_true_iff in H as [H H34]. apply andb_true_iff in H as [Hx H92].
  apply Ascii.eqb_eq in Hx. subst x.
  apply negb_true_iff, Nat.eqb_neq in H92. apply negb_true_iff, Nat.eqb_neq in H34.
  repeat split; assumption.
Qed.

Lemma escaped_prefix_free (c c' : ascii) :
  In c escaped_chars -> In c' escaped_chars ->
  prefixb (JS.escape c) (JS.escape c') = true -> c = c'.
Proof.
  assert (forallb (fun c => forallb (fun c' => Ascii.eqb c c'
                                              || negb (prefixb (JS.escape c) (JS.escape c')))
                                    escaped_chars)
                  escaped_chars = true) as A by (vm_compute; reflexivity).
  intros Hc Hc' P. rewrite forallb_forall in A. specialize (A c Hc).
  rewrite forallb_forall in A. specialize (A c' Hc').
  rewrite P in A. cbn [negb] in A. rewrite orb_false_r in A. now apply Ascii.eqb_eq.
Qed.

Lemma escape_unique (c c' : ascii) (y y' : string) :
  JS.escape c ++ y = JS.escape c' ++ y' -> c = c' /\ y = y'.
Proof.
  intros E.
  destruct (escape_classes c) as [P | [I B]], (escape_classes c') as [P' | [I' B']].
  - destruct (plain_spec c P) as (Ec & _). destruct (plain_spec c' P') as (Ec' & _).
    rewrite Ec, Ec' in E. cbn [String.append] in E. now injection E.
  - destruct (plain_spec c P) as (Ec & N & _). rewrite Ec in E.
    destruct (JS.escape c') as [|x s]; [discriminate|].
    cbn [String.append] in E. injection E as -> _.
    cbn [starts_with_backslash] in B'. apply Nat.eqb_eq in B'. contradiction.
  - destruct (plain_spec c' P') as (Ec' & N & _). rewrite Ec' in E.
    destruct (JS.escape c) as [|x s]; [discriminate|].
    cbn [String.append] in E. injection E as -> _.
    cbn [starts_with_backslash] in B. apply Nat.eqb_eq in B. contradiction.
  - assert (c = c') as <-.
    { destruct (text_prefix _ _ _ _ E) as [Pf | Pf].
      - now apply escaped_prefix_free.
      - symmetry. now apply escaped_prefix_free. }
    split; [reflexivity|]. now apply text_cancel in E.
Qed.

Lemma escape_head (c : ascii) :
  exists x s, JS.escape c = String x s /\ nat_of_ascii x <> 34%nat.
Proof.
  destruct (escape_classes c) as [P | [_ B]].
  - destruct (plain_spec c P) as (E & _ & N). exists c, "". now split.
  - destruct (JS.escape c) as [|x s]; [discriminate|].
    exists x, s. split; [reflexivity|]. cbn [starts_with_backslash] in B.
    apply Nat.eqb_eq in B. lia.
Qed.

Lemma escape_all_unique (s : string) :
  forall s' x x',
    JS.escape_all s ++ String (ascii_of_nat 34) x
    = JS.escape_all s' ++ String (ascii_of_nat 34) x' ->
    s = s' /\ x = x'.
Proof.
  induction s as [|c s IH]; intros [|c' s'] x x' E.
  - cbn [JS.escape_all String.append] in E. now injection E.
  - cbn [JS.escape_all] in E. rewrite text_assoc in E.
    destruct (escape_head c') as (h & t & Eh & N). rewrite Eh in E.
    cbn [String.append] in E. injection E as <- _. now contradiction N.
  - cbn [JS.escape_all] in E. rewrite text_assoc in E.
    destruct (escape_head c) as (h & t & Eh & N). rewrite Eh in E.
    cbn [String.append] in E. injection E as -> _. now contradiction N.
  - cbn [JS.escape_all] in E. rewrite !text_assoc in E.
    apply escape_unique in E as [<- E]. apply IH in E as [<- <-]. now split.
Qed.

Lemma quote_text (s r : string) :
  JS.quote s ++ r
  = String (ascii_of_nat 34) (JS.escape_all s ++ String (ascii_of_nat 34) r).
Proof. unfold JS.quote. cbn [String.append]. now rewrite text_assoc. Qed.

Lemma quote_unique (s s' r r' : string) :
  JS.quote s ++ r = JS.quote s' ++ r' -> s = s' /\ r = r'.
Proof.
  rewrite !quote_text. intros E. injection E as E. now apply escape_all_unique in E.
Qed.

Lemma quote_kind (s r : string) : kind_of_text (JS.quote s ++ r) = KStr.
Proof. now rewrite quote_text. Qed.

End StringFacts.

Module SequenceFacts.
Import TextFacts.

Lemma join_close (close : ascii) (parts : list string) (r : string) :
  JS.join "," parts ++ String close r = sequence_text close parts r.
Proof.
  destruct parts as [|p ps]; [reflexivity|]. cbn [sequence_text].
  revert p. induction ps as [|q ps IH]; intros p.
  - reflexivity.
  - change (JS.join "," (p :: q :: ps)) with (p ++ "," ++ JS.join "," (q :: ps)).
    rewrite !text_assoc. rewrite IH. reflexivity.
Qed.

Lemma tail_delimited (close : ascii) (ps : list string) (r : string) :
  is_digit close = false -> delimited (tail_text close ps r) = true.
Proof. intros H. destruct ps; cbn [tail_text delimited String.append]; [now rewrite H | reflexivity]. Qed.

Section Sequences.
Context {A B : Type} (f : A -> string) (g : B -> string) (R : A -> B -> Prop) (close : ascii).
Hypothesis close_no_digit : is_digit close = false.
Hypothesis close_no_comma : close <> ","%char.

Lemma tail_unique (l : list A) :
  forall l' : list B,
    (forall a b r r', In a l -> In b l' -> delimited r = true -> delimited r' = true ->
                      f a ++ r = g b ++ r' -> R a b /\ r = r') ->
    forall r r',
      tail_text close (map f l) r = tail_text close (map g l') r' ->
      Forall2 R l l' /\ r = r'.
Proof.
  induction l as [|a t IH]; intros [|b t'] item r r' E; cbn [map tail_text] in E.
  - injection E as E. now split.
  - cbn [String.append] in E. injection E as E _. contradiction.
  - cbn [String.append] in E. injection E as E _. now contradiction close_no_comma.
  - cbn [String.append] in E. injection E as E.
    apply item in E as [Hab E]; try (now left); try now apply tail_delimited.
    apply IH in E as [Ht Er].
    + split; [now constructor | exact Er].
    + intros a' b' r0 r1 Ha Hb. apply item; now right.
Qed.

Lemma sequence_unique (l : list A) (l' : list B) :
  (forall a r0 r1, In a l -> f a ++ r0 <> String close r1) ->
  (forall b r0 r1, In b l' -> g b ++ r0 <> String close r1) ->
  (forall a b r r', In a l -> In b l' -> delimited r = true -> delimited r' = true ->
                    f a ++ r = g b ++ r' -> R a b /\ r = r') ->
  forall r r',
    sequence_text close (map f l) r = sequence_text close (map g l') r' ->
    Forall2 R l l' /\ r = r'.
Proof.
  intros Hf Hg item r r' E.
  destruct l as [|a t], l' as [|b t']; cbn [map sequence_text] in E.
  - injection E as E. now split.
  - symmetry in E. apply Hg in E; [contradiction | now left].
  - apply Hf in E; [contradiction | now left].
  - apply item in E as [Hab E]; try (now left); try now apply tail_delimited.
    apply tail_unique in E as [Ht Er].
    + split; [now constructor | exact Er].
    + intros a' b' r0 r1 Ha Hb. apply item; now right.
Qed.

End Sequences.

End SequenceFacts.

Module ReadFacts.
Import TextFacts.

Lemma defined_text (v : value) :
  v <> JUndefined -> canonicalize v = Some (ctext v) /\ JS.operand (canonicalize v) = ctext v.
Proof. intros H. destruct v; try congruence; split; reflexivity. Qed.

Lemma defined_not_undefined (v : value) : defined v = true -> v <> JUndefined.
Proof. intros H ->. discriminate. Qed.

Lemma text_kind (v : value) (r : string) :
  defined v = true -> kind_of_text (ctext v ++ r) = kind_of_value v.
Proof.
  intros D. destruct v as [| |b|n|s|l|fs]; try reflexivity.
  - discriminate.
  - now destruct b.
  - apply NumberFacts.number_kind.
Qed.

Lemma defined_obj (fs : obj) :
  defined (JObj fs) = true -> Forall (fun kv => defined (snd kv) = true) fs.
Proof.
  cbn [defined]. intros H. rewrite forallb_forall in H. apply Forall_forall.
  intros [k x] Hin. exact (H _ Hin).
Qed.

Lemma lookup_key {A : Type} (k : string) (fs : list (string * A)) :
  In k (JS.keys fs) -> exists x, JS.lookup k fs = Some x.
Proof.
  induction fs as [|[k' x] fs IH]; [contradiction|]. cbn [JS.keys map fst JS.lookup].
  destruct (String.eqb k k') eqn:E; [now exists x|].
  intros [H | H]; [apply String.eqb_neq in E; congruence | now apply IH].
Qed.

Lemma text_array (l : list value) (r : string) :
  ctext (JArr l) ++ r = String "[" (sequence_text "]" (map ctext l) r).
Proof.
  unfold ctext at 1. cbn [canonicalize JS.element String.append].
  f_equal. rewrite <- SequenceFacts.join_close. now rewrite !text_assoc.
Qed.

Lemma text_object (fs : obj) (r : string) :
  ctext (JObj fs) ++ r
  = String "{" (sequence_text "}"
                  (map (fun k => JS.quote k ++ ":" ++ JS.operand (canonicalize (JS.get fs k)))
                       (JS.sort (JS.keys fs))) r).
Proof.
  unfold ctext at 1. rewrite canonicalize_object_keys. cbn [JS.element String.append].
  f_equal. rewrite <- SequenceFacts.join_close. now rewrite !text_assoc.
Qed.

End ReadFacts.

Module UniqueFacts.
Import TextFacts ReadFacts.

Lemma kinds_agree (v v' : value) (r r' : string) :
  defined v = true -> defined v' = true -> ctext v ++ r = ctext v' ++ r' ->
  kind_of_value v = kind_of_value v'.
Proof.
  intros D D' E. rewrite <- (text_kind v r D), <- (text_kind v' r' D'). now rewrite E.
Qed.

Lemma text_is_no_closer (close : ascii) (v : value) (r0 r1 : string) :
  kind_of_char close = KOther -> defined v = true -> ctext v ++ r0 <> String close r1.
Proof.
  intros C D E. pose proof (text_kind v r0 D) as K. rewrite E in K.
  cbn [kind_of_text] in K. rewrite C in K. destruct v; discriminate.
Qed.

Lemma forall2_diagonal {A : Type} (Q : A -> A -> Prop) (l l' : list A) :
  Forall2 (fun k k' => k = k' /\ Q k k') l l' -> l = l' /\ Forall (fun k => Q k k) l.
Proof.
  induction 1 as [|k k' l l' [<- Hq] _ [<- IH]]; [now split|].
  split; [reflexivity | now constructor].
Qed.

Lemma get_member (fs : obj) (k : string) :
  In k (JS.keys fs) -> In (k, JS.get fs k) fs.
Proof.
  intros H. destruct (lookup_key k fs H) as [x L].
  unfold JS.get. rewrite L. now apply CanonFacts.lookup_some_in.
Qed.

Lemma reordered_objects (fs fs' : obj) :
  NoDup (JS.keys fs) -> NoDup (JS.keys fs') ->
  Permutation (JS.keys fs) (JS.keys fs') ->
  (forall k, In k (JS.keys fs) -> reordered (JS.get fs k) (JS.get fs' k)) ->
  reordered (JObj fs) (JObj fs').
Proof.
  intros N N' P H.
  set (fs1 := map (fun kv : string * value => (fst kv, JS.get fs (fst kv))) fs').
  assert (JS.keys fs1 = JS.keys fs') as K1.
  { unfold fs1, JS.keys. rewrite map_map. reflexivity. }
  apply (ro_obj fs fs1 fs').
  - apply NoDup_Permutation.
    + now apply (NoDup_map_inv fst).
    + apply (NoDup_map_inv fst). change (map fst fs1) with (JS.keys fs1). now rewrite K1.
    + intros [k x]. split.
      * intros Hin.
        assert (In k (JS.keys fs)) as Hk by (apply (in_map fst) in Hin; exact Hin).
        assert (JS.get fs k = x) as <-
          by (unfold JS.get; now rewrite (CanonFacts.lookup_in k fs x N Hin)).
        assert (In k (JS.keys fs')) as Hk' by (eapply Permutation_in; eassumption).
        unfold JS.keys in Hk'. apply in_map_iff in Hk' as ([k' x'] & Ek & Hin').
        cbn [fst] in Ek. subst k'. unfold fs1. apply in_map_iff.
        exists (k, x'). split; [reflexivity | exact Hin'].
      * intros Hin. unfold fs1 in Hin. apply in_map_iff in Hin as ([k' x'] & E & Hin').
        cbn [fst] in E. injection E as -> <-.
        apply get_member. apply Permutation_sym in P.
        eapply Permutation_in; [exact P|]. apply (in_map fst) in Hin'. exact Hin'.
  - unfold fs1. clear K1 fs1.
    assert (forall kv, In kv fs' -> In kv fs') as Hall by trivial.
    revert Hall. generalize fs' at 1 3 4. intros l Hall.
    induction l as [|[k x] l IH]; [constructor|].
    cbn [map fst]. constructor.
    + cbn [fst snd]. split; [reflexivity|].
      assert (In (k, x) fs') as Hin by (apply Hall; now left).
      assert (JS.get fs' k = x) as <-
        by (unfold JS.get; now rewrite (CanonFacts.lookup_in k fs' x N' Hin)).
      apply H. apply Permutation_sym in P.
      eapply Permutation_in; [exact P|]. apply (in_map fst) in Hin. exact Hin.
    + apply IH. intros kv Hkv. apply Hall. now right.
Qed.

Lemma all_uniquely_readable : forall v, uniquely_readable v.
Proof.
  apply CanonFacts.value_induction; unfold uniquely_readable.
  - (* undefined *) intros v' r r' _ D. discriminate.
  - (* null *)
    intros v' r r' _ D W' D' Hr Hr' E.
    pose proof (kinds_agree _ _ _ _ D D' E) as K.
    destruct v'; try discriminate. apply text_cancel in E. split; [constructor | exact E].
  - (* booleans *)
    intros b v' r r' _ D W' D' Hr Hr' E.
    pose proof (kinds_agree _ _ _ _ D D' E) as K.
    destruct v' as [| |b'| | | |]; try discriminate.
    destruct b, b'; try discriminate; apply text_cancel in E; (split; [constructor | exact E]).
  - (* numbers *)
    intros n v' r r' _ D W' D' Hr Hr' E.
    pose proof (kinds_agree _ _ _ _ D D' E) as K.
    destruct v' as [| | |n'| | |]; try discriminate.
    apply NumberFacts.number_unique in E as [<- E]; try assumption.
    split; [constructor | exact E].
  - (* strings *)
    intros s v' r r' _ D W' D' Hr Hr' E.
    pose proof (kinds_agree _ _ _ _ D D' E) as K.
    destruct v' as [| | | |s'| |]; try discriminate.
    apply StringFacts.quote_unique in E as [<- E]. split; [constructor | exact E].
  - (* arrays *)
    intros l IH v' r r' W D W' D' Hr Hr' E.
    pose proof (kinds_agree _ _ _ _ D D' E) as K.
    destruct v' as [| | | | |l'|]; try discriminate.
    rewrite !text_array in E. injection E as E.
    cbn [well_formed defined] in W, D, W', D'.
    rewrite forallb_forall in W, D, W', D'. rewrite Forall_forall in IH.
    apply (SequenceFacts.sequence_unique ctext ctext reordered "]") in E.
    + destruct E as [F E]. split; [now constructor | exact E].
    + reflexivity.
    + discriminate.
    + intros a r0 r1 Ha. apply text_is_no_closer; [reflexivity | now apply D].
    + intros b r0 r1 Hb. apply text_is_no_closer; [reflexivity | now apply D'].
    + intros a b r0 r1 Ha Hb. apply (IH a Ha); auto.
  - (* objects *)
    intros fs IH v' r r' W D W' D' Hr Hr' E.
    pose proof (kinds_agree _ _ _ _ D D' E) as K.
    destruct v' as [| | | | | |fs']; try discriminate.
    rewrite !text_object in E. injection E as E.
    destruct (CanonFacts.well_formed_obj fs W) as [N Wf].
    destruct (CanonFacts.well_formed_obj fs' W') as [N' Wf'].
    pose proof (defined_obj fs D) as Df. pose proof (defined_obj fs' D') as Df'.
    rewrite Forall_forall in IH, Wf, Wf', Df, Df'.
    assert (forall k, In k (JS.sort (JS.keys fs)) -> In k (JS.keys fs)) as S
      by (intros k Hk; eapply Permutation_in;
          [apply Permutation_sym, SortFacts.sort_perm | exact Hk]).
    assert (forall k, In k (JS.sort (JS.keys fs')) -> In k (JS.keys fs')) as S'
      by (intros k Hk; eapply Permutation_in;
          [apply Permutation_sym, SortFacts.sort_perm | exact Hk]).
    apply (SequenceFacts.sequence_unique
             (fun k => JS.quote k ++ ":" ++ JS.operand (canonicalize (JS.get fs k)))
             (fun k => JS.quote k ++ ":" ++ JS.operand (canonicalize (JS.get fs' k)))
             (fun k k' => k = k' /\ reordered (JS.get fs k) (JS.get fs' k')) "}") in E.
    + destruct E as [F E]. split; [|exact E].
      apply forall2_diagonal in F as [Ek F]. rewrite Forall_forall in F.
      apply reordered_objects; try assumption.
      * eapply Permutation_trans; [apply SortFacts.sort_perm|].
        rewrite Ek. apply Permutation_sym, SortFacts.sort_perm.
      * intros k Hk. apply F. eapply Permutation_in; [apply SortFacts.sort_perm | exact Hk].
    + reflexivity.
    + discriminate.
    + intros k r0 r1 _. rewrite text_assoc, StringFacts.quote_text. discriminate.
    + intros k r0 r1 _. rewrite text_assoc, StringFacts.quote_text. discriminate.
    + intros k k' r0 r1 Hk Hk' Hr0 Hr1 E'.
      rewrite !text_assoc in E'. apply StringFacts.quote_unique in E' as [<- E'].
      cbn [String.append] in E'. injection E' as E'.
      pose proof (get_member fs k (S k Hk)) as M.
      pose proof (get_member fs' k (S' k Hk')) as M'.
      pose proof (Df _ M) as Dx. pose proof (Df' _ M') as Dx'.
      pose proof (Wf _ M) as Wx. pose proof (Wf' _ M') as Wx'.
      pose proof (IH _ M) as IHx. cbn [snd] in Dx, Dx', Wx, Wx', IHx.
      rewrite (proj2 (defined_text _ (defined_not_undefined _ Dx))) in E'.
      rewrite (proj2 (defined_text _ (defined_not_undefined _ Dx'))) in E'.
      apply IHx in E'; [destruct E' as [Hre Er]; repeat split; assumption | assumption ..].
Qed.

End UniqueFacts.

(** X18.  The canonical text determines the value.  Among values that hold
    no [undefined] (what [JSON.parse] yields: [null], booleans, strings,
    arrays, objects with each key once) and whose numbers are safe
    integers, two values get the same text from [canonicalize] if and only
    if one is the other with the properties of its objects, at any depth,
    inserted in another order.  Values that differ in anything else (a
    number, a character of a string or of a key, the length or order of an
    array, the kind of a value, a property more or less) get different
    texts. *)

Theorem canonical_text_determines_the_value (v v' : value) :
  json v = true -> json v' = true ->
  (canonicalize v = canonicalize v' <-> reordered v v').
Proof.
  intros J J'.
  apply andb_true_iff in J as [J _]. apply andb_true_iff in J as [W D].
  apply andb_true_iff in J' as [J' _]. apply andb_true_iff in J' as [W' D'].
  split.
  - intros E.
    rewrite (proj1 (ReadFacts.defined_text v (ReadFacts.defined_not_undefined v D))) in E.
    rewrite (proj1 (ReadFacts.defined_text v' (ReadFacts.defined_not_undefined v' D'))) in E.
    injection E as E.
    assert (ctext v ++ "" = ctext v' ++ "") as E' by now rewrite E.
    now apply (UniqueFacts.all_uniquely_readable v v' "" "") in E'.
  - now apply CanonFacts.canonicalize_reordered.
Qed.

(** X18, witness: the sample document and its reordering. *)

Lemma canonical_text_determines_the_value_witness :
  canonicalize sample_document = canonicalize sample_document_reordered
  <-> reordered sample_document sample_document_reordered.
Proof.
  apply canonical_text_determines_the_value; reflexivity.
Defined.

(** ** Where [undefined] slips through *)

Module CollisionFacts.

Lemma hashed_record_payload (seq : nat) (type agent : value) (ts : string)
    (payload payload' prev : value) :
  canonicalize payload = canonicalize payload' ->
  canonicalize_object (Chain.hashed_record seq type agent ts payload prev)
  = canonicalize_object (Chain.hashed_record seq type agent ts payload' prev).
Proof.
  intros E. unfold canonicalize_object, Chain.hashed_record. cbn [map]. now rewrite E.
Qed.

Lemma member_text (k : string) (x x' : value) (rest : obj) :
  canonicalize x = canonicalize x' ->
  canonicalize (JObj ((k, x) :: rest)) = canonicalize (JObj ((k, x') :: rest)).
Proof. intros E. cbn [canonicalize map]. now rewrite E. Qed.

End CollisionFacts.

(** X19.  An [undefined] array element leaves no trace.  [canonicalize]
    joins the elements of an array, and [join] writes [undefined] as
    nothing: an array holding the single element [undefined] gets the text
    of the empty array.  So two calls of [append] that differ only in that,
    in a property of the payload, store different payloads under the same
    [event_hash]. *)

Theorem undefined_array_element_leaves_no_trace
    (c : Chain.t) (now : string) (type agent org opts : value) (k : string) (rest : obj) :
  canonicalize (JObj ((k, JArr [JUndefined]) :: rest))
  = canonicalize (JObj ((k, JArr []) :: rest))
  /\ match Chain.append c now type agent org (JObj ((k, JArr [JUndefined]) :: rest)) opts,
           Chain.append c now type agent org (JObj ((k, JArr []) :: rest)) opts with
     | Ok (_, ev, _), Ok (_, ev', _) =>
         JS.get ev "event_hash" = JS.get ev' "event_hash"
         /\ JS.get ev "payload" = JObj ((k, JArr [JUndefined]) :: rest)
         /\ JS.get ev' "payload" = JObj ((k, JArr []) :: rest)
         /\ JS.get ev "payload" <> JS.get ev' "payload"
     | Throw _, Throw _ => opts = JNull
     | _, _ => False
     end.
Proof.
  assert (canonicalize (JObj ((k, JArr [JUndefined]) :: rest))
          = canonicalize (JObj ((k, JArr []) :: rest))) as E
    by (apply CollisionFacts.member_text; reflexivity).
  split; [exact E|].
  pose proof (ChainFacts.append_spec c now type agent org
                (JObj ((k, JArr [JUndefined]) :: rest)) opts) as S.
  pose proof (ChainFacts.append_spec c now type agent org
                (JObj ((k, JArr []) :: rest)) opts) as S'.
  destruct (Chain.append c now type agent org (JObj ((k, JArr [JUndefined]) :: rest)) opts)
    as [[[c1 ev] m]|e];
    destruct (Chain.append c now type agent org (JObj ((k, JArr []) :: rest)) opts)
      as [[[c1' ev'] m']|e'].
  - destruct S as (a & o & _ & _ & -> & _). destruct S' as (a' & o' & _ & _ & -> & _).
    rewrite !LinkFacts.get_event_hash_event_of.
    rewrite (CollisionFacts.hashed_record_payload _ _ _ _ _ (JObj ((k, JArr []) :: rest)) _ E).
    split; [reflexivity|]. split; [reflexivity|]. split; [reflexivity|].
    change (JObj ((k, JArr [JUndefined]) :: rest) <> JObj ((k, JArr []) :: rest)).
    intros H. discriminate H.
  - destruct S as (a & o & Ha & _). destruct S' as [_ ->]. discriminate Ha.
  - destruct S' as (a & o & Ha & _). destruct S as [_ ->]. discriminate Ha.
  - now destruct S.
Qed.

(** ** The event stream *)

Module StreamFacts.
Import TextFacts.

Lemma printable_app (s t : string) :
  all_chars printable (s ++ t) = all_chars printable s && all_chars printable t.
Proof. apply RunFacts.all_chars_app. Qed.

Lemma escape_printable (c : ascii) : all_chars printable (JS.escape c) = true.
Proof.
  assert (forallb (fun c => all_chars printable (JS.escape c)) all_ascii = true) as A
    by (vm_compute; reflexivity).
  exact (for_all_ascii _ A c).
Qed.

Lemma quote_printable (s : string) : all_chars printable (JS.quote s) = true.
Proof.
  unfold JS.quote. cbn [all_chars]. rewrite printable_app. cbn [all_chars andb].
  rewrite andb_true_r. change (printable (ascii_of_nat 34)) with true. cbn [andb].
  induction s as [|c s IH]; [reflexivity|].
  cbn [JS.escape_all]. now rewrite printable_app, escape_printable, IH.
Qed.

Lemma digits_printable (s : string) :
  all_chars is_digit s = true -> all_chars printable s = true.
Proof.
  induction s as [|c s IH]; [reflexivity|]. cbn [all_chars].
  intros H. apply andb_true_iff in H as [Hc Hs]. rewrite (IH Hs), andb_true_r.
  unfold is_digit in Hc. apply andb_true_iff in Hc as [Hc _].
  unfold printable. apply Nat.leb_le in Hc. apply Nat.leb_le. lia.
Qed.

Lemma number_printable (n : Z) : all_chars printable (JS.Number_toString n) = true.
Proof.
  rewrite NumberFacts.number_text. destruct (Z.ltb_spec n 0) as [L|L].
  - cbn [String.append all_chars]. change (printable "-") with true. cbn [andb].
    apply digits_printable, NumberFacts.decimal_spec. lia.
  - apply digits_printable, NumberFacts.decimal_spec. lia.
Qed.

Lemma join_printable (parts : list string) :
  Forall (fun p => all_chars printable p = true) parts ->
  all_chars printable (JS.join "," parts) = true.
Proof.
  induction 1 as [|p ps Hp Hps IH]; [reflexivity|].
  destruct ps as [|q ps]; [exact Hp|].
  change (JS.join "," (p :: q :: ps)) with (p ++ "," ++ JS.join "," (q :: ps)).
  rewrite !printable_app, Hp, IH. reflexivity.
Qed.

Lemma stringify_printable :
  forall v, all_chars printable (JS.operand (Stream.JSON_stringify v)) = true.
Proof.
  apply CanonFacts.value_induction.
  - reflexivity.
  - reflexivity.
  - intros []; reflexivity.
  - intros n. apply number_printable.
  - intros s. apply quote_printable.
  - intros l IH. cbn [Stream.JSON_stringify JS.operand].
    assert (all_chars printable
              (JS.join "," (map (fun x => match Stream.JSON_stringify x with
                                          | Some s => s
                                          | None => "null"
                                          end) l)) = true) as J.
    { apply join_printable. apply Forall_map. eapply Forall_impl; [|exact IH].
      intros x Hx. cbn beta in Hx. destruct (Stream.JSON_stringify x); [exact Hx | reflexivity]. }
    cbn [String.append all_chars]. rewrite printable_app, J. reflexivity.
  - intros fs IH. cbn [Stream.JSON_stringify JS.operand].
    assert (all_chars printable
              (JS.join "," (Stream.members
                              (map (fun kv : string * value =>
                                      let '(k, x) := kv in (k, Stream.JSON_stringify x)) fs)))
            = true) as J.
    { apply join_printable. unfold Stream.members.
      apply Forall_flat_map, Forall_forall. intros k _.
      destruct (JS.lookup k _) as [[s|]|] eqn:L; constructor; [|constructor].
      apply CanonFacts.lookup_some_in in L. apply in_map_iff in L as ([k' x] & E & Hin).
      injection E as -> E. rewrite Forall_forall in IH. specialize (IH _ Hin).
      cbn [snd] in IH. rewrite E in IH. cbn [JS.operand] in IH.
      rewrite !printable_app, quote_printable, IH. reflexivity. }
    cbn [String.append all_chars]. rewrite printable_app, J. reflexivity.
Qed.

End StreamFacts.

Module PushFacts.

Lemma append_message (c : Chain.t) (now : string) (type agent org payload opts : value) :
  match Chain.append c now type agent org payload opts with
  | Ok (_, ev, m) =>
      m = [("type", JStr "chain"); ("seq", JS.get ev "sequence"); ("eventType", type);
           ("agent", agent); ("org", org); ("hash", JS.get ev "event_hash");
           ("prevHash", JS.get ev "prev_hash")]
  | Throw _ => opts = JNull
  end.
Proof.
  unfold Chain.append.
  destruct (if Nat.eqb (S (List.length (Chain.events c))) 1 then Ok (JStr GENESIS)
            else match nth_error (Chain.events c) (S (List.length (Chain.events c)) - 2) with
                 | Some e => Ok (JS.get e "event_hash")
                 | None => Throw TypeError
                 end) as [prev|e] eqn:P.
  - cbn [bind]. destruct opts; cbn [Chain.option_of bind]; reflexivity.
  - exfalso. destruct (Chain.events c) as [|x l] eqn:E; [discriminate P|].
    change (Nat.eqb (S (List.length (x :: l))) 1) with false in P.
    replace (S (List.length (x :: l)) - 2)%nat with (List.length (x :: l) - 1)%nat in P
      by (cbn [List.length]; lia).
    rewrite (ChainFacts.nth_error_last (x :: l) []) in P by discriminate. discriminate P.
Qed.

End PushFacts.

(** X20.  A pushed message is one line.  Whatever the data, the message
    [push] writes is [data: ], then one line of text without any control
    character (no line feed, no carriage return), then a blank line, so no
    content can end the message early or start another one; every
    connected client is written that message.  For an [append], the data
    pushed carries the sequence number and the two hashes of the event
    stored. *)

Theorem pushed_message_is_one_line
    (c : Chain.t) (now : string) (type agent org payload opts : value) :
  (forall data,
     exists line,
       Stream.message data = "data: " ++ line ++ Verifier.newline ++ Verifier.newline
       /\ all_chars printable line = true)
  /\ (forall (client : Type) (sseClients : list client) data,
        map fst (Stream.push sseClients data) = sseClients
        /\ Forall (fun w => snd w = Stream.message data) (Stream.push sseClients data))
  /\ match Chain.append c now type agent org payload opts with
     | Ok (_, ev, m) =>
         JS.get m "seq" = JS.get ev "sequence"
         /\ JS.get m "hash" = JS.get ev "event_hash"
         /\ JS.get m "prevHash" = JS.get ev "prev_hash"
     | Throw _ => opts = JNull
     end.
Proof.
  split; [|split].
  - intros data. exists (JS.operand (Stream.JSON_stringify data)).
    split; [reflexivity | apply StreamFacts.stringify_printable].
  - intros client sseClients data. unfold Stream.push. split.
    + rewrite map_map. cbn [fst]. apply map_id.
    + apply Forall_map, Forall_forall. intros r _. reflexivity.
  - pose proof (PushFacts.append_message c now type agent org payload opts) as M.
    destruct (Chain.append c now type agent org payload opts) as [[[c' ev] m]|e];
      [|exact M].
    subst m. repeat split.
Qed.

(** ** What the hashed and signed bytes determine *)

Module BindingFacts.

Lemma cons_parts {A : Type} (a b : A) (l l' : list A) :
  a :: l = b :: l' -> a = b /\ l = l'.
Proof. intros E. now injection E. Qed.

Lemma utf8_unique (s : string) : forall s', Bytes.utf8 s = Bytes.utf8 s' -> s = s'.
Proof.
  assert (forall c : ascii, 0 <= Z.of_nat (nat_of_ascii c) < 256) as B
    by (intros c; pose proof (nat_ascii_bounded c); lia).
  assert (forall c c' : ascii, Z.of_nat (nat_of_ascii c) = Z.of_nat (nat_of_ascii c') -> c = c')
    as I.
  { intros c c' H. apply Nat2Z.inj in H.
    rewrite <- (ascii_nat_embedding c), <- (ascii_nat_embedding c'). now rewrite H. }
  induction s as [|c s IH]; intros [|c' s'] E; cbn [Bytes.utf8] in E.
  - reflexivity.
  - destruct (Z.of_nat (nat_of_ascii c') <? 128); discriminate.
  - destruct (Z.of_nat (nat_of_ascii c) <? 128); discriminate.
  - pose proof (B c) as Bc. pose proof (B c') as Bc'.
    remember (Z.of_nat (nat_of_ascii c)) as n eqn:Hn.
    remember (Z.of_nat (nat_of_ascii c')) as n' eqn:Hn'.
    assert (0 <= n / 64) as Q by (apply Z.div_pos; lia).
    assert (0 <= n' / 64) as Q' by (apply Z.div_pos; lia).
    pose proof (Z.div_mod n 64 ltac:(lia)) as M.
    pose proof (Z.div_mod n' 64 ltac:(lia)) as M'.
    pose proof (Z.mod_pos_bound n 64 ltac:(lia)) as R.
    pose proof (Z.mod_pos_bound n' 64 ltac:(lia)) as R'.
    assert (n = n' /\ Bytes.utf8 s = Bytes.utf8 s') as [En Es].
    { destruct (Z.ltb_spec n 128) as [L|L], (Z.ltb_spec n' 128) as [L'|L'].
      - now apply cons_parts in E.
      - exfalso. apply cons_parts in E as [Ec _]. lia.
      - exfalso. apply cons_parts in E as [Ec _]. lia.
      - apply cons_parts in E as [E1 E]. apply cons_parts in E as [E2 E].
        split; [lia | exact E]. }
    subst n n'. rewrite (I _ _ En), (IH _ Es). reflexivity.
Qed.

Lemma lookup_related (k : string) (a b : obj) :
  Forall2 (fun x y => fst x = fst y /\ reordered (snd x) (snd y)) a b ->
  reordered (JS.get a k) (JS.get b k).
Proof.
  unfold JS.get. induction 1 as [|[k1 x] [k2 y] a b [Hk Hr] _ IH]; [constructor|].
  cbn [fst snd] in Hk, Hr. subst k2. cbn [JS.lookup].
  destruct (String.eqb k k1); [exact Hr | exact IH].
Qed.

Lemma reordered_get (a b : obj) (k : string) :
  well_formed (JObj a) = true -> reordered (JObj a) (JObj b) ->
  reordered (JS.get a k) (JS.get b k).
Proof.
  intros W R. inversion R as [v | | fs fs1 fs' P F]; subst.
  - constructor.
  - destruct (CanonFacts.well_formed_obj a W) as [N _].
    unfold JS.get at 1. rewrite (CanonFacts.lookup_perm k a fs1 N P).
    now apply lookup_related.
Qed.

Lemma reordered_number (n : Z) (v : value) : reordered (JNum n) v -> v = JNum n.
Proof. intros R. now inversion R. Qed.

Lemma reordered_string (s : string) (v : value) : reordered (JStr s) v -> v = JStr s.
Proof. intros R. now inversion R. Qed.

Lemma json_parts (v : value) : json v = true -> well_formed v = true /\ defined v = true.
Proof.
  unfold json. intros H. apply andb_true_iff in H as [H _]. now apply andb_true_iff in H.
Qed.

(** Two objects with the same bytes of canonical text agree on every
    property, up to the order of keys inside the values. *)
Lemma same_bytes_same_properties (a b : obj) (k : string) :
  json (JObj a) = true -> json (JObj b) = true ->
  Bytes.utf8 (canonicalize_object a) = Bytes.utf8 (canonicalize_object b) ->
  reordered (JS.get a k) (JS.get b k).
Proof.
  intros Ja Jb E. apply utf8_unique in E.
  destruct (json_parts _ Ja) as [Wa Da]. destruct (json_parts _ Jb) as [Wb Db].
  apply reordered_get; [exact Wa|].
  apply (UniqueFacts.all_uniquely_readable (JObj a) (JObj b) "" ""); try assumption;
    try reflexivity.
  change (ctext (JObj a)) with (canonicalize_object a).
  change (ctext (JObj b)) with (canonicalize_object b). now rewrite E.
Qed.

Lemma same_length_prefix (x x' r r' : string) :
  String.length x = String.length x' -> x ++ r = x' ++ r' -> x = x' /\ r = r'.
Proof.
  revert x'. induction x as [|c x IH]; intros [|c' x'] L E; try discriminate L.
  - now split.
  - cbn [String.append] in E. injection E as <- E. cbn [String.length] in L.
    injection L as L. destruct (IH _ L E) as [<- <-]. now split.
Qed.

Lemma join_fixed_length (n : nat) (l : list string) :
  forall l',
    (0 < n)%nat ->
    Forall (fun s => String.length s = n) l -> Forall (fun s => String.length s = n) l' ->
    JS.join ":" l = JS.join ":" l' -> l = l'.
Proof.
  assert (forall x r, JS.join ":" (x :: r)
                      = x ++ match r with [] => "" | _ => ":" ++ JS.join ":" r end) as J.
  { intros x [|y r]; [cbn [JS.join]; clear; induction x as [|c x IH];
                       [reflexivity | cbn [String.append]; now rewrite <- IH]
                     | reflexivity]. }
  induction l as [|x r IH]; intros [|x' r'] Hn F F' E.
  - reflexivity.
  - exfalso. rewrite J in E. inversion F' as [|? ? Hx' _]; subst.
    destruct x'; [cbn in Hn; lia | discriminate E].
  - exfalso. rewrite J in E. inversion F as [|? ? Hx _]; subst.
    destruct x; [cbn in Hn; lia | discriminate E].
  - rewrite !J in E. inversion F as [|? ? Hx Fr]; inversion F' as [|? ? Hx' Fr']; subst.
    apply same_length_prefix in E as [<- E]; [|congruence].
    f_equal. destruct r as [|y r], r' as [|y' r']; try discriminate E; [reflexivity|].
    cbn [String.append] in E. injection E as E. now apply IH.
Qed.

Lemma joined_hashes_unique (es es' : list obj) :
  forallb (fun e => hex64 (JS.get e "event_hash")) es = true ->
  forallb (fun e => hex64 (JS.get e "event_hash")) es' = true ->
  Chain.joined_hashes es = Chain.joined_hashes es' ->
  map (fun e => JS.get e "event_hash") es = map (fun e => JS.get e "event_hash") es'.
Proof.
  intros H H' E. unfold Chain.joined_hashes in E.
  apply (join_fixed_length 64) in E; [|lia| |].
  - assert (forall l : list obj,
              forallb (fun e => hex64 (JS.get e "event_hash")) l = true ->
              map (fun e => JS.get e "event_hash") l
              = map JStr (map (fun e => JS.join_item (JS.get e "event_hash")) l)) as M.
    { induction l as [|e l IH]; [reflexivity|]. cbn [forallb map]. intros A.
      apply andb_true_iff in A as [A1 A2]. rewrite (IH A2).
      destruct (RunFacts.hex64_text _ A1) as (s & -> & _). reflexivity. }
    rewrite (M es H), (M es' H'). now rewrite E.
  - apply Forall_map, Forall_forall. intros e Hin. rewrite forallb_forall in H.
    destruct (RunFacts.hex64_text _ (H e Hin)) as (s & -> & L). exact L.
  - apply Forall_map, Forall_forall. intros e Hin. rewrite forallb_forall in H'.
    destruct (RunFacts.hex64_text _ (H' e Hin)) as (s & -> & L). exact L.
Qed.

End BindingFacts.

(** X21.  The bytes behind an event hash.  Among hashed records that hold
    no [undefined] and no key twice, and whose numbers are safe integers,
    the bytes [append] hands to SHA-256 determine the whole record: two
    records with the same bytes have the same sequence number and
    timestamp, and event type, agent, payload and previous hash that are
    equal up to the order of keys inside objects.  Two events can share an
    [event_hash] only by differing in nothing that is hashed, or through a
    collision of SHA-256 itself. *)

Theorem event_hash_input_binds_the_record
    (seq seq' : nat) (ts ts' : string)
    (type type' agent agent' payload payload' prev prev' : value) :
  json (JObj (Chain.hashed_record seq type agent ts payload prev)) = true ->
  json (JObj (Chain.hashed_record seq' type' agent' ts' payload' prev')) = true ->
  Bytes.utf8 (canonicalize_object (Chain.hashed_record seq type agent ts payload prev))
  = Bytes.utf8 (canonicalize_object (Chain.hashed_record seq' type' agent' ts' payload' prev')) ->
  seq = seq' /\ reordered type type' /\ reordered agent agent' /\ ts = ts'
  /\ reordered payload payload' /\ reordered prev prev'.
Proof.
  intros J J' E.
  pose proof (fun k => BindingFacts.same_bytes_same_properties _ _ k J J' E) as G.
  pose proof (G "seq") as G1. pose proof (G "event_type") as G2.
  pose proof (G "agent_name") as G3. pose proof (G "timestamp") as G4.
  pose proof (G "payload") as G5. pose proof (G "prev_hash") as G6.
  apply BindingFacts.reordered_number in G1. apply BindingFacts.reordered_string in G4.
  injection G1 as G1. injection G4 as G4.
  repeat split; try assumption; [now apply Nat2Z.inj | now symmetry].
Qed.

(** X21, witness: the second event of the demo chain, hashed with a payload
    of two properties and with the same payload built in the other
    order. *)

Lemma event_hash_input_binds_the_record_witness :
  reordered (JObj [("x", JNum 1); ("note", JStr "rotated")])
            (JObj [("note", JStr "rotated"); ("x", JNum 1)]).
Proof.
  refine (proj1 (proj2 (proj2 (proj2 (proj2
            (event_hash_input_binds_the_record 2 2 "2026-01-01T00:00:01.000Z"
               "2026-01-01T00:00:01.000Z" (JStr "updated") (JStr "updated")
               (JStr "agent-a") (JStr "agent-a")
               (JObj [("x", JNum 1); ("note", JStr "rotated")])
               (JObj [("note", JStr "rotated"); ("x", JNum 1)])
               (JS.get demo_event_1 "event_hash") (JS.get demo_event_1 "event_hash")
               eq_refl eq_refl eq_refl)))))).
Defined.

(** X22.  The bytes behind a chain hash.  For chains driven by any
    sequences of calls, the bytes [resolve] hands to SHA-256 are the same
    exactly when the two chains hold the same event hashes in the same
    order: the joined text cannot be split in two ways, and nothing else of
    the chain, its id included, enters the chain hash. *)

Theorem chain_hash_input_binds_the_event_hashes (id id' : value) (ops ops' : list op) :
  Bytes.utf8 (Chain.joined_hashes (Chain.events (run id ops)))
  = Bytes.utf8 (Chain.joined_hashes (Chain.events (run id' ops')))
  <-> map (fun e => JS.get e "event_hash") (Chain.events (run id ops))
      = map (fun e => JS.get e "event_hash") (Chain.events (run id' ops')).
Proof.
  split.
  - intros E. apply BindingFacts.utf8_unique in E.
    apply BindingFacts.joined_hashes_unique; [apply RunFacts.run_event_hashes_hex64 ..|exact E].
  - intros E. unfold Chain.joined_hashes.
    rewrite <- !(map_map (fun e => JS.get e "event_hash") JS.join_item). now rewrite E.
Qed.

(** X23.  The bytes behind a signature.  For certificates whose signed
    fields hold no [undefined] and no key twice, and whose numbers are safe
    integers, the bytes [issue] signs determine the certificate's
    [chain_id] and [chain_hash] (up to the order of keys inside objects),
    its [event_count] and its [issued_at]: changing any of them changes the
    bytes a signature has to verify against. *)

Theorem signed_bytes_bind_the_certificate (c c' : Chain.t) (now now' : string) :
  json (JObj (CertIssuer.data_of c now)) = true ->
  json (JObj (CertIssuer.data_of c' now')) = true ->
  Bytes.utf8 (canonicalize_object (CertIssuer.data_of c now))
  = Bytes.utf8 (canonicalize_object (CertIssuer.data_of c' now')) ->
  reordered (Chain.id c) (Chain.id c')
  /\ reordered (Chain.chainHash c) (Chain.chainHash c')
  /\ List.length (Chain.events c) = List.length (Chain.events c')
  /\ now = now'.
Proof.
  intros J J' E.
  pose proof (fun k => BindingFacts.same_bytes_same_properties _ _ k J J' E) as G.
  pose proof (G "chain_id") as G1. pose proof (G "chain_hash") as G2.
  pose proof (G "event_count") as G3. pose proof (G "issued_at") as G4.
  apply BindingFacts.reordered_number in G3. apply BindingFacts.reordered_string in G4.
  injection G3 as G3. injection G4 as G4.
  repeat split; try assumption; [now apply Nat2Z.inj | now symmetry].
Qed.

(** X23, witness: two new chains whose ids are the same object built in two
    orders. *)

Lemma signed_bytes_bind_the_certificate_witness :
  reordered (JObj [("org", JStr "acme"); ("n", JNum 7)])
            (JObj [("n", JNum 7); ("org", JStr "acme")]).
Proof.
  exact (proj1 (signed_bytes_bind_the_certificate
                  (Chain.new (JObj [("org", JStr "acme"); ("n", JNum 7)]))
                  (Chain.new (JObj [("n", JNum 7); ("org", JStr "acme")]))
                  sample_time sample_time eq_refl eq_refl eq_refl)).
Defined.
